(** * Realtime session engine: conversation store, silence watchdog,
      tool bridge and session controller.

    Shallow embedding of [realtime/conversation.py], [realtime/api.py],
    [realtime/inactivitetimeout.py] and [realtime/client.py], followed by
    the properties of the specification that are stated about them. *)

From Stdlib Require Import ZArith Lia Floats.SpecFloat.
From stdpp Require Import base tactics option list gmap strings.

Local Open Scope Z_scope.

(** ** Python values shared by all modules *)

(** A [bytes]/[bytearray] value. *)
Definition bytes : Type := list Byte.byte.

(** The double-quote character, used inside exception messages. *)
Definition dquote : string := String (Ascii.ascii_of_nat 34) EmptyString.

(** Every [raise] site of the modelled code.  The source raises plain
    [Exception] objects that differ by their message only; the built-in
    exceptions ([KeyError], [IndexError], [TypeError], ...) are those the
    interpreter raises on a missing key, an index out of range or an
    unsupported operand. *)
Inductive error : Type :=
  | MissingProcessor (type : string)
  | ItemNotFound (processor : string) (item_id : string)
  | ResponseNotFound (response_id : string)
  | MissingItem
  | KeyError (key : string)
  | IndexError
  | TypeError
  | ValueError
  | OverflowError
  | NotConnected
  | AlreadyConnected
  | MissingToolName
  | ToolAlreadyAdded (name : string)
  | HandlerNotCallable (name : string)
  | ToolDoesNotExist (name : string)
  | ToolNotAdded (name : string)
  | CancelItemNotFound (item_id : string)
  | CancelNotMessage
  | CancelNotAssistant
  | CancelNoAudio
  | Raised (message : string).

(** [str(e)] for the exceptions whose text the code reads back. *)
Definition error_message (e : error) : string :=
  match e with
  | MissingProcessor t => "Missing conversation event processor for " +:+ t
  | ItemNotFound p i => p +:+ ": Item " +:+ dquote +:+ i +:+ dquote +:+ " not found"
  | ResponseNotFound r =>
      "response.output_item.added: Response " +:+ dquote +:+ r +:+ dquote +:+ " not found"
  | MissingItem => "response.output_item.done: Missing " +:+ dquote +:+ "item" +:+ dquote
  | KeyError k => "'" +:+ k +:+ "'"
  | IndexError => "list index out of range"
  | TypeError => "unsupported operand"
  | ValueError => "invalid value"
  | OverflowError => "integer division result too large for a float"
  | NotConnected => "RealtimeAPI is not connected"
  | AlreadyConnected => "Already connected"
  | MissingToolName => "Missing tool name in definition"
  | ToolAlreadyAdded n =>
      "Tool " +:+ dquote +:+ n +:+ dquote +:+ " already added. Please use .removeTool("
        +:+ dquote +:+ n +:+ dquote +:+ ") before trying to add again."
  | HandlerNotCallable n => "Tool " +:+ dquote +:+ n +:+ dquote +:+ " handler must be a function"
  | ToolDoesNotExist n => "Tool " +:+ dquote +:+ n +:+ dquote +:+ " does not exist, can not be removed."
  | ToolNotAdded n => "Tool " +:+ dquote +:+ n +:+ dquote +:+ " has not been added"
  | CancelItemNotFound i => "Could not find item " +:+ dquote +:+ i +:+ dquote
  | CancelNotMessage =>
      "Can only cancelResponse messages with type " +:+ dquote +:+ "message" +:+ dquote
  | CancelNotAssistant =>
      "Can only cancelResponse messages with role " +:+ dquote +:+ "assistant" +:+ dquote
  | CancelNoAudio => "Could not find audio on item to cancel"
  | Raised m => m
  end.

(** The error taxonomy of the specification.  The code has one exception
    class; [classify] records to which group of the taxonomy each raise
    site belongs: a referenced id that is absent is [NotFound], a
    double connect, a duplicate tool name, a handler that is not callable
    and an invalid cancel target are [StateConflict], an event type
    without processor is [ProtocolViolation]. *)
Inductive category : Type :=
  | ProtocolViolation | NotFound | StateConflict | Uncategorised.

Definition classify (e : error) : category :=
  match e with
  | MissingProcessor _ => ProtocolViolation
  | ItemNotFound _ _ | ResponseNotFound _ => NotFound
  | AlreadyConnected | NotConnected => StateConflict
  | ToolAlreadyAdded _ | HandlerNotCallable _ => StateConflict
  | CancelItemNotFound _ | CancelNotMessage | CancelNotAssistant | CancelNoAudio =>
      StateConflict
  | _ => Uncategorised
  end.

(** *** A state-and-exception monad

    Python methods mutate [self] and may raise half way: the mutations made
    before the [raise] stay.  A computation therefore always returns the
    state, together with either the exception or the value. *)
Definition Proc (S A : Type) : Type := S → S * (error + A).

Definition proc_ret {S A} (a : A) : Proc S A := λ s, (s, inr a).
Definition proc_bind {S A B} (m : Proc S A) (k : A → Proc S B) : Proc S B :=
  λ s, match m s with
       | (s', inr a) => k a s'
       | (s', inl e) => (s', inl e)
       end.
Definition raise {S A} (e : error) : Proc S A := λ s, (s, inl e).
Definition get {S} : Proc S S := λ s, (s, inr s).
Definition put {S} (s : S) : Proc S unit := λ _, (s, inr tt).
Definition modify {S} (f : S → S) : Proc S unit := λ s, (f s, inr tt).
(** [try: m except Exception as e: h e] *)
Definition try_except {S A} (m : Proc S A) (h : error → Proc S A) : Proc S A :=
  λ s, match m s with
       | (s', inr a) => (s', inr a)
       | (s', inl e) => h e s'
       end.

Notation "'let*' x ':=' m 'in' k" := (proc_bind m (λ x, k))
  (at level 10, x binder, m at level 100, k at level 200, only parsing).
Notation "m '>>' k" := (proc_bind m (λ _, k))
  (at level 100, k at level 200, right associativity, only parsing).

(** Value of a dictionary entry read with [d[key]]. *)
Definition require {S A} (key : string) (o : option A) : Proc S A :=
  match o with Some a => proc_ret a | None => raise (KeyError key) end.

(** *** Sequences *)

(** Normalisation of one bound of a slice against a sequence of length
    [len]: negative bounds count from the end, and every bound is clipped
    to [0 .. len]. *)
Definition py_clamp (len i : Z) : Z :=
  if decide (i < 0) then Z.max 0 (len + i) else Z.min i len.

(** [l[start:stop]]; [None] is an omitted bound. *)
Definition py_slice {A} (l : list A) (start stop : option Z) : list A :=
  let len := Z.of_nat (length l) in
  let lo := from_option (py_clamp len) 0 start in
  let hi := from_option (py_clamp len) len stop in
  drop (Z.to_nat lo) (take (Z.to_nat hi) l).

(** Position addressed by [l[i]], if any: negative indices count from the
    end, anything else out of range is an [IndexError]. *)
Definition py_index {A} (l : list A) (i : Z) : option nat :=
  let len := Z.of_nat (length l) in
  if decide (0 ≤ i < len) then Some (Z.to_nat i)
  else if decide (- len ≤ i < 0) then Some (Z.to_nat (len + i))
  else None.

(** [x or y] on strings. *)
Definition str_or (x y : string) : string := if decide (x = EmptyString) then y else x.

(** ** The conversation store ([realtime/conversation.py]) *)

Module Conversation.

(** [RealtimeConversation.default_frequency] *)
Definition default_frequency : Z := 16000.

(** The value held by [formatted.audio].  It starts as the Python
    list [[]] and receives one [bytes] chunk per audio delta
    ([+= [append_values]]); item creation may replace it by a
    [bytearray] taken from a queued speech segment or from the queued
    input audio. *)
Inductive Audio : Type :=
  | AudioList (chunks : list bytes)
  | AudioBuffer (data : bytes).

(** [len(audio)]: chunks of a list, bytes of a buffer. *)
Definition audio_len (a : Audio) : nat :=
  match a with AudioList l => length l | AudioBuffer b => length b end.

(** Number of bytes of audio held, whatever the container. *)
Definition audio_bytes (a : Audio) : nat :=
  match a with
  | AudioList l => length (concat l)
  | AudioBuffer b => length b
  end.

(** [audio[:stop]] keeps the container type. *)
Definition audio_slice_to (a : Audio) (stop : Z) : Audio :=
  match a with
  | AudioList l => AudioList (py_slice l None (Some stop))
  | AudioBuffer b => AudioBuffer (py_slice b None (Some stop))
  end.

(** [formatted.tool] *)
Record Tool : Type := mkTool {
  tool_type : string;
  tool_name : string;
  tool_call_id : string;
  tool_arguments : string }.

(** [item.formatted]; tool and output are optional keys. *)
Record Formatted : Type := mkFormatted {
  audio : Audio;
  text : string;
  transcript : string;
  tool : option Tool;
  output : option string }.

(** One entry of [item.content]; [None] is a key that is absent. *)
Record Part : Type := mkPart {
  part_type : string;
  part_text : option string;
  part_transcript : option string }.

(** An item as it arrives inside an event.  The id and the type are
    carried by every item of the protocol; the other keys depend on the
    type, [None] is a key that is absent. *)
Record RawItem : Type := mkRawItem {
  raw_id : string;
  raw_type : string;
  raw_role : option string;
  raw_status : option string;
  raw_content : option (list Part);
  raw_name : option string;
  raw_call_id : option string;
  raw_arguments : option string;
  raw_output : option string }.

(** An item of the store: the copied event item plus its formatted entry,
    which [_process_item_created] sets right after the copy. *)
Record Item : Type := mkItem {
  id : string;
  type : string;
  role : option string;
  status : option string;
  content : option (list Part);
  name : option string;
  call_id : option string;
  arguments : option string;
  item_output : option string;
  formatted : Formatted }.

Definition set_formatted (f : Formatted → Formatted) (i : Item) : Item :=
  mkItem (id i) (type i) (role i) (status i) (content i) (name i) (call_id i)
         (arguments i) (item_output i) (f (formatted i)).
Definition set_status (s : string) (i : Item) : Item :=
  mkItem (id i) (type i) (role i) (Some s) (content i) (name i) (call_id i)
         (arguments i) (item_output i) (formatted i).
Definition set_content (c : list Part) (i : Item) : Item :=
  mkItem (id i) (type i) (role i) (status i) (Some c) (name i) (call_id i)
         (arguments i) (item_output i) (formatted i).
Definition set_arguments (a : string) (i : Item) : Item :=
  mkItem (id i) (type i) (role i) (status i) (content i) (name i) (call_id i)
         (Some a) (item_output i) (formatted i).

Definition set_audio (a : Audio) (f : Formatted) : Formatted :=
  mkFormatted a (text f) (transcript f) (tool f) (output f).
Definition set_text (t : string) (f : Formatted) : Formatted :=
  mkFormatted (audio f) t (transcript f) (tool f) (output f).
Definition set_transcript (t : string) (f : Formatted) : Formatted :=
  mkFormatted (audio f) (text f) t (tool f) (output f).
Definition set_tool (t : Tool) (f : Formatted) : Formatted :=
  mkFormatted (audio f) (text f) (transcript f) (Some t) (output f).
Definition set_output (o : string) (f : Formatted) : Formatted :=
  mkFormatted (audio f) (text f) (transcript f) (tool f) (Some o).

Definition set_part_text (t : string) (p : Part) : Part :=
  mkPart (part_type p) (Some t) (part_transcript p).
Definition set_part_transcript (t : string) (p : Part) : Part :=
  mkPart (part_type p) (part_text p) (Some t).

(** An entry of [queued_speech_items]. *)
Record Speech : Type := mkSpeech {
  audio_start_ms : Z;
  audio_end_ms : option Z;
  speech_audio : option bytes }.

Record Response : Type := mkResponse {
  response_id : string;
  response_output : list string }.

(** The attributes of [RealtimeConversation].  [item_lookup] and [items]
    hold the same dictionary objects: a mutation made through one is
    seen through the other.  The model keeps each object once, in
    [item_lookup] under its id, and [items] is the ordered list of
    references (ids) to them; likewise for the responses. *)
Record t : Type := mk {
  item_lookup : gmap string Item;
  items : list string;
  response_lookup : gmap string Response;
  responses : list string;
  queued_speech_items : gmap string Speech;
  queued_transcript_items : gmap string string;
  queued_input_audio : option bytes }.

(** [clear()], also the state after [__init__]. *)
Definition clear : t := mk ∅ [] ∅ [] ∅ ∅ None.

Definition set_item_lookup (f : gmap string Item → gmap string Item) (c : t) : t :=
  mk (f (item_lookup c)) (items c) (response_lookup c) (responses c)
     (queued_speech_items c) (queued_transcript_items c) (queued_input_audio c).
Definition set_items (f : list string → list string) (c : t) : t :=
  mk (item_lookup c) (f (items c)) (response_lookup c) (responses c)
     (queued_speech_items c) (queued_transcript_items c) (queued_input_audio c).
Definition set_response_lookup
    (f : gmap string Response → gmap string Response) (c : t) : t :=
  mk (item_lookup c) (items c) (f (response_lookup c)) (responses c)
     (queued_speech_items c) (queued_transcript_items c) (queued_input_audio c).
Definition set_responses (f : list string → list string) (c : t) : t :=
  mk (item_lookup c) (items c) (response_lookup c) (f (responses c))
     (queued_speech_items c) (queued_transcript_items c) (queued_input_audio c).
Definition set_queued_speech_items
    (f : gmap string Speech → gmap string Speech) (c : t) : t :=
  mk (item_lookup c) (items c) (response_lookup c) (responses c)
     (f (queued_speech_items c)) (queued_transcript_items c) (queued_input_audio c).
Definition set_queued_transcript_items
    (f : gmap string string → gmap string string) (c : t) : t :=
  mk (item_lookup c) (items c) (response_lookup c) (responses c)
     (queued_speech_items c) (f (queued_transcript_items c)) (queued_input_audio c).
Definition set_queued_input_audio (a : option bytes) (c : t) : t :=
  mk (item_lookup c) (items c) (response_lookup c) (responses c)
     (queued_speech_items c) (queued_transcript_items c) a.

(** [queue_input_audio(input_audio)] *)
Definition queue_input_audio (input_audio : bytes) (c : t) : t :=
  set_queued_input_audio (Some input_audio) c.

(** [get_item(id)] *)
Definition get_item (c : t) (i : string) : option Item := item_lookup c !! i.

(** [get_items()]: the objects in list order. *)
Definition get_items (c : t) : list Item :=
  omap (λ i, item_lookup c !! i) (items c).

(** The second component of a processor's result. *)
Inductive Delta : Type :=
  | DeltaTranscript (s : string)
  | DeltaAudio (b : bytes)
  | DeltaText (s : string)
  | DeltaArguments (s : string).

(** What a processor returns: [(item_or_None, delta_or_None)]. *)
Definition Output : Type := option Item * option Delta.
(** *** Event processors

    Each processor is a computation on the store that returns
    [(item, delta)] or raises. *)

(** [item.copy()] with the formatted entry of line 66.  Nothing between
    the copy and line 66 can raise, so the copy never exists without it. *)
Definition copy_item (r : RawItem) : Item :=
  mkItem (raw_id r) (raw_type r) (raw_role r) (raw_status r) (raw_content r)
         (raw_name r) (raw_call_id r) (raw_arguments r) (raw_output r)
         (mkFormatted (AudioList []) EmptyString EmptyString None None).

(** Lines 67-95 of [_process_item_created] work on the local [new_item]
    and on the queues of the store. *)
Definition Local : Type := Item * t.

Definition on_item (f : Item → Item) : Proc Local unit :=
  modify (λ s : Local, (f s.1, s.2)).
Definition on_store (f : t → t) : Proc Local unit :=
  modify (λ s : Local, (s.1, f s.2)).

(** Lines 67-69: a queued speech segment gives its audio and is dropped. *)
Definition merge_queued_speech : Proc Local unit :=
  let* s := get in
  match queued_speech_items s.2 !! id s.1 with
  | Some speech =>
      let* a := require "audio" (speech_audio speech) in
      on_item (set_formatted (set_audio (AudioBuffer a))) >>
      on_store (set_queued_speech_items (delete (id s.1)))
  | None => proc_ret tt
  end.

(** Lines 72-73: the loop over the text parts. *)
Fixpoint append_texts (parts : list Part) : Proc Local unit :=
  match parts with
  | [] => proc_ret tt
  | p :: rest =>
      let* t := require "text" (part_text p) in
      on_item (set_formatted (λ f, set_text (text f +:+ t) f)) >>
      append_texts rest
  end.

(** Lines 70-73. *)
Definition merge_text_content : Proc Local unit :=
  let* s := get in
  match content s.1 with
  | Some parts =>
      append_texts (filter (λ c, part_type c ∈ ["text"; "input_text"]) parts)
  | None => proc_ret tt
  end.

(** Lines 74-76: a queued transcript is merged and dropped. *)
Definition merge_queued_transcript : Proc Local unit :=
  let* s := get in
  match queued_transcript_items s.2 !! id s.1 with
  | Some tr =>
      on_item (set_formatted (set_transcript tr)) >>
      on_store (set_queued_transcript_items (delete (id s.1)))
  | None => proc_ret tt
  end.

(** Lines 80-82: a non-empty queued input audio goes to a user message. *)
Definition merge_queued_input_audio : Proc Local unit :=
  let* s := get in
  match queued_input_audio s.2 with
  | Some (b :: q) =>
      on_item (set_formatted (set_audio (AudioBuffer (b :: q)))) >>
      on_store (set_queued_input_audio None)
  | _ => proc_ret tt
  end.

(** Lines 77-95: the status by item type. *)
Definition assign_status : Proc Local unit :=
  let* s := get in
  let new_item := s.1 in
  if decide (type new_item = "message") then
    let* r := require "role" (role new_item) in
    if decide (r = "user") then
      on_item (set_status "completed") >> merge_queued_input_audio
    else on_item (set_status "in_progress")
  else if decide (type new_item = "function_call") then
    let* n := require "name" (name new_item) in
    let* cid := require "call_id" (call_id new_item) in
    on_item (set_formatted (set_tool (mkTool "function" n cid EmptyString))) >>
    on_item (set_status "in_progress")
  else if decide (type new_item = "function_call_output") then
    on_item (set_status "completed") >>
    let* o := require "output" (item_output new_item) in
    on_item (set_formatted (set_output o))
  else proc_ret tt.

(** [_process_item_created].  When the id is new, line 64 stores the very
    object that lines 66-95 go on mutating, so the store sees every
    mutation made until the method returns or raises: the model writes the
    object into [item_lookup] once those lines have run.  When the id is
    already registered the copy is not stored. *)
Definition process_item_created (item : RawItem) : Proc t Output :=
  λ c,
    let new_item := copy_item item in
    let fresh := bool_decide (item_lookup c !! id new_item = None) in
    let '(s, r) :=
      (merge_queued_speech >> merge_text_content >>
       merge_queued_transcript >> assign_status) (new_item, c) in
    let c' :=
      if fresh
      then set_items (λ l, l ++ [id new_item])
             (set_item_lookup <[id new_item := s.1]> s.2)
      else s.2 in
    (c', match r with
         | inl e => inl e
         | inr _ => inr (Some s.1, None)
         end).

(** [_process_item_truncated] *)
Definition process_item_truncated (item_id : string) (audio_end_ms : Z)
    : Proc t Output :=
  λ c,
    match item_lookup c !! item_id with
    | None => (c, inl (ItemNotFound "item.truncated" item_id))
    | Some item =>
        let end_index := (audio_end_ms * default_frequency) `div` 1000 in
        let item' :=
          set_formatted
            (λ f, set_audio (audio_slice_to (audio f) end_index)
                    (set_transcript EmptyString f)) item in
        (set_item_lookup <[item_id := item']> c, inr (Some item', None))
    end.

(** [list.remove(x)]: drops the first occurrence, [ValueError] if none. *)
Fixpoint list_remove (x : string) (l : list string) : option (list string) :=
  match l with
  | [] => None
  | y :: l' => if decide (x = y) then Some l' else cons y <$> list_remove x l'
  end.

(** [_process_item_deleted] *)
Definition process_item_deleted (item_id : string) : Proc t Output :=
  λ c,
    match item_lookup c !! item_id with
    | None => (c, inl (ItemNotFound "item.deleted" item_id))
    | Some item =>
        let c1 := set_item_lookup (delete (id item)) c in
        match list_remove (id item) (items c1) with
        | Some l => (set_items (λ _, l) c1, inr (Some item, None))
        | None => (c1, inl ValueError)
        end
    end.

(** [item.content[content_index][key] = f(old)] on the addressed part;
    [f] raises when the key it reads is absent. *)
Definition update_part (content_index : Z) (f : Part → error + Part)
    (item : Item) : error + Item :=
  match content item with
  | None => inl (KeyError "content")
  | Some parts =>
      match py_index parts content_index ≫= λ k, pair k <$> parts !! k with
      | None => inl IndexError
      | Some (k, p) =>
          match f p with
          | inl e => inl e
          | inr p' => inr (set_content (<[k := p']> parts) item)
          end
      end
  end.

(** [_process_input_audio_transcription_completed] *)
Definition process_input_audio_transcription_completed
    (item_id : string) (content_index : Z) (transcript : string) : Proc t Output :=
  λ c,
    let formatted_transcript := str_or transcript " " in
    match item_lookup c !! item_id with
    | None =>
        (set_queued_transcript_items <[item_id := formatted_transcript]> c,
         inr (None, None))
    | Some item =>
        match update_part content_index
                (λ p, inr (set_part_transcript transcript p)) item with
        | inl e => (c, inl e)
        | inr item1 =>
            let item2 :=
              set_formatted (set_transcript formatted_transcript) item1 in
            (set_item_lookup <[item_id := item2]> c,
             inr (Some item2, Some (DeltaTranscript transcript)))
        end
    end.

(** [_process_speech_started] *)
Definition process_speech_started (item_id : string) (audio_start_ms : Z)
    : Proc t Output :=
  λ c,
    (set_queued_speech_items <[item_id := mkSpeech audio_start_ms None None]> c,
     inr (None, None)).

(** [_process_speech_stopped] *)
Definition process_speech_stopped (item_id : string) (audio_end_ms : Z)
    (input_audio_buffer : bytes) : Proc t Output :=
  λ c,
    match queued_speech_items c !! item_id with
    | None => (c, inl (KeyError item_id))
    | Some speech =>
        let speech1 :=
          mkSpeech (audio_start_ms speech) (Some audio_end_ms)
                   (speech_audio speech) in
        let speech2 :=
          match input_audio_buffer with
          | [] => speech1
          | _ :: _ =>
              let start_index :=
                (audio_start_ms speech * default_frequency) `div` 1000 in
              let end_index := (audio_end_ms * default_frequency) `div` 1000 in
              mkSpeech (audio_start_ms speech) (Some audio_end_ms)
                (Some (py_slice input_audio_buffer
                         (Some start_index) (Some end_index)))
          end in
        (set_queued_speech_items <[item_id := speech2]> c, inr (None, None))
    end.

(** [_process_response_created] *)
Definition process_response_created (response : Response) : Proc t Output :=
  λ c,
    match response_lookup c !! response_id response with
    | None =>
        (set_responses (λ l, l ++ [response_id response])
           (set_response_lookup <[response_id response := response]> c),
         inr (None, None))
    | Some _ => (c, inr (None, None))
    end.

(** [_process_output_item_added] *)
Definition process_output_item_added (rid : string) (item : RawItem)
    : Proc t Output :=
  λ c,
    match response_lookup c !! rid with
    | None => (c, inl (ResponseNotFound rid))
    | Some response =>
        let response' :=
          mkResponse (response_id response)
                     (response_output response ++ [raw_id item]) in
        (set_response_lookup <[rid := response']> c, inr (None, None))
    end.

(** [_process_output_item_done]; [None] is an event whose item is empty. *)
Definition process_output_item_done (item : option RawItem) : Proc t Output :=
  λ c,
    match item with
    | None => (c, inl MissingItem)
    | Some item =>
        match item_lookup c !! raw_id item with
        | None => (c, inl (ItemNotFound "response.output_item.done" (raw_id item)))
        | Some found_item =>
            match raw_status item with
            | None => (c, inl (KeyError "status"))
            | Some st =>
                let found_item' := set_status st found_item in
                (set_item_lookup <[raw_id item := found_item']> c,
                 inr (Some found_item', None))
            end
        end
    end.

(** [_process_content_part_added] *)
Definition process_content_part_added (item_id : string) (part : Part)
    : Proc t Output :=
  λ c,
    match item_lookup c !! item_id with
    | None => (c, inl (ItemNotFound "response.content_part.added" item_id))
    | Some item =>
        match content item with
        | None => (c, inl (KeyError "content"))
        | Some parts =>
            let item' := set_content (parts ++ [part]) item in
            (set_item_lookup <[item_id := item']> c, inr (Some item', None))
        end
    end.

(** [_process_audio_transcript_delta] *)
Definition process_audio_transcript_delta
    (item_id : string) (content_index : Z) (delta : string) : Proc t Output :=
  λ c,
    match item_lookup c !! item_id with
    | None => (c, inl (ItemNotFound "response.audio_transcript.delta" item_id))
    | Some item =>
        match update_part content_index
                (λ p, match part_transcript p with
                      | None => inl (KeyError "transcript")
                      | Some old => inr (set_part_transcript (old +:+ delta) p)
                      end) item with
        | inl e => (c, inl e)
        | inr item1 =>
            let item2 :=
              set_formatted (λ f, set_transcript (transcript f +:+ delta) f) item1 in
            (set_item_lookup <[item_id := item2]> c,
             inr (Some item2, Some (DeltaTranscript delta)))
        end
    end.

(** [_process_audio_delta].  The base64 text of the delta is represented
    by what [base64_to_array_buffer(delta).tobytes()] makes of it: the
    decoded bytes, or [None] when decoding raises.  [audio += [chunk]]
    extends a list and is a [TypeError] on a [bytearray]. *)
Definition process_audio_delta
    (item_id : string) (content_index : Z) (delta : option bytes) : Proc t Output :=
  λ c,
    match item_lookup c !! item_id with
    | None => (c, inr (None, None))
    | Some item =>
        match delta with
        | None => (c, inl ValueError)
        | Some append_values =>
            match audio (formatted item) with
            | AudioBuffer _ => (c, inl TypeError)
            | AudioList chunks =>
                let item' :=
                  set_formatted
                    (set_audio (AudioList (chunks ++ [append_values]))) item in
                (set_item_lookup <[item_id := item']> c,
                 inr (Some item', Some (DeltaAudio append_values)))
            end
        end
    end.

(** [_process_text_delta] *)
Definition process_text_delta
    (item_id : string) (content_index : Z) (delta : string) : Proc t Output :=
  λ c,
    match item_lookup c !! item_id with
    | None => (c, inl (ItemNotFound "response.text.delta" item_id))
    | Some item =>
        match update_part content_index
                (λ p, match part_text p with
                      | None => inl (KeyError "text")
                      | Some old => inr (set_part_text (old +:+ delta) p)
                      end) item with
        | inl e => (c, inl e)
        | inr item1 =>
            let item2 := set_formatted (λ f, set_text (text f +:+ delta) f) item1 in
            (set_item_lookup <[item_id := item2]> c,
             inr (Some item2, Some (DeltaText delta)))
        end
    end.

(** [_process_function_call_arguments_delta]: the raw arguments are
    extended before the tool descriptor is looked at. *)
Definition process_function_call_arguments_delta
    (item_id : string) (delta : string) : Proc t Output :=
  λ c,
    match item_lookup c !! item_id with
    | None =>
        (c, inl (ItemNotFound "response.function_call_arguments.delta" item_id))
    | Some item =>
        match arguments item with
        | None => (c, inl (KeyError "arguments"))
        | Some a =>
            let item1 := set_arguments (a +:+ delta) item in
            match tool (formatted item1) with
            | None => (set_item_lookup <[item_id := item1]> c, inl (KeyError "tool"))
            | Some tl =>
                let tl' :=
                  mkTool (tool_type tl) (tool_name tl) (tool_call_id tl)
                         (tool_arguments tl +:+ delta) in
                let item2 := set_formatted (set_tool tl') item1 in
                (set_item_lookup <[item_id := item2]> c,
                 inr (Some item2, Some (DeltaArguments delta)))
            end
        end
    end.

(** *** Events and their dispatch *)

(** The events of the protocol, with the fields the processors read;
    [OtherEvent] is any type without an entry in [EventProcessors]. *)
Inductive Event : Type :=
  | ItemCreated (item : RawItem)
  | ItemTruncated (item_id : string) (audio_end_ms : Z)
  | ItemDeleted (item_id : string)
  | InputAudioTranscriptionCompleted
      (item_id : string) (content_index : Z) (transcript : string)
  | SpeechStarted (item_id : string) (audio_start_ms : Z)
  | SpeechStopped (item_id : string) (audio_end_ms : Z)
  | ResponseCreated (response : Response)
  | OutputItemAdded (response_id : string) (item : RawItem)
  | OutputItemDone (item : option RawItem)
  | ContentPartAdded (item_id : string) (part : Part)
  | AudioTranscriptDelta (item_id : string) (content_index : Z) (delta : string)
  | AudioDelta (item_id : string) (content_index : Z) (delta : option bytes)
  | TextDelta (item_id : string) (content_index : Z) (delta : string)
  | FunctionCallArgumentsDelta (item_id : string) (delta : string)
  | OtherEvent (type : string).

(** [event.type] *)
Definition event_type (e : Event) : string :=
  match e with
  | ItemCreated _ => "conversation.item.created"
  | ItemTruncated _ _ => "conversation.item.truncated"
  | ItemDeleted _ => "conversation.item.deleted"
  | InputAudioTranscriptionCompleted _ _ _ =>
      "conversation.item.input_audio_transcription.completed"
  | SpeechStarted _ _ => "input_audio_buffer.speech_started"
  | SpeechStopped _ _ => "input_audio_buffer.speech_stopped"
  | ResponseCreated _ => "response.created"
  | OutputItemAdded _ _ => "response.output_item.added"
  | OutputItemDone _ => "response.output_item.done"
  | ContentPartAdded _ _ => "response.content_part.added"
  | AudioTranscriptDelta _ _ _ => "response.audio_transcript.delta"
  | AudioDelta _ _ _ => "response.audio.delta"
  | TextDelta _ _ _ => "response.text.delta"
  | FunctionCallArgumentsDelta _ _ => "response.function_call_arguments.delta"
  | OtherEvent t => t
  end.

(** [process_event(event, *args)].  The entry of speech_stopped takes the
    input audio buffer as its one extra argument and every other entry
    takes none: a call with the wrong number is a [TypeError]. *)
Definition process_event (event : Event) (args : option bytes) : Proc t Output :=
  match event, args with
  | OtherEvent ty, _ => raise (MissingProcessor ty)
  | SpeechStopped i ms, Some input_audio_buffer =>
      process_speech_stopped i ms input_audio_buffer
  | SpeechStopped _ _, None => raise TypeError
  | _, Some _ => raise TypeError
  | ItemCreated item, None => process_item_created item
  | ItemTruncated i ms, None => process_item_truncated i ms
  | ItemDeleted i, None => process_item_deleted i
  | InputAudioTranscriptionCompleted i ci tr, None =>
      process_input_audio_transcription_completed i ci tr
  | SpeechStarted i ms, None => process_speech_started i ms
  | ResponseCreated r, None => process_response_created r
  | OutputItemAdded r item, None => process_output_item_added r item
  | OutputItemDone item, None => process_output_item_done item
  | ContentPartAdded i part, None => process_content_part_added i part
  | AudioTranscriptDelta i ci d, None => process_audio_transcript_delta i ci d
  | AudioDelta i ci d, None => process_audio_delta i ci d
  | TextDelta i ci d, None => process_text_delta i ci d
  | FunctionCallArgumentsDelta i d, None =>
      process_function_call_arguments_delta i d
  end.

(** The events of a stream, processed in arrival order by the receive
    loop; an exception raised by a processor ends the loop, the events
    after it are not processed. *)
Fixpoint process_events (events : list Event) : Proc t (list Output) :=
  match events with
  | [] => proc_ret []
  | e :: rest =>
      let* o := process_event e None in
      let* os := process_events rest in
      proc_ret (o :: os)
  end.

End Conversation.

(** ** Time and timers

    [time.time()] readings and timer intervals are exact numbers of clock
    ticks.  A [threading.Timer] is single-shot: it is created with an
    interval, started, and can be cancelled.  Every timer created is kept
    in a table; a handle is an index into it. *)

Record Timer : Type := mkTimer {
  interval : Z;
  started_at : Z;
  cancelled : bool }.

(** [Timer(interval, callback)] followed by [start()]: the new table and
    the handle of the timer. *)
Definition timer_start (i now : Z) (timers : list Timer) : list Timer * nat :=
  (timers ++ [mkTimer i now false], length timers).

(** [timer.cancel()] *)
Definition timer_cancel (h : nat) (timers : list Timer) : list Timer :=
  alter (λ t, mkTimer (interval t) (started_at t) true) h timers.

(** ** The stand-alone silence detector ([realtime/inactivitetimeout.py]) *)

Module SilenceDetector.

(** The attributes of [SilenceDetector]; [callbacks_run] and
    [coroutines_scheduled] count the calls of [on_timeout_callback] and the
    hand-offs of [on_timeout_coroutine] to the loop. *)
Record t : Type := mk {
  timeout_seconds : Z;
  on_timeout_callback : bool;
  on_timeout_coroutine : bool;
  loop : bool;
  silence_timer : option nat;
  last_activity_time : Z;
  is_active : bool;
  timers : list Timer;
  callbacks_run : nat;
  coroutines_scheduled : nat }.

(** [_schedule_timer()] *)
Definition schedule_timer (now : Z) (d : t) : t :=
  if is_active d then
    let '(ts, h) := timer_start (timeout_seconds d) now (timers d) in
    mk (timeout_seconds d) (on_timeout_callback d) (on_timeout_coroutine d)
       (loop d) (Some h) (last_activity_time d) (is_active d) ts
       (callbacks_run d) (coroutines_scheduled d)
  else d.

(** [start()] *)
Definition start (now : Z) (d : t) : t :=
  schedule_timer now
    (mk (timeout_seconds d) (on_timeout_callback d) (on_timeout_coroutine d)
        (loop d) (silence_timer d) now true (timers d)
        (callbacks_run d) (coroutines_scheduled d)).

(** [stop()] *)
Definition stop (d : t) : t :=
  match silence_timer d with
  | Some h =>
      mk (timeout_seconds d) (on_timeout_callback d) (on_timeout_coroutine d)
         (loop d) None (last_activity_time d) false (timer_cancel h (timers d))
         (callbacks_run d) (coroutines_scheduled d)
  | None =>
      mk (timeout_seconds d) (on_timeout_callback d) (on_timeout_coroutine d)
         (loop d) None (last_activity_time d) false (timers d)
         (callbacks_run d) (coroutines_scheduled d)
  end.

(** [reset()] *)
Definition reset (now : Z) (d : t) : t :=
  if is_active d then
    let ts :=
      match silence_timer d with
      | Some h => timer_cancel h (timers d)
      | None => timers d
      end in
    schedule_timer now
      (mk (timeout_seconds d) (on_timeout_callback d) (on_timeout_coroutine d)
          (loop d) (silence_timer d) now (is_active d) ts
          (callbacks_run d) (coroutines_scheduled d))
  else d.

(** [_handle_timeout()], the callback of the timers, run at time [now]. *)
Definition handle_timeout (now : Z) (d : t) : t :=
  let elapsed := now - last_activity_time d in
  if bool_decide (timeout_seconds d ≤ elapsed) && is_active d then
    mk (timeout_seconds d) (on_timeout_callback d) (on_timeout_coroutine d)
       (loop d) (silence_timer d) (last_activity_time d) (is_active d) (timers d)
       (if on_timeout_callback d then S (callbacks_run d) else callbacks_run d)
       (if on_timeout_coroutine d && loop d
        then S (coroutines_scheduled d) else coroutines_scheduled d)
  else
    let remaining := timeout_seconds d - elapsed in
    if decide (0 < remaining) then
      let '(ts, h) := timer_start remaining now (timers d) in
      mk (timeout_seconds d) (on_timeout_callback d) (on_timeout_coroutine d)
         (loop d) (Some h) (last_activity_time d) (is_active d) ts
         (callbacks_run d) (coroutines_scheduled d)
    else d.

End SilenceDetector.

(** ** The transport ([realtime/api.py]) *)

(** A tool definition: its name, if the key is present, and the rest of
    the dictionary. *)
Record ToolDefinition : Type := mkToolDefinition {
  def_name : option string;
  def_schema : string }.

Module API.

(** The item of a conversation.item.create request sent by the tool
    bridge. *)
Inductive OutItem : Type :=
  | FunctionCallOutput (call_id : string) (output : string).

(** The data sent along with an event name. *)
Inductive Data : Type :=
  | NoData
  | ItemData (item : OutItem)
  | TruncateData (item_id : string) (content_index : Z) (audio_end_ms : Z)
  | SessionData (tools : list ToolDefinition).

(** A frame written to the stream.  Its event_id is a time stamp and is
    left out. *)
Record Frame : Type := mkFrame {
  frame_type : string;
  frame_data : Data }.

(** [ws] is the open stream, if any; [transmitted] are the frames written
    with [ws.send], oldest first; [closed] are the streams on which
    [ws.close()] has been called, one entry per call. *)
Record t : Type := mk {
  ws : option nat;
  transmitted : list Frame;
  closed : list nat }.

(** [is_connected()] *)
Definition is_connected (a : t) : bool :=
  match ws a with Some _ => true | None => false end.

(** [ws.send(json.dumps(event))] *)
Definition ws_send (f : Frame) (a : t) : t :=
  mk (ws a) (transmitted a ++ [f]) (closed a).

(** [disconnect()] *)
Definition disconnect (a : t) : t :=
  match ws a with
  | Some w => mk None (transmitted a) (closed a ++ [w])
  | None => a
  end.

(** [connect()].  [opened] is what [websockets.connect] comes to: the new
    stream, or the exception that it (or the check of the address before
    it) raises.  The receive loop that [connect] schedules is
    [Client.receive], run once per frame. *)
Definition connect (opened : error + nat) : Proc t unit :=
  λ a,
    if is_connected a then (a, inl AlreadyConnected)
    else
      match opened with
      | inl e => (a, inl e)
      | inr w => (mk (Some w) (transmitted a) (closed a), inr tt)
      end.

End API.

(** ** The silence detection of the client ([realtime/client.py]) *)

Module Watchdog.

(** The event loop stored in [self.loop], as far as the watchdog looks at
    it: whether it is running, and whether [call_soon_threadsafe] raises. *)
Record Loop : Type := mkLoop {
  is_running : bool;
  call_soon_fails : bool }.

(** How a fired timeout handed the disconnect over: posted to the stored
    loop, or run on a new loop by the fallback. *)
Inductive Termination : Type := PostedToLoop | RanOnNewLoop.

(** The silence detection attributes of [RealtimeClient], the table of
    the timers it created, and the terminations it triggered, oldest
    first. *)
Record t : Type := mk {
  silence_timeout : Z;
  silence_timer : option nat;
  last_activity_time : Z;
  silence_detection_active : bool;
  timeout_triggered : bool;
  loop : option Loop;
  timers : list Timer;
  terminations : list Termination }.

(** [_schedule_silence_timer()] *)
Definition schedule_silence_timer (now : Z) (w : t) : t :=
  if silence_detection_active w && negb (timeout_triggered w) then
    let '(ts, h) := timer_start (silence_timeout w) now (timers w) in
    mk (silence_timeout w) (Some h) (last_activity_time w)
       (silence_detection_active w) (timeout_triggered w) (loop w) ts
       (terminations w)
  else w.

(** [_start_silence_detection()]; [current_loop] is what
    [asyncio.get_event_loop()] returns, [None] when it raises. *)
Definition start_silence_detection (now : Z) (current_loop : option Loop)
    (w : t) : t :=
  if silence_detection_active w then w
  else
    match current_loop with
    | None => w
    | Some l =>
        schedule_silence_timer now
          (mk (silence_timeout w) (silence_timer w) now true false (Some l)
              (timers w) (terminations w))
    end.

(** [_stop_silence_detection()] *)
Definition stop_silence_detection (w : t) : t :=
  match silence_timer w with
  | Some h =>
      mk (silence_timeout w) None (last_activity_time w) false
         (timeout_triggered w) (loop w) (timer_cancel h (timers w))
         (terminations w)
  | None =>
      mk (silence_timeout w) None (last_activity_time w) false
         (timeout_triggered w) (loop w) (timers w) (terminations w)
  end.

(** [_reset_silence_timer()] *)
Definition reset_silence_timer (now : Z) (w : t) : t :=
  if negb (silence_detection_active w) || timeout_triggered w then w
  else
    let ts :=
      match silence_timer w with
      | Some h => timer_cancel h (timers w)
      | None => timers w
      end in
    schedule_silence_timer now
      (mk (silence_timeout w) (silence_timer w) now
          (silence_detection_active w) (timeout_triggered w) (loop w) ts
          (terminations w)).

(** The hand-over at the end of [_handle_silence_timeout]. *)
Definition hand_over (l : option Loop) : list Termination :=
  match l with
  | Some lp =>
      if is_running lp
      then if call_soon_fails lp then [RanOnNewLoop] else [PostedToLoop]
      else []
  | None => []
  end.

(** [_handle_silence_timeout()], the callback of the timers, run at time
    [now]. *)
Definition handle_silence_timeout (now : Z) (w : t) : t :=
  if negb (silence_detection_active w) || timeout_triggered w then w
  else
    let elapsed := now - last_activity_time w in
    if decide (silence_timeout w ≤ elapsed) then
      let ts :=
        match silence_timer w with
        | Some h => timer_cancel h (timers w)
        | None => timers w
        end in
      mk (silence_timeout w) None (last_activity_time w) false true (loop w) ts
         (terminations w ++ hand_over (loop w))
    else w.

(** What can happen to the watchdog between two [session.created] events:
    a timer callback runs, activity resets the timer, a timer is scheduled,
    detection is stopped. *)
Inductive Op : Type :=
  | TimerCallback (now : Z)
  | Activity (now : Z)
  | Schedule (now : Z)
  | Stop.

Definition step (o : Op) (w : t) : t :=
  match o with
  | TimerCallback now => handle_silence_timeout now w
  | Activity now => reset_silence_timer now w
  | Schedule now => schedule_silence_timer now w
  | Stop => stop_silence_detection w
  end.

Definition run (ops : list Op) (w : t) : t := foldl (λ w o, step o w) w ops.

(** [self.loop = ...] *)
Definition set_loop (l : option Loop) (w : t) : t :=
  mk (silence_timeout w) (silence_timer w) (last_activity_time w)
     (silence_detection_active w) (timeout_triggered w) l (timers w)
     (terminations w).

(** [self.timeout_triggered = False], at the end of [connect]. *)
Definition clear_latch (w : t) : t :=
  mk (silence_timeout w) (silence_timer w) (last_activity_time w)
     (silence_detection_active w) false (loop w) (timers w) (terminations w).

(** The silence detection attributes after [__init__]. *)
Definition init (silence_timeout now : Z) : t :=
  mk silence_timeout None now false false None [] [].

(** The ways the rest of the client and the timer threads get at the
    watchdog: [_schedule_silence_timer] is only called by the start and
    by the reset. *)
Inductive Call : Type :=
  | CallStart (now : Z) (current_loop : option Loop)
  | CallStop
  | CallReset (now : Z)
  | CallTimer (now : Z)
  | CallClearLatch.

Definition call (k : Call) (w : t) : t :=
  match k with
  | CallStart now l => start_silence_detection now l w
  | CallStop => stop_silence_detection w
  | CallReset now => reset_silence_timer now w
  | CallTimer now => handle_silence_timeout now w
  | CallClearLatch => clear_latch w
  end.

Definition run_calls (ks : list Call) (w : t) : t :=
  foldl (λ w k, call k w) w ks.

End Watchdog.

(** ** JSON and floating point at the edge of the client *)

(** The JSON codec and the Python values it works on.  [loads] and
    [dumps] raise on text that is not JSON and on a value that cannot be
    serialised; [dumps_error m] is the text of the dictionary with the
    single key error and the value [m], which always serialises. *)
Class Json : Type := {
  value : Type;
  loads : string → error + value;
  dumps : value → error + string;
  dumps_error : string → string }.

(** [float(n)] for the operands of a true division. *)
Definition float_of_int (n : Z) : spec_float :=
  match n with
  | Z0 => S754_zero false
  | Zpos p => S754_finite false p 0
  | Zneg p => S754_finite true p 0
  end.

(** [int(x)] on a float: truncation towards zero. *)
Definition int_of_float (x : spec_float) : error + Z :=
  match x with
  | S754_zero _ => inr 0
  | S754_finite s m e =>
      let a := if decide (0 ≤ e) then Z.shiftl (Zpos m) e
               else Z.shiftr (Zpos m) (- e) in
      inr (if s then - a else a)
  | S754_infinity _ => inl OverflowError
  | S754_nan => inl ValueError
  end.

(** [int((sample_count / default_frequency) * 1000)] in binary64. *)
Definition samples_to_ms (sample_count : Z) : error + Z :=
  match SFdiv 53 1024 (float_of_int sample_count)
          (float_of_int Conversation.default_frequency) with
  | S754_infinity _ => inl OverflowError
  | q => int_of_float (SFmul 53 1024 q (float_of_int 1000))
  end.

(** A Python dictionary with string keys keeps its insertion order. *)
Fixpoint dict_get {V} (k : string) (d : list (string * V)) : option V :=
  match d with
  | [] => None
  | (k', v) :: d' => if decide (k = k') then Some v else dict_get k d'
  end.

(** [d[k] = v]: a present key keeps its place, a new key goes last. *)
Fixpoint dict_set {V} (k : string) (v : V) (d : list (string * V))
    : list (string * V) :=
  match d with
  | [] => [(k, v)]
  | (k', v') :: d' =>
      if decide (k = k') then (k', v) :: d' else (k', v') :: dict_set k v d'
  end.

(** [del d[k]]: no entry for [k] is left. *)
Fixpoint dict_del {V} (k : string) (d : list (string * V)) : list (string * V) :=
  match d with
  | [] => []
  | (k', v') :: d' =>
      if decide (k = k') then dict_del k d' else (k', v') :: dict_del k d'
  end.

(** An exception raised by library code, inside the client's monad. *)
Definition lift {S A} (r : error + A) : Proc S A :=
  match r with inl e => raise e | inr a => proc_ret a end.

(** ** The session controller and the tool bridge ([realtime/client.py]) *)

Module Client.

Section WithJson.

Context {J : Json}.

(** What awaiting the handler, called with the decoded arguments as
    keywords, comes to: it raises or it returns a value.  Handlers do not touch the client. *)
Definition Handler : Type := value → error + value.

(** The object given to [add_tool] as handler. *)
Inductive PyObject : Type :=
  | Callable (h : Handler)
  | NotCallable.

(** An entry of [self.tools]. *)
Record ToolConfig : Type := mkToolConfig {
  definition : ToolDefinition;
  handler : Handler }.

(** The attributes of [RealtimeClient] that the modelled methods use.
    [turn_detection_type] is what [get_turn_detection_type()] returns;
    [end_call_check_task] tells whether the task exists; [notifications]
    are the names of the events dispatched to the client's own
    subscribers, oldest first.  The subscribers themselves are code of the
    caller and are not run. *)
Record t : Type := mk {
  realtime : API.t;
  conversation : Conversation.t;
  tools : list (string * ToolConfig);
  session_created : bool;
  turn_detection_type : option string;
  input_audio_buffer : bytes;
  watchdog : Watchdog.t;
  end_call_check_task : bool;
  notifications : list string }.

Definition set_realtime (f : API.t → API.t) (c : t) : t :=
  mk (f (realtime c)) (conversation c) (tools c) (session_created c)
     (turn_detection_type c) (input_audio_buffer c) (watchdog c)
     (end_call_check_task c) (notifications c).
Definition set_conversation (cv : Conversation.t) (c : t) : t :=
  mk (realtime c) cv (tools c) (session_created c)
     (turn_detection_type c) (input_audio_buffer c) (watchdog c)
     (end_call_check_task c) (notifications c).
Definition set_tools
    (f : list (string * ToolConfig) → list (string * ToolConfig)) (c : t) : t :=
  mk (realtime c) (conversation c) (f (tools c)) (session_created c)
     (turn_detection_type c) (input_audio_buffer c) (watchdog c)
     (end_call_check_task c) (notifications c).
Definition set_session_created (b : bool) (c : t) : t :=
  mk (realtime c) (conversation c) (tools c) b
     (turn_detection_type c) (input_audio_buffer c) (watchdog c)
     (end_call_check_task c) (notifications c).
Definition set_input_audio_buffer (b : bytes) (c : t) : t :=
  mk (realtime c) (conversation c) (tools c) (session_created c)
     (turn_detection_type c) b (watchdog c)
     (end_call_check_task c) (notifications c).
Definition set_watchdog (f : Watchdog.t → Watchdog.t) (c : t) : t :=
  mk (realtime c) (conversation c) (tools c) (session_created c)
     (turn_detection_type c) (input_audio_buffer c) (f (watchdog c))
     (end_call_check_task c) (notifications c).
Definition set_end_call_check_task (b : bool) (c : t) : t :=
  mk (realtime c) (conversation c) (tools c) (session_created c)
     (turn_detection_type c) (input_audio_buffer c) (watchdog c)
     b (notifications c).

(** [self.dispatch(event_name, ...)] on the client's own bus. *)
Definition dispatch (event_name : string) (c : t) : t :=
  mk (realtime c) (conversation c) (tools c) (session_created c)
     (turn_detection_type c) (input_audio_buffer c) (watchdog c)
     (end_call_check_task c) (notifications c ++ [event_name]).

(** [is_connected()] *)
Definition is_connected (c : t) : bool := API.is_connected (realtime c).

(** [_reset_silence_timer()] *)
Definition reset_silence_timer (now : Z) : Proc t unit :=
  modify (set_watchdog (Watchdog.reset_silence_timer now)).

(** [_log_event(event)] *)
Definition log_event (now : Z) : Proc t unit :=
  modify (dispatch "realtime.event") >> reset_silence_timer now.

(** [self.realtime.send(event_name, data)].  Of the handlers that
    [_add_api_event_handlers] registers on the transport, the one that
    hears an outbound frame is [_log_event], subscribed to every client
    event; it runs before the frame is written. *)
Definition realtime_send (now : Z) (event_name : string) (data : API.Data)
    : Proc t unit :=
  let* c := get in
  if is_connected c then
    log_event now >>
    modify (set_realtime (API.ws_send (API.mkFrame event_name data)))
  else raise NotConnected.

(** A method of the conversation, run on [self.conversation]. *)
Definition on_conversation {A} (m : Proc Conversation.t A) : Proc t A :=
  λ c, let '(cv, r) := m (conversation c) in (set_conversation cv c, r).

(** [_process_event(event, *args)] *)
Definition process_event (now : Z) (event : Conversation.Event)
    (args : option bytes) : Proc t Conversation.Output :=
  reset_silence_timer now >>
  let* r := on_conversation (Conversation.process_event event args) in
  match r.1 with
  | Some _ => modify (dispatch "conversation.updated") >> proc_ret r
  | None => proc_ret r
  end.

(** [create_response()] *)
Definition create_response (now : Z) : Proc t unit :=
  reset_silence_timer now >>
  let* c := get in
  match turn_detection_type c, input_audio_buffer c with
  | None, _ :: _ =>
      realtime_send now "input_audio_buffer.commit" API.NoData >>
      modify (λ c, set_conversation
                     (Conversation.queue_input_audio (input_audio_buffer c)
                        (conversation c)) c) >>
      modify (set_input_audio_buffer [])
  | _, _ => proc_ret tt
  end >>
  realtime_send now "response.create" API.NoData.

(** The request that answers a function call. *)
Definition function_call_output (call_id output : string) : API.Data :=
  API.ItemData (API.FunctionCallOutput call_id output).

(** [_call_tool(tool)].  The awaits are run to completion one after the
    other; nothing else touches the client in between. *)
Definition call_tool (now : Z) (tool : Conversation.Tool) : Proc t unit :=
  try_except
    (let* json_arguments := lift (loads (Conversation.tool_arguments tool)) in
     let* c := get in
     let* tool_config :=
       match dict_get (Conversation.tool_name tool) (tools c) with
       | Some tc => proc_ret tc
       | None => raise (ToolNotAdded (Conversation.tool_name tool))
       end in
     let* result := lift (handler tool_config json_arguments) in
     let* output := lift (dumps result) in
     realtime_send now "conversation.item.create"
       (function_call_output (Conversation.tool_call_id tool) output))
    (λ e,
       realtime_send now "conversation.item.create"
         (function_call_output (Conversation.tool_call_id tool)
            (dumps_error (error_message e)))) >>
  create_response now >>
  reset_silence_timer now.

(** [_on_output_item_done(event)] *)
Definition on_output_item_done (now : Z) (event : Conversation.Event)
    : Proc t unit :=
  let* r := process_event now event None in
  match r.1 with
  | Some item =>
      (if decide (Conversation.status item = Some "completed")
       then modify (dispatch "conversation.item.completed")
       else proc_ret tt) >>
      match Conversation.tool (Conversation.formatted item) with
      | Some tool => call_tool now tool
      | None => proc_ret tt
      end
  | None => proc_ret tt
  end >>
  reset_silence_timer now.

(** [disconnect()] *)
Definition disconnect (c : t) : t :=
  let c1 := set_watchdog Watchdog.stop_silence_detection c in
  let c2 := set_end_call_check_task false c1 in
  let c3 := set_session_created false c2 in
  let c4 := set_conversation Conversation.clear c3 in
  if API.is_connected (realtime c4)
  then set_realtime API.disconnect c4
  else c4.

(** [_handle_silence_disconnect()], the coroutine that a fired timeout
    hands over. *)
Definition handle_silence_disconnect (c : t) : t :=
  let c1 := dispatch "conversation.timeout" c in
  let c2 := if is_connected c1 then disconnect c1 else c1 in
  let c3 := set_conversation Conversation.clear (set_session_created false c2) in
  if API.is_connected (realtime c3)
  then set_realtime API.disconnect c3
  else c3.

(** [update_session()], called without keyword arguments; the session
    configuration itself has no tools of its own. *)
Definition update_session (now : Z) : Proc t unit :=
  let* c := get in
  if API.is_connected (realtime c) then
    realtime_send now "session.update"
      (API.SessionData (map (λ kv, definition kv.2) (tools c)))
  else proc_ret tt.

(** [add_tool(definition, handler)] *)
Definition add_tool (now : Z) (d : ToolDefinition) (h : PyObject)
    : Proc t ToolConfig :=
  match def_name d with
  | None | Some EmptyString => raise MissingToolName
  | Some name =>
      let* c := get in
      match dict_get name (tools c) with
      | Some _ => raise (ToolAlreadyAdded name)
      | None =>
          match h with
          | NotCallable => raise (HandlerNotCallable name)
          | Callable f =>
              modify (set_tools (dict_set name (mkToolConfig d f))) >>
              update_session now >>
              proc_ret (mkToolConfig d f)
          end
      end
  end.

(** [remove_tool(name)] *)
Definition remove_tool (name : string) : Proc t unit :=
  let* c := get in
  match dict_get name (tools c) with
  | None => raise (ToolDoesNotExist name)
  | Some _ => modify (set_tools (dict_del name))
  end.

(** [next((i for i, c in enumerate(content) if c.type == audio), -1)] *)
Fixpoint audio_index (parts : list Conversation.Part) (i : Z) : Z :=
  match parts with
  | [] => -1
  | p :: rest =>
      if decide (Conversation.part_type p = "audio") then i
      else audio_index rest (i + 1)
  end.

(** [cancel_response(id, sample_count)]; a missing id and an empty id are
    both false. *)
Definition cancel_response (now : Z) (id : option string) (sample_count : Z)
    : Proc t (option Conversation.Item) :=
  reset_silence_timer now >>
  match id with
  | None | Some EmptyString =>
      realtime_send now "response.cancel" API.NoData >> proc_ret None
  | Some id =>
      let* c := get in
      match Conversation.get_item (conversation c) id with
      | None => raise (CancelItemNotFound id)
      | Some item =>
          if decide (Conversation.type item ≠ "message") then
            raise CancelNotMessage
          else
            let* role := require "role" (Conversation.role item) in
            if decide (role ≠ "assistant") then raise CancelNotAssistant
            else
              realtime_send now "response.cancel" API.NoData >>
              let* parts := require "content" (Conversation.content item) in
              let i := audio_index parts 0 in
              if decide (i = -1) then raise CancelNoAudio
              else
                let* ms := lift (samples_to_ms sample_count) in
                realtime_send now "conversation.item.truncate"
                  (API.TruncateData id i ms) >>
                proc_ret (Some item)
      end
  end.

(** A method of the transport, run on [self.realtime]. *)
Definition on_realtime {A} (m : Proc API.t A) : Proc t A :=
  λ c, let '(a, r) := m (realtime c) in (set_realtime (λ _, a) c, r).

(** [_reset_config()]; the default session configuration asks for the
    server's voice activity detection. *)
Definition reset_config (c : t) : t :=
  mk (realtime c) (conversation c) [] false (Some "server_vad") []
     (watchdog c) (end_call_check_task c) (notifications c).

(** [reset()].  It is a plain method and calls [self.disconnect()]
    without awaiting it: the coroutine object is made and dropped, its
    body does not run.  The handlers of the transport are cleared and
    registered anew, which gives the same handlers. *)
Definition reset (c : t) : t :=
  let c1 := set_watchdog Watchdog.stop_silence_detection c in
  let c2 := set_end_call_check_task false c1 in
  reset_config c2.

(** [connect()].  [current_loop] is what [asyncio.get_event_loop()]
    returns, [None] when it raises and a new loop is made; [opened] is the
    outcome of opening the stream. *)
Definition connect (now : Z) (current_loop : option Watchdog.Loop)
    (opened : error + nat) : Proc t unit :=
  let* c := get in
  if is_connected c then
    raise (Raised "Already connected, use .disconnect() first")
  else
    modify (set_watchdog
              (Watchdog.set_loop
                 (Some (default (Watchdog.mkLoop false false) current_loop)))) >>
    on_realtime (API.connect opened) >>
    update_session now >>
    modify (set_watchdog Watchdog.clear_latch).

(** [_handle_end_call_disconnect()] *)
Definition handle_end_call_disconnect (c : t) : t :=
  let c1 := set_watchdog Watchdog.stop_silence_detection c in
  let c2 := dispatch "conversation.ended" c1 in
  if is_connected c2 then
    set_realtime API.disconnect
      (set_conversation Conversation.clear (set_session_created false c2))
  else c2.

(** [_on_session_created(event)].  The two coroutines it hands to the
    loop, the polling of the end-of-call flag and the greeting, are tasks
    of their own and are not run here; [end_call_check_task] records that
    the first was made. *)
Definition on_session_created (now : Z) (current_loop : option Watchdog.Loop)
    (c : t) : t :=
  let c1 := set_session_created true c in
  let c2 := set_watchdog (Watchdog.start_silence_detection now current_loop) c1 in
  match Watchdog.loop (watchdog c2) with
  | Some _ => set_end_call_check_task true c2
  | None => c2
  end.

(** [_on_speech_started(event)] *)
Definition on_speech_started (now : Z) (event : Conversation.Event)
    : Proc t unit :=
  process_event now event None >>
  modify (dispatch "conversation.interrupted") >>
  reset_silence_timer now.

(** [_on_speech_stopped(event)] *)
Definition on_speech_stopped (now : Z) (event : Conversation.Event)
    : Proc t unit :=
  let* c := get in
  process_event now event (Some (input_audio_buffer c)) >>
  reset_silence_timer now.

(** [_on_item_created(event)] *)
Definition on_item_created (now : Z) (event : Conversation.Event)
    : Proc t unit :=
  let* r := process_event now event None in
  modify (dispatch "conversation.item.appended") >>
  match r.1 with
  | Some item =>
      let* st := require "status" (Conversation.status item) in
      if decide (st = "completed")
      then modify (dispatch "conversation.item.completed")
      else proc_ret tt
  | None => proc_ret tt
  end >>
  reset_silence_timer now.

(** One turn of the receive loop for a frame that arrived: the handler
    that [_add_api_event_handlers] registers for the type of the event, if
    any, then [_log_event], which hears every server event.  An exception
    of the handler leaves the loop before [_log_event].  The handler of
    output_item.done is a coroutine: the dispatch only makes a task of
    it, [on_output_item_done], which runs at a later time. *)
Definition receive (now : Z) (current_loop : option Watchdog.Loop)
    (event : Conversation.Event) : Proc t unit :=
  match event with
  | Conversation.OtherEvent ty =>
      if decide (ty = "session.created")
      then modify (on_session_created now current_loop)
      else proc_ret tt
  | Conversation.SpeechStarted _ _ => on_speech_started now event
  | Conversation.SpeechStopped _ _ => on_speech_stopped now event
  | Conversation.ItemCreated _ => on_item_created now event
  | Conversation.OutputItemDone _ => proc_ret tt
  | _ => process_event now event None >> proc_ret tt
  end >>
  log_event now.

(** The ways a session is terminated. *)
Inductive Termination : Type :=
  | ByDisconnect
  | BySilence
  | ByEndCall.

Definition terminate (p : Termination) (c : t) : t :=
  match p with
  | ByDisconnect => disconnect c
  | BySilence => handle_silence_disconnect c
  | ByEndCall => handle_end_call_disconnect c
  end.

End WithJson.

End Client.

(** ** Notions used to state the properties *)

(** The millisecond equivalent of a sample count at the sample rate of
    the store, in whole milliseconds: the number the truncation is meant
    to carry, computed exactly. *)
Definition millisecond_equivalent (sample_count : Z) : Z :=
  sample_count * 1000 / Conversation.default_frequency.

Module Notions.

Import Conversation.

(** A processor run fails with an error of the not-found group and leaves
    the store as it was. *)
Definition fails_not_found (c : t) (r : t * (error + Output)) : Prop :=
  ∃ e, r = (c, inl e) ∧ classify e = NotFound.

(** The in-order concatenation of the delta strings. *)
Definition concat_deltas (ds : list (Z * string)) : string :=
  foldr (λ d acc, d.2 +:+ acc) EmptyString ds.

(** [item.content[ci]] exists and has a text (a transcript). *)
Definition has_text_part (item : Item) (ci : Z) : Prop :=
  ∃ parts k p, content item = Some parts ∧ py_index parts ci = Some k
               ∧ parts !! k = Some p ∧ is_Some (part_text p).
Definition has_transcript_part (item : Item) (ci : Z) : Prop :=
  ∃ parts k p, content item = Some parts ∧ py_index parts ci = Some k
               ∧ parts !! k = Some p ∧ is_Some (part_transcript p).

(** The delta events for one item, from (content index, delta) pairs. *)
Definition text_deltas (i : string) (ds : list (Z * string)) : list Event :=
  map (λ d, TextDelta i d.1 d.2) ds.
Definition transcript_deltas (i : string) (ds : list (Z * string)) : list Event :=
  map (λ d, AudioTranscriptDelta i d.1 d.2) ds.

(** Lines 67-95 of item creation leave the items alone. *)
Definition untouched {A} (m : Proc Local A) : Prop :=
  ∀ s, item_lookup (m s).1.2 = item_lookup s.2 ∧ items (m s).1.2 = items s.2.

End Notions.

(** Notions about the client. *)
Module ClientNotions.

Section WithJson.

Context {J : Json}.

Import Client.

(** The state after a frame went out on a connected client: the send was
    announced to the subscribers, the silence timer was reset, the frame
    was written. *)
Definition sent (now : Z) (f : API.Frame) (c : t) : t :=
  set_realtime (API.ws_send f)
    (set_watchdog (Watchdog.reset_silence_timer now)
       (dispatch "realtime.event" c)).

(** The frames on the wire. *)
Definition wire (c : t) : list API.Frame := API.transmitted (realtime c).

Definition cancel_frame : API.Frame := API.mkFrame "response.cancel" API.NoData.
Definition response_create_frame : API.Frame :=
  API.mkFrame "response.create" API.NoData.
Definition output_frame (call_id output : string) : API.Frame :=
  API.mkFrame "conversation.item.create" (function_call_output call_id output).

(** The commit that [create_response] sends first when turn taking is up
    to the caller and input audio is buffered. *)
Definition commit_frames (c : t) : list API.Frame :=
  match turn_detection_type c, input_audio_buffer c with
  | None, _ :: _ => [API.mkFrame "input_audio_buffer.commit" API.NoData]
  | _, _ => []
  end.

(** What the try block of [_call_tool] comes to before anything is sent:
    the serialised result, or the exception that ends the block. *)
Definition tool_result (c : t) (tool : Conversation.Tool) : error + string :=
  match loads (Conversation.tool_arguments tool) with
  | inl e => inl e
  | inr json_arguments =>
      match dict_get (Conversation.tool_name tool) (tools c) with
      | None => inl (ToolNotAdded (Conversation.tool_name tool))
      | Some tc =>
          match handler tc json_arguments with
          | inl e => inl e
          | inr result => dumps result
          end
      end
  end.

(** The output that answers the call: the result, or the error payload. *)
Definition answer (c : t) (tool : Conversation.Tool) : string :=
  match tool_result c tool with
  | inr output => output
  | inl e => dumps_error (error_message e)
  end.




End WithJson.

End ClientNotions.

(** Values on which the properties are tried. *)
Module Samples.

Import Conversation.

Definition assistant_message (parts : list Part) : RawItem :=
  mkRawItem "a1" "message" (Some "assistant") None (Some parts)
            None None None None.

Definition text_part : Part := mkPart "text" (Some EmptyString) None.
Definition audio_part : Part := mkPart "audio" None (Some EmptyString).

(** One delta of 32 bytes of audio. *)
Definition chunk32 : bytes := replicate 32 Byte.x00.

(** A store holding one assistant message with a text and an audio part. *)
Definition one_message : t :=
  (process_events
     [ItemCreated (assistant_message []);
      ContentPartAdded "a1" text_part;
      ContentPartAdded "a1" audio_part] clear).1.

(** A store whose assistant message received one audio delta. *)
Definition one_chunk : t :=
  (process_events
     [ItemCreated (assistant_message []);
      AudioDelta "a1" 0 (Some chunk32)] clear).1.

(** The assistant message of [one_message], as stored. *)
Definition stored_message : Item :=
  default (copy_item (assistant_message [])) (item_lookup one_message !! "a1").

(** A client watchdog and a stand-alone detector with a timeout of 30,
    whose last activity was stamped at 20 and whose timer was started
    then. *)
Definition raced_watchdog : Watchdog.t :=
  Watchdog.mk 30 (Some 0%nat) 20 true false (Some (Watchdog.mkLoop true false))
              [mkTimer 30 20 false] [].
Definition raced_detector : SilenceDetector.t :=
  SilenceDetector.mk 30 true false false (Some 0%nat) 20 true
                     [mkTimer 30 20 false] 0 0.

(** A store whose assistant message has a text part and no audio part. *)
Definition text_only : t :=
  (process_events [ItemCreated (assistant_message [text_part])] clear).1.

(** A store whose function call item has received its arguments. *)
Definition function_call : RawItem :=
  mkRawItem "f1" "function_call" None None None (Some "x") (Some "call_1")
            (Some EmptyString) None.


(** A codec over strings: the empty text does not parse, every value
    serialises as itself. *)
Definition sample_json : Json :=
  {| value := string;
     loads := λ s, match s with
                   | EmptyString => inl (Raised "Expecting value")
                   | _ => inr s
                   end;
     dumps := inr;
     dumps_error := λ m, "error: " +:+ m |}.

(** A handler that returns and one that raises. *)
Definition ok_handler : @Client.Handler sample_json := λ _, inr "ok".
Definition failing_handler : @Client.Handler sample_json :=
  λ _, inl (Raised "boom").

Definition x_definition : ToolDefinition := mkToolDefinition (Some "x") "schema".

(** A connected client around a store, with the tool x registered. *)
Definition client (h : @Client.Handler sample_json) (cv : t)
    : @Client.t sample_json :=
  Client.mk (API.mk (Some 1%nat) [] []) cv
            [("x", Client.mkToolConfig x_definition h)]
            true (Some "server_vad") [] raced_watchdog true [].

(** The same client before it connects. *)
Definition offline_client : @Client.t sample_json :=
  Client.mk (API.mk None [] []) clear
            [("x", Client.mkToolConfig x_definition ok_handler)]
            false (Some "server_vad") [] raced_watchdog false [].

(** A user message made of speech, and a store that holds a stopped
    speech segment and a transcript for it. *)
Definition spoken_message : RawItem :=
  mkRawItem "u1" "message" (Some "user") None (Some []) None None None None.
Definition heard_segment : Speech := mkSpeech 0 (Some 2) (Some chunk32).
Definition queued_for_u1 : t :=
  mk ∅ [] ∅ [] {["u1" := heard_segment]} {["u1" := "hello"]} None.

(** A connected client whose turns are up to the caller, with 32 bytes of
    input audio buffered and no tool. *)
Definition manual_client : @Client.t sample_json :=
  Client.mk (API.mk (Some 1%nat) [] []) clear [] true None chunk32
            raced_watchdog true [].

End Samples.

(** Further notions about the store. *)
Module StoreNotions.

Import Conversation.

(** The store is well formed: the ordered list names each stored item
    once, it names the stored items and no others, and every item is
    stored under its own id. *)
Definition wf (c : t) : Prop :=
  NoDup (items c)
  ∧ (∀ i, i ∈ items c ↔ is_Some (item_lookup c !! i))
  ∧ (∀ i it, item_lookup c !! i = Some it → id it = i).

(** The item an event is addressed to, if it is addressed to one. *)
Definition addressed (e : Event) : option string :=
  match e with
  | ItemCreated raw => Some (raw_id raw)
  | ItemTruncated i _ | ItemDeleted i
  | InputAudioTranscriptionCompleted i _ _
  | ContentPartAdded i _ | AudioTranscriptDelta i _ _ | AudioDelta i _ _
  | TextDelta i _ _ | FunctionCallArgumentsDelta i _ => Some i
  | OutputItemDone (Some raw) => Some (raw_id raw)
  | _ => None
  end.

(** What processing event [e] can do to the items, from store [c] to
    store [c']: nothing; replace the addressed item by one of the same id,
    type and role, and of the same status unless the event is
    output_item.done; register a new item at the end of the list; or
    unregister an item. *)
Inductive Change (e : Event) (c c' : t) : Prop :=
  | Unchanged :
      item_lookup c' = item_lookup c → items c' = items c → Change e c c'
  | Updated (i : string) (it it' : Item) :
      addressed e = Some i →
      item_lookup c !! i = Some it →
      item_lookup c' = <[i := it']> (item_lookup c) →
      items c' = items c →
      id it' = id it → type it' = type it → role it' = role it →
      (status it' = status it ∨ ∃ r, e = OutputItemDone r) →
      Change e c c'
  | Created (raw : RawItem) (it' : Item) :
      e = ItemCreated raw →
      item_lookup c !! raw_id raw = None →
      item_lookup c' = <[raw_id raw := it']> (item_lookup c) →
      items c' = items c ++ [raw_id raw] →
      id it' = raw_id raw → type it' = raw_type raw →
      Change e c c'
  | Deleted (i : string) (it : Item) :
      e = ItemDeleted i →
      item_lookup c !! i = Some it →
      item_lookup c' = delete (id it) (item_lookup c) →
      items c' = default (items c) (list_remove (id it) (items c)) →
      Change e c c'.

(** A relation between the local state before and after a step of item
    creation holds for every run of computation [m]. *)
Definition stable {A} (R : Local → Local → Prop) (m : Proc Local A) : Prop :=
  ∀ s, R s (m s).1.

(** The local item keeps its id and its type. *)
Definition same_identity (s s' : Local) : Prop :=
  id s'.1 = id s.1 ∧ type s'.1 = type s.1.

(** The events that carry the deltas of the arguments of a function call,
    and those that carry audio. *)
Definition arguments_deltas (i : string) (ds : list string) : list Event :=
  map (FunctionCallArgumentsDelta i) ds.
Definition audio_deltas (i : string) (ds : list bytes) : list Event :=
  map (λ d, AudioDelta i 0 (Some d)) ds.

(** The concatenation of strings. *)
Definition concat_strings (ds : list string) : string :=
  foldr String.append EmptyString ds.

(** The events that add item ids to the output of a response. *)
Definition output_items_added (r : string) (raws : list RawItem) : list Event :=
  map (OutputItemAdded r) raws.

(** The first audio is an initial part of the second, in the same kind of
    container. *)
Definition audio_prefix (a b : Audio) : Prop :=
  match a, b with
  | AudioList x, AudioList y => x `prefix_of` y
  | AudioBuffer x, AudioBuffer y => x `prefix_of` y
  | _, _ => False
  end.

(** No part of the content is a text part. *)
Definition no_text_part (parts : list Part) : Prop :=
  Forall (λ p, part_type p ∉ ["text"; "input_text"]) parts.

End StoreNotions.

(** Further notions about the watchdog and the client. *)
Module SessionNotions.

(** The timers of the watchdog are tidy: a timer that was started and not
    cancelled is the one the watchdog holds, and the watchdog holds none
    while detection is inactive. *)
Definition tidy (w : Watchdog.t) : Prop :=
  (∀ k t, Watchdog.timers w !! k = Some t → cancelled t = false →
          Watchdog.silence_timer w = Some k)
  ∧ (Watchdog.silence_detection_active w = false →
     Watchdog.silence_timer w = None).

(** The watchdog is armed at [now]: detection is active and not
    triggered, the last activity is stamped [now], and the timer held was
    started at [now] for the whole timeout and is not cancelled. *)
Definition armed_at (now : Z) (w : Watchdog.t) : Prop :=
  Watchdog.silence_detection_active w = true
  ∧ Watchdog.timeout_triggered w = false
  ∧ Watchdog.last_activity_time w = now
  ∧ ∃ h, Watchdog.silence_timer w = Some h
         ∧ Watchdog.timers w !! h
           = Some (mkTimer (Watchdog.silence_timeout w) now false).

(** Detection is on and has not fired. *)
Definition watching (w : Watchdog.t) : Prop :=
  Watchdog.silence_detection_active w = true
  ∧ Watchdog.timeout_triggered w = false.

End SessionNotions.

(** Notions about what a method of the client does to the watchdog. *)
Module ReceiveNotions.

Section WithJson.

Context {J : Json}.

Import Client SessionNotions.

(** The method leaves a watchdog that is armed at [now] armed at [now]. *)
Definition keeps_armed {A} (now : Z) (m : Proc t A) : Prop :=
  ∀ c, armed_at now (watchdog c) → armed_at now (watchdog (m c).1).

(** The method arms at [now] a watchdog that is watching, whether it
    returns or raises. *)
Definition arms {A} (now : Z) (m : Proc t A) : Prop :=
  ∀ c, watching (watchdog c) → armed_at now (watchdog (m c).1).

(** The method does not touch the watchdog and does not raise. *)
Definition inert {A} (m : Proc t A) : Prop :=
  ∀ c, watchdog (m c).1 = watchdog c ∧ ∃ a, (m c).2 = inr a.

End WithJson.

End ReceiveNotions.

(** ** Properties of the conversation store *)

Section ConversationStore.

Import Conversation Notions.

Lemma append_assoc (a b c : string) : (a +:+ b) +:+ c = a +:+ (b +:+ c).
Proof.
  induction a as [|x a IH]; [reflexivity | exact (f_equal (String x) IH)].
Qed.

Lemma append_empty_r (a : string) : a +:+ EmptyString = a.
Proof.
  induction a as [|x a IH]; [reflexivity | exact (f_equal (String x) IH)].
Qed.

(** *** Slices *)

Lemma py_slice_to_length {A} (l : list A) (stop : Z) :
  0 ≤ stop →
  length (py_slice l None (Some stop)) = Z.to_nat (Z.min (Z.of_nat (length l)) stop).
Proof.
  intros Hs. unfold py_slice, py_clamp. simpl.
  destruct (decide (stop < 0)) as [?|_]; [lia|].
  rewrite drop_0, length_take. lia.
Qed.

(** *** Truncation *)

Lemma truncated_absent (c : t) (i : string) (ms : Z) :
  item_lookup c !! i = None →
  process_item_truncated i ms c = (c, inl (ItemNotFound "item.truncated" i)).
Proof. intros H. unfold process_item_truncated. by rewrite H. Qed.

Lemma truncated_present (c : t) (i : string) (ms : Z) (item : Item) :
  item_lookup c !! i = Some item →
  ∃ item',
    process_item_truncated i ms c
      = (set_item_lookup <[i := item']> c, inr (Some item', None))
    ∧ transcript (formatted item') = EmptyString
    ∧ audio (formatted item')
      = audio_slice_to (audio (formatted item))
          ((ms * default_frequency) `div` 1000).
Proof.
  intros H. unfold process_item_truncated. rewrite H. eexists. split; [done|].
  by simpl.
Qed.

(** On an audio held as one byte buffer, truncation at [ms >= 0] leaves
    the smaller of the length and of the end index, in bytes. *)
Lemma truncated_buffer_bytes (b : bytes) (ms : Z) :
  0 ≤ ms →
  audio_bytes (audio_slice_to (AudioBuffer b) ((ms * default_frequency) `div` 1000))
  = Z.to_nat (Z.min (Z.of_nat (length b)) ((ms * default_frequency) `div` 1000)).
Proof.
  intros H. simpl. apply py_slice_to_length.
  apply Z.div_pos; unfold default_frequency; lia.
Qed.

(** On an audio held as a list of delta chunks, the end index counts
    chunks. *)
Lemma truncated_list_chunks (l : list bytes) (ms : Z) :
  0 ≤ ms →
  audio_slice_to (AudioList l) ((ms * default_frequency) `div` 1000)
  = AudioList (take (Z.to_nat ((ms * default_frequency) `div` 1000)) l).
Proof.
  intros H. simpl. f_equal. unfold py_slice, py_clamp. simpl.
  assert (0 ≤ (ms * default_frequency) `div` 1000)
    by (apply Z.div_pos; unfold default_frequency; lia).
  destruct (decide _) as [?|_]; [lia|]. rewrite drop_0.
  destruct (decide ((ms * default_frequency) `div` 1000 ≤ Z.of_nat (length l))).
  - by rewrite Z.min_l.
  - rewrite Z.min_r, Nat2Z.id by lia. rewrite !take_ge; [done|lia|lia].
Qed.

(** C1, at the failing input.  An assistant message receives one audio
    delta of 32 bytes and is then truncated at 1 ms, that is at end index
    16.  The transcript is emptied, but the audio still holds its 32
    bytes, not the 16 = min(32, 16) that a cut at the end index would
    leave: the end index is applied
    to the list of chunks, not to the bytes. *)
Theorem truncation_keeps_whole_chunks :
  ∃ item item',
    item_lookup Samples.one_chunk !! "a1" = Some item
    ∧ audio_bytes (audio (formatted item)) = 32%nat
    ∧ (1 * default_frequency) `div` 1000 = 16
    ∧ (process_event (ItemTruncated "a1" 1) None Samples.one_chunk).2
      = inr (Some item', None)
    ∧ item_lookup (process_event (ItemTruncated "a1" 1) None Samples.one_chunk).1
        !! "a1" = Some item'
    ∧ transcript (formatted item') = EmptyString
    ∧ audio (formatted item') = AudioList [Samples.chunk32]
    ∧ audio_bytes (audio (formatted item')) = 32%nat.
Proof. do 2 eexists. repeat split; vm_compute; reflexivity. Qed.

(** *** Items that are absent *)

(** C6.  An audio delta for an id that is not in the store changes
    nothing, returns no item and no delta and does not raise; the text
    delta, the audio transcript delta, the function call arguments delta,
    content_part.added, output_item.done, item.truncated and item.deleted
    for that id all fail with a not-found error. *)
Theorem absent_item_tolerated_by_audio_delta_only (c : t) (i : string) :
  item_lookup c !! i = None →
  (∀ ci d, process_event (AudioDelta i ci d) None c = (c, inr (None, None)))
  ∧ (∀ ci d, fails_not_found c (process_event (TextDelta i ci d) None c))
  ∧ (∀ ci d, fails_not_found c (process_event (AudioTranscriptDelta i ci d) None c))
  ∧ (∀ d, fails_not_found c (process_event (FunctionCallArgumentsDelta i d) None c))
  ∧ (∀ part, fails_not_found c (process_event (ContentPartAdded i part) None c))
  ∧ (∀ raw, raw_id raw = i →
       fails_not_found c (process_event (OutputItemDone (Some raw)) None c))
  ∧ (∀ ms, fails_not_found c (process_event (ItemTruncated i ms) None c))
  ∧ fails_not_found c (process_event (ItemDeleted i) None c).
Proof.
  intros H. unfold fails_not_found. simpl.
  unfold process_audio_delta, process_text_delta, process_audio_transcript_delta,
    process_function_call_arguments_delta, process_content_part_added,
    process_output_item_done, process_item_truncated, process_item_deleted.
  rewrite H.
  repeat split; intros; subst; try rewrite H; eauto.
Qed.

Lemma absent_item_tolerated_by_audio_delta_only_witness :
  item_lookup clear !! "ghost" = None
  ∧ process_event (AudioDelta "ghost" 0 (Some Samples.chunk32)) None clear
    = (clear, inr (None, None))
  ∧ fails_not_found clear (process_event (TextDelta "ghost" 0 "hi") None clear).
Proof.
  split; [reflexivity|].
  destruct (absent_item_tolerated_by_audio_delta_only clear "ghost" eq_refl)
    as (Ha & Ht & _).
  split; [apply Ha | apply Ht].
Defined.

(** *** Creation of an item whose id is registered *)

Lemma untouched_ret {A} (a : A) : untouched (proc_ret a).
Proof. by intros s. Qed.

Lemma untouched_raise {A} (e : error) : untouched (@raise Local A e).
Proof. by intros s. Qed.

Lemma untouched_get : untouched (@get Local).
Proof. by intros s. Qed.

Lemma untouched_require {A} (k : string) (o : option A) :
  untouched (@require Local A k o).
Proof. by destruct o. Qed.

Lemma untouched_on_item (f : Item → Item) : untouched (on_item f).
Proof. by intros s. Qed.

Lemma untouched_on_store (f : t → t) :
  (∀ c, item_lookup (f c) = item_lookup c ∧ items (f c) = items c) →
  untouched (on_store f).
Proof. intros Hf s. apply Hf. Qed.

Lemma untouched_bind {A B} (m : Proc Local A) (k : A → Proc Local B) :
  untouched m → (∀ a, untouched (k a)) → untouched (proc_bind m k).
Proof.
  intros Hm Hk s. unfold proc_bind. destruct (Hm s) as [Hl Hi].
  destruct (m s) as [s' [e|a]]; simpl in *; [done|].
  destruct (Hk a s') as [Hl' Hi']. split; congruence.
Qed.

Create HintDb untouched.
#[local] Hint Resolve untouched_ret untouched_raise untouched_get
  untouched_require untouched_on_item untouched_bind : untouched.
#[local] Hint Extern 1 (untouched (on_store _)) =>
  apply untouched_on_store; intros; split; reflexivity : untouched.

Lemma untouched_append_texts (parts : list Part) : untouched (append_texts parts).
Proof. induction parts as [|p parts IH]; simpl; eauto 10 with untouched. Qed.

Lemma untouched_merge_queued_speech : untouched merge_queued_speech.
Proof.
  unfold merge_queued_speech. apply untouched_bind; [apply untouched_get|].
  intros s. destruct (_ !! _); eauto 10 with untouched.
Qed.

Lemma untouched_merge_text_content : untouched merge_text_content.
Proof.
  unfold merge_text_content. apply untouched_bind; [apply untouched_get|].
  intros s. destruct (content _); auto using untouched_append_texts with untouched.
Qed.

Lemma untouched_merge_queued_transcript : untouched merge_queued_transcript.
Proof.
  unfold merge_queued_transcript. apply untouched_bind; [apply untouched_get|].
  intros s. destruct (_ !! _); eauto 10 with untouched.
Qed.

Lemma untouched_merge_queued_input_audio : untouched merge_queued_input_audio.
Proof.
  unfold merge_queued_input_audio. apply untouched_bind; [apply untouched_get|].
  intros s. destruct (queued_input_audio _) as [[|b q]|]; eauto 10 with untouched.
Qed.

Lemma untouched_assign_status : untouched assign_status.
Proof.
  unfold assign_status. apply untouched_bind; [apply untouched_get|].
  intros s. repeat case_decide;
    eauto 10 using untouched_merge_queued_input_audio with untouched.
  apply untouched_bind; [apply untouched_require|]. intros r.
  case_decide; eauto 10 using untouched_merge_queued_input_audio with untouched.
Qed.

(** C10.  When the id of a created item is already registered, the stored
    item, the index and the ordered list of items are left as they were,
    whether the processor returns or raises: the formatted entry, the
    status and the merged queue entries go to the copy, and the copy is not
    stored. *)
Theorem duplicate_item_created_leaves_items (c : t) (raw : RawItem) (stored : Item) :
  item_lookup c !! raw_id raw = Some stored →
  item_lookup (process_item_created raw c).1 = item_lookup c
  ∧ items (process_item_created raw c).1 = items c
  ∧ item_lookup (process_item_created raw c).1 !! raw_id raw = Some stored
  ∧ get_items (process_item_created raw c).1 = get_items c.
Proof.
  intros H.
  assert (item_lookup (process_item_created raw c).1 = item_lookup c
          ∧ items (process_item_created raw c).1 = items c) as [Hl Hi].
  { unfold process_item_created. simpl. rewrite H.
    rewrite bool_decide_eq_false_2 by done.
    pose proof (untouched_bind _ _ untouched_merge_queued_speech
      (λ _, untouched_bind _ _ untouched_merge_text_content
        (λ _, untouched_bind _ _ untouched_merge_queued_transcript
          (λ _, untouched_assign_status))) (copy_item raw, c)) as Hu.
    simpl in Hu. destruct (proc_bind _ _ _) as [s r]. simpl in *. exact Hu. }
  unfold get_items. rewrite Hl, Hi. by rewrite H.
Qed.

Lemma duplicate_item_created_leaves_items_witness :
  ∃ stored,
    item_lookup Samples.one_message !! "a1" = Some stored
    ∧ item_lookup
        (process_item_created (Samples.assistant_message []) Samples.one_message).1
      = item_lookup Samples.one_message
    ∧ items
        (process_item_created (Samples.assistant_message []) Samples.one_message).1
      = ["a1"].
Proof.
  eexists. split; [vm_compute; reflexivity|].
  destruct (duplicate_item_created_leaves_items Samples.one_message
              (Samples.assistant_message []) _ eq_refl) as (Hl & Hi & _).
  split; [exact Hl | exact Hi].
Defined.

(** *** Deltas *)

Lemma py_index_insert {A} (l : list A) (k : nat) (x : A) (i : Z) :
  py_index (<[k := x]> l) i = py_index l i.
Proof. unfold py_index. by rewrite length_insert. Qed.

Lemma py_index_lt {A} (l : list A) (i : Z) (k : nat) :
  py_index l i = Some k → (k < length l)%nat.
Proof.
  unfold py_index. intros H. repeat case_decide; simplify_eq; lia.
Qed.

(** A text delta to a part that is there succeeds, appends to the
    formatted text and keeps every text part addressable. *)
Lemma text_delta_step (c : t) (i : string) (item : Item) (ci : Z) (d : string) :
  item_lookup c !! i = Some item →
  has_text_part item ci →
  ∃ item',
    process_text_delta i ci d c
      = (set_item_lookup <[i := item']> c, inr (Some item', Some (DeltaText d)))
    ∧ text (formatted item') = text (formatted item) +:+ d
    ∧ ∀ cj, has_text_part item cj → has_text_part item' cj.
Proof.
  intros Hi (parts & k & p & Hc & Hk & Hp & old & Hold).
  unfold process_text_delta, update_part. rewrite Hi, Hc, Hk. simpl.
  rewrite Hp. simpl. rewrite Hold.
  eexists. split; [reflexivity|]. split; [reflexivity|].
  intros cj (parts' & k' & p' & Hc' & Hk' & Hp' & Hold').
  rewrite Hc in Hc'. injection Hc' as <-.
  destruct (decide (k = k')) as [<-|Hne].
  - eexists _, k, _. simpl. split; [reflexivity|].
    rewrite py_index_insert. split; [done|]. split.
    + apply list_lookup_insert_eq. by eapply py_index_lt.
    + by eexists.
  - eexists _, k', p'. simpl. split; [reflexivity|].
    rewrite py_index_insert. split; [done|]. split; [|done].
    by rewrite list_lookup_insert_ne.
Qed.

(** The same for an audio transcript delta. *)
Lemma transcript_delta_step (c : t) (i : string) (item : Item) (ci : Z) (d : string) :
  item_lookup c !! i = Some item →
  has_transcript_part item ci →
  ∃ item',
    process_audio_transcript_delta i ci d c
      = (set_item_lookup <[i := item']> c,
         inr (Some item', Some (DeltaTranscript d)))
    ∧ transcript (formatted item') = transcript (formatted item) +:+ d
    ∧ ∀ cj, has_transcript_part item cj → has_transcript_part item' cj.
Proof.
  intros Hi (parts & k & p & Hc & Hk & Hp & old & Hold).
  unfold process_audio_transcript_delta, update_part. rewrite Hi, Hc, Hk. simpl.
  rewrite Hp. simpl. rewrite Hold.
  eexists. split; [reflexivity|]. split; [reflexivity|].
  intros cj (parts' & k' & p' & Hc' & Hk' & Hp' & Hold').
  rewrite Hc in Hc'. injection Hc' as <-.
  destruct (decide (k = k')) as [<-|Hne].
  - eexists _, k, _. simpl. split; [reflexivity|].
    rewrite py_index_insert. split; [done|]. split.
    + apply list_lookup_insert_eq. by eapply py_index_lt.
    + by eexists.
  - eexists _, k', p'. simpl. split; [reflexivity|].
    rewrite py_index_insert. split; [done|]. split; [|done].
    by rewrite list_lookup_insert_ne.
Qed.

Lemma process_events_cons (e : Event) (rest : list Event) (c c1 c2 : t)
    (o : Output) (os : list Output) :
  process_event e None c = (c1, inr o) →
  process_events rest c1 = (c2, inr os) →
  process_events (e :: rest) c = (c2, inr (o :: os)).
Proof.
  intros H1 H2. simpl. unfold proc_bind. rewrite H1, H2. reflexivity.
Qed.

Lemma text_deltas_fold (ds : list (Z * string)) :
  ∀ (c : t) (i : string) (item : Item),
    item_lookup c !! i = Some item →
    Forall (λ d, has_text_part item d.1) ds →
    ∃ c' outs item',
      process_events (text_deltas i ds) c = (c', inr outs)
      ∧ item_lookup c' !! i = Some item'
      ∧ text (formatted item') = text (formatted item) +:+ concat_deltas ds.
Proof.
  induction ds as [|[ci d] ds IH]; intros c i item Hi Hall.
  - exists c, [], item. repeat split; [done|]. simpl. by rewrite append_empty_r.
  - apply Forall_cons in Hall as [Hd Hall]. simpl in Hd.
    destruct (text_delta_step c i item ci d Hi Hd) as (item1 & Hstep & Htext & Hkeep).
    destruct (IH (set_item_lookup <[i := item1]> c) i item1) as (c' & outs & item' & Hrun & Hl & Ht).
    { simpl. apply lookup_insert_eq. }
    { eapply Forall_impl; [exact Hall|]. intros x. apply Hkeep. }
    exists c', ((Some item1, Some (DeltaText d)) :: outs), item'.
    split; [|split; [done|]].
    + simpl text_deltas. eapply process_events_cons; [exact Hstep | exact Hrun].
    + rewrite Ht, Htext. simpl. apply append_assoc.
Qed.

Lemma transcript_deltas_fold (ds : list (Z * string)) :
  ∀ (c : t) (i : string) (item : Item),
    item_lookup c !! i = Some item →
    Forall (λ d, has_transcript_part item d.1) ds →
    ∃ c' outs item',
      process_events (transcript_deltas i ds) c = (c', inr outs)
      ∧ item_lookup c' !! i = Some item'
      ∧ transcript (formatted item')
        = transcript (formatted item) +:+ concat_deltas ds.
Proof.
  induction ds as [|[ci d] ds IH]; intros c i item Hi Hall.
  - exists c, [], item. repeat split; [done|]. simpl. by rewrite append_empty_r.
  - apply Forall_cons in Hall as [Hd Hall]. simpl in Hd.
    destruct (transcript_delta_step c i item ci d Hi Hd)
      as (item1 & Hstep & Htext & Hkeep).
    destruct (IH (set_item_lookup <[i := item1]> c) i item1)
      as (c' & outs & item' & Hrun & Hl & Ht).
    { simpl. apply lookup_insert_eq. }
    { eapply Forall_impl; [exact Hall|]. intros x. apply Hkeep. }
    exists c', ((Some item1, Some (DeltaTranscript d)) :: outs), item'.
    split; [|split; [done|]].
    + simpl transcript_deltas. eapply process_events_cons; [exact Hstep | exact Hrun].
    + rewrite Ht, Htext. simpl. apply append_assoc.
Qed.

(** C5.  Take an item of the store whose formatted text (transcript) is
    empty, and any sequence of text deltas (audio transcript deltas)
    addressed to content parts of it that carry a text (a transcript).
    Every event of the sequence is processed without error, and the
    formatted text (transcript) of the item is then the concatenation of
    the deltas, in order. *)
Theorem deltas_concatenate_in_order
    (c : t) (i : string) (item : Item) (ds : list (Z * string)) :
  item_lookup c !! i = Some item →
  (text (formatted item) = EmptyString →
   Forall (λ d, has_text_part item d.1) ds →
   ∃ c' outs item',
     process_events (text_deltas i ds) c = (c', inr outs)
     ∧ item_lookup c' !! i = Some item'
     ∧ text (formatted item') = concat_deltas ds)
  ∧ (transcript (formatted item) = EmptyString →
     Forall (λ d, has_transcript_part item d.1) ds →
     ∃ c' outs item',
       process_events (transcript_deltas i ds) c = (c', inr outs)
       ∧ item_lookup c' !! i = Some item'
       ∧ transcript (formatted item') = concat_deltas ds).
Proof.
  intros Hi. split; intros Hempty Hall.
  - destruct (text_deltas_fold ds c i item Hi Hall) as (c' & outs & item' & ? & ? & Ht).
    exists c', outs, item'. rewrite Hempty in Ht. by repeat split.
  - destruct (transcript_deltas_fold ds c i item Hi Hall)
      as (c' & outs & item' & ? & ? & Ht).
    exists c', outs, item'. rewrite Hempty in Ht. by repeat split.
Qed.

Lemma deltas_concatenate_in_order_witness :
  ∃ c' outs item',
    process_events (text_deltas "a1" [(0, "Hel"); (-2, "lo")]) Samples.one_message
      = (c', inr outs)
    ∧ item_lookup c' !! "a1" = Some item'
    ∧ text (formatted item') = "Hello".
Proof.
  assert (item_lookup Samples.one_message !! "a1" = Some Samples.stored_message)
    as Hi by (vm_compute; reflexivity).
  destruct (deltas_concatenate_in_order Samples.one_message "a1"
              Samples.stored_message [(0, "Hel"); (-2, "lo")] Hi) as [Ht _].
  apply Ht.
  - reflexivity.
  - repeat constructor;
      exists [Samples.text_part; Samples.audio_part], 0%nat, Samples.text_part;
      repeat split; try reflexivity; by eexists.
Defined.

End ConversationStore.

(** ** Properties of the silence watchdog *)

Section SilenceWatchdog.

Import Watchdog.

Lemma hand_over_at_most_one (l : option Loop) : (length (hand_over l) ≤ 1)%nat.
Proof. destruct l as [[[] []]|]; simpl; lia. Qed.

(** While detection is inactive, no operation triggers a termination or
    makes detection active. *)
Lemma inactive_step (o : Op) (w : t) :
  silence_detection_active w = false →
  silence_detection_active (step o w) = false
  ∧ terminations (step o w) = terminations w.
Proof.
  intros H. destruct o; simpl;
    unfold handle_silence_timeout, reset_silence_timer, schedule_silence_timer,
      stop_silence_detection; rewrite ?H; simpl; try done.
  by destruct (silence_timer w).
Qed.

Lemma inactive_run (ops : list Op) :
  ∀ w, silence_detection_active w = false →
       silence_detection_active (run ops w) = false
       ∧ terminations (run ops w) = terminations w.
Proof.
  induction ops as [|o ops IH]; intros w H; [done|].
  destruct (inactive_step o w H) as [Ha Ht].
  destruct (IH (step o w) Ha) as [Ha' Ht'].
  change (run (o :: ops) w) with (run ops (step o w)). split; congruence.
Qed.

(** One operation either triggers nothing, or it triggers at most one
    termination and leaves detection inactive. *)
Lemma step_fires_and_stops (o : Op) (w : t) :
  terminations (step o w) = terminations w
  ∨ (silence_detection_active (step o w) = false
     ∧ (length (terminations (step o w)) ≤ length (terminations w) + 1)%nat).
Proof.
  destruct o as [now|now|now|]; simpl.
  - unfold handle_silence_timeout.
    destruct (negb _ || _); [by left|].
    case_decide; [right|by left]. simpl. split; [done|].
    rewrite length_app. pose proof (hand_over_at_most_one (loop w)). lia.
  - left. unfold reset_silence_timer, schedule_silence_timer.
    destruct (negb _ || _); [done|]. simpl. by destruct (_ && _).
  - left. unfold schedule_silence_timer. by destruct (_ && _).
  - left. unfold stop_silence_detection. by destruct (silence_timer w).
Qed.

(** From any state and whatever is run, at most one termination is
    triggered. *)
Lemma run_fires_at_most_once (ops : list Op) :
  ∀ w, (length (terminations (run ops w)) ≤ length (terminations w) + 1)%nat.
Proof.
  induction ops as [|o ops IH]; intros w; [simpl; lia|].
  change (run (o :: ops) w) with (run ops (step o w)).
  destruct (step_fires_and_stops o w) as [Hsame|[Hoff Hlen]].
  - rewrite <- Hsame. apply IH.
  - destruct (inactive_run ops _ Hoff) as [_ ->]. exact Hlen.
Qed.

(** C3.  When a deadline expires with the timeout elapsed while detection
    is active and not yet triggered, the watchdog latches: it is marked
    triggered, detection is deactivated, the timer is cancelled and
    forgotten, and at most one termination is handed over.  After that no
    sequence of timer callbacks, activity resets, schedulings and stops
    triggers another termination. *)
Theorem watchdog_fires_at_most_once (w : t) (now : Z) :
  silence_detection_active w = true →
  timeout_triggered w = false →
  silence_timeout w ≤ now - last_activity_time w →
  timeout_triggered (handle_silence_timeout now w) = true
  ∧ silence_detection_active (handle_silence_timeout now w) = false
  ∧ silence_timer (handle_silence_timeout now w) = None
  ∧ (∀ h, silence_timer w = Some h →
          timers (handle_silence_timeout now w) = timer_cancel h (timers w))
  ∧ terminations (handle_silence_timeout now w)
    = terminations w ++ hand_over (loop w)
  ∧ (length (hand_over (loop w)) ≤ 1)%nat
  ∧ ∀ ops, terminations (run ops (handle_silence_timeout now w))
           = terminations (handle_silence_timeout now w).
Proof.
  intros Ha Ht He.
  assert (handle_silence_timeout now w
          = mk (silence_timeout w) None (last_activity_time w) false true (loop w)
               (match silence_timer w with
                | Some h => timer_cancel h (timers w)
                | None => timers w
                end)
               (terminations w ++ hand_over (loop w))) as Heq.
  { unfold handle_silence_timeout. rewrite Ha, Ht. simpl. by case_decide. }
  repeat split.
  - by rewrite Heq.
  - by rewrite Heq.
  - by rewrite Heq.
  - intros h Hh. rewrite Heq. simpl. by rewrite Hh.
  - by rewrite Heq.
  - apply hand_over_at_most_one.
  - intros ops. apply inactive_run. by rewrite Heq.
Qed.

Lemma watchdog_fires_at_most_once_witness :
  terminations (handle_silence_timeout 51 Samples.raced_watchdog) = [PostedToLoop]
  ∧ terminations
      (run [TimerCallback 52; Activity 60; TimerCallback 95; Schedule 96;
            TimerCallback 130]
         (handle_silence_timeout 51 Samples.raced_watchdog))
    = [PostedToLoop].
Proof.
  destruct (watchdog_fires_at_most_once Samples.raced_watchdog 51
              eq_refl eq_refl ltac:(simpl; lia))
    as (_ & _ & _ & _ & Hfire & _ & Hafter).
  split; [exact Hfire|]. rewrite Hafter. exact Hfire.
Defined.

(** *** A deadline that expires early *)

(** The client's own handler does nothing when the timeout has not
    elapsed: no timer is started. *)
Lemma client_early_expiry_is_ignored (w : t) (now : Z) :
  now - last_activity_time w < silence_timeout w →
  handle_silence_timeout now w = w.
Proof.
  intros H. unfold handle_silence_timeout.
  destruct (negb _ || _); [done|]. case_decide; [lia|done].
Qed.

(** The stand-alone detector starts a timer for what remains. *)
Lemma detector_early_expiry_reschedules (d : SilenceDetector.t) (now : Z) :
  now - SilenceDetector.last_activity_time d < SilenceDetector.timeout_seconds d →
  SilenceDetector.timers (SilenceDetector.handle_timeout now d)
  = SilenceDetector.timers d
    ++ [mkTimer (SilenceDetector.timeout_seconds d
                 - (now - SilenceDetector.last_activity_time d)) now false]
  ∧ SilenceDetector.silence_timer (SilenceDetector.handle_timeout now d)
    = Some (length (SilenceDetector.timers d))
  ∧ SilenceDetector.callbacks_run (SilenceDetector.handle_timeout now d)
    = SilenceDetector.callbacks_run d
  ∧ SilenceDetector.coroutines_scheduled (SilenceDetector.handle_timeout now d)
    = SilenceDetector.coroutines_scheduled d.
Proof.
  intros H. unfold SilenceDetector.handle_timeout.
  rewrite bool_decide_eq_false_2 by lia. simpl.
  case_decide; [done|lia].
Qed.

(** While detection is active, the watchdog has not fired and holds the
    timer that the last stamp of the activity started: the start and the
    reset stamp and arm in one go, and nothing else stamps or arms. *)
Lemma call_keeps_armed (k : Call) (w : t) :
  (silence_detection_active w = true →
   SessionNotions.armed_at (last_activity_time w) w) →
  silence_detection_active (call k w) = true →
  SessionNotions.armed_at (last_activity_time (call k w)) (call k w).
Proof.
  intros Hw.
  assert (∀ to la lp ts tm,
            SessionNotions.armed_at la
              (mk to (Some (length ts)) la true false lp
                  (ts ++ [mkTimer to la false]) tm)) as Hnew.
  { intros. repeat split. eexists. split; [reflexivity|]. simpl.
    by rewrite lookup_app_r, Nat.sub_diag. }
  destruct k as [now l| |now|now|]; simpl.
  - unfold start_silence_detection.
    destruct (silence_detection_active w) eqn:Ha; [by intros _; apply Hw|].
    destruct l as [l|]; [|by rewrite Ha].
    intros _. unfold schedule_silence_timer, timer_start. simpl.
    by apply Hnew.
  - unfold stop_silence_detection. by destruct (silence_timer w).
  - unfold reset_silence_timer.
    destruct (silence_detection_active w) eqn:Ha; simpl; [|by rewrite Ha].
    destruct (timeout_triggered w) eqn:Ht; simpl; [by intros _; apply Hw|].
    intros _. unfold schedule_silence_timer, timer_start. simpl.
    rewrite ?Ha, ?Ht. simpl. rewrite ?Ha, ?Ht. by apply Hnew.
  - unfold handle_silence_timeout.
    destruct (negb _ || _); [exact Hw|]. case_decide; [done|exact Hw].
  - unfold clear_latch. simpl. intros Ha.
    destruct (Hw Ha) as (_ & Ht & _ & h & Hh & Hl).
    repeat split; try done. by exists h.
Qed.

Lemma active_watchdog_is_armed (ks : list Call) (timeout t0 : Z) :
  silence_detection_active (run_calls ks (init timeout t0)) = true →
  SessionNotions.armed_at
    (last_activity_time (run_calls ks (init timeout t0)))
    (run_calls ks (init timeout t0)).
Proof.
  assert (∀ w,
            (silence_detection_active w = true →
             SessionNotions.armed_at (last_activity_time w) w) →
            silence_detection_active (run_calls ks w) = true →
            SessionNotions.armed_at (last_activity_time (run_calls ks w))
              (run_calls ks w)) as Hrun.
  { induction ks as [|k ks IH]; intros w Hw; [exact Hw|].
    change (run_calls (k :: ks) w) with (run_calls ks (call k w)).
    apply IH. by apply call_keeps_armed. }
  apply Hrun. discriminate.
Qed.

(** C4, as the code has it.  Take the watchdog of the client in any state
    it reaches from its initial one, and let a timer callback run at [now]
    with less than the timeout elapsed since the last activity.  The
    watchdog does not fire, and it starts no timer: the callback leaves
    it exactly as it was.  While detection is active it holds a timer
    that is not cancelled, the one that the last activity started for
    the whole timeout, and that one falls due at [now] plus the remaining
    duration, timeout minus elapsed.  The stand-alone detector, in the same
    situation, starts a timer for the remaining duration. *)
Theorem early_expiry_keeps_the_deadline_of_the_last_activity
    (ks : list Call) (timeout t0 now : Z) (w : t) (d : SilenceDetector.t) :
  w = run_calls ks (init timeout t0) →
  (now - last_activity_time w < silence_timeout w →
   handle_silence_timeout now w = w
   ∧ (silence_detection_active w = true →
      timeout_triggered w = false
      ∧ ∃ h tm,
          silence_timer w = Some h
          ∧ timers w !! h = Some tm
          ∧ cancelled tm = false
          ∧ interval tm = silence_timeout w
          ∧ started_at tm + interval tm
            = now + (silence_timeout w - (now - last_activity_time w))))
  ∧ (now - SilenceDetector.last_activity_time d
       < SilenceDetector.timeout_seconds d →
     SilenceDetector.timers (SilenceDetector.handle_timeout now d)
     = SilenceDetector.timers d
       ++ [mkTimer (SilenceDetector.timeout_seconds d
                    - (now - SilenceDetector.last_activity_time d)) now false]
     ∧ SilenceDetector.silence_timer (SilenceDetector.handle_timeout now d)
       = Some (length (SilenceDetector.timers d))
     ∧ SilenceDetector.callbacks_run (SilenceDetector.handle_timeout now d)
       = SilenceDetector.callbacks_run d
     ∧ SilenceDetector.coroutines_scheduled
         (SilenceDetector.handle_timeout now d)
       = SilenceDetector.coroutines_scheduled d).
Proof.
  intros ->. split; [|apply detector_early_expiry_reschedules].
  intros He. split; [by apply client_early_expiry_is_ignored|].
  intros Ha.
  destruct (active_watchdog_is_armed ks timeout t0 Ha)
    as (_ & Ht & _ & h & Hh & Hl).
  split; [exact Ht|].
  eexists h, _. split; [exact Hh|]. split; [exact Hl|]. simpl.
  split; [done|]. split; [done|]. lia.
Qed.

(** C4, where the callback does not reschedule.  Timeout 30.  Detection
    starts at 0 and arms a first timer, due at 30.  Activity at 30 races
    that deadline: the reset cancels the first timer and arms a second
    one, due at 60.  The callback of the first timer runs all the same, at
    31, one after the activity.  It does not fire and starts no timer,
    none for the remaining 29 either: the table of timers is what it was.
    The stand-alone detector, one after its last activity, starts a timer
    for 29. *)
Lemma early_expiry_starts_no_timer :
  timers (run_calls [CallStart 0 (Some (mkLoop true false)); CallReset 30]
            (init 30 0))
  = [mkTimer 30 0 true; mkTimer 30 30 false]
  ∧ 31 - last_activity_time
           (run_calls [CallStart 0 (Some (mkLoop true false)); CallReset 30]
              (init 30 0)) = 1
  ∧ timers
      (handle_silence_timeout 31
         (run_calls [CallStart 0 (Some (mkLoop true false)); CallReset 30]
            (init 30 0)))
    = [mkTimer 30 0 true; mkTimer 30 30 false]
  ∧ ¬ (∃ h,
         silence_timer
           (handle_silence_timeout 31
              (run_calls [CallStart 0 (Some (mkLoop true false)); CallReset 30]
                 (init 30 0))) = Some h
         ∧ timers
             (handle_silence_timeout 31
                (run_calls
                   [CallStart 0 (Some (mkLoop true false)); CallReset 30]
                   (init 30 0))) !! h
           = Some (mkTimer 29 31 false))
  ∧ SilenceDetector.timers
      (SilenceDetector.handle_timeout 21 Samples.raced_detector)
    = [mkTimer 30 20 false; mkTimer 29 21 false].
Proof.
  split; [reflexivity|]. split; [reflexivity|]. split; [reflexivity|].
  split; [|reflexivity].
  intros (h & Hh & Hl). vm_compute in Hh. injection Hh as <-.
  vm_compute in Hl. discriminate Hl.
Qed.

Lemma early_expiry_keeps_the_deadline_of_the_last_activity_witness :
  handle_silence_timeout 31
    (run_calls [CallStart 0 (Some (mkLoop true false)); CallReset 30]
       (init 30 0))
  = run_calls [CallStart 0 (Some (mkLoop true false)); CallReset 30] (init 30 0)
  ∧ (∃ h tm,
       silence_timer
         (run_calls [CallStart 0 (Some (mkLoop true false)); CallReset 30]
            (init 30 0)) = Some h
       ∧ timers
           (run_calls [CallStart 0 (Some (mkLoop true false)); CallReset 30]
              (init 30 0)) !! h = Some tm
       ∧ started_at tm + interval tm = 60)
  ∧ SilenceDetector.timers
      (SilenceDetector.handle_timeout 45 Samples.raced_detector)
    = [mkTimer 30 20 false; mkTimer 5 45 false].
Proof.
  destruct (early_expiry_keeps_the_deadline_of_the_last_activity
              [CallStart 0 (Some (mkLoop true false)); CallReset 30] 30 0 31
              _ Samples.raced_detector eq_refl) as [Hclient _].
  destruct (early_expiry_keeps_the_deadline_of_the_last_activity
              [] 30 0 45 _ Samples.raced_detector eq_refl) as [_ Hdetector].
  destruct (Hclient ltac:(vm_compute; reflexivity))
    as (Hsame & Harmed).
  destruct (Harmed eq_refl) as (_ & h & tm & Hh & Hl & _ & _ & Hdue).
  split; [exact Hsame|]. split.
  - exists h, tm. split; [exact Hh|]. split; [exact Hl|]. exact Hdue.
  - destruct (Hdetector ltac:(vm_compute; reflexivity)) as (Ht & _).
    exact Ht.
Defined.

End SilenceWatchdog.

(** ** Properties of the transport and of the session controller *)

Section SessionController.

Context {J : Json}.

Import Client ClientNotions.

Lemma bind_ok {S A B} (m : Proc S A) (k : A → Proc S B) (s s1 : S) (a : A) :
  m s = (s1, inr a) → proc_bind m k s = k a s1.
Proof. intros H. unfold proc_bind. by rewrite H. Qed.

Lemma bind_err {S A B} (m : Proc S A) (k : A → Proc S B) (s s1 : S) (e : error) :
  m s = (s1, inl e) → proc_bind m k s = (s1, inl e).
Proof. intros H. unfold proc_bind. by rewrite H. Qed.

Lemma realtime_send_connected (now : Z) (n : string) (d : API.Data) (c : t) :
  is_connected c = true →
  realtime_send now n d c = (sent now (API.mkFrame n d) c, inr tt).
Proof.
  intros H. unfold realtime_send, proc_bind, get. by rewrite H.
Qed.

Lemma realtime_send_disconnected (now : Z) (n : string) (d : API.Data) (c : t) :
  is_connected c = false →
  realtime_send now n d c = (c, inl NotConnected).
Proof.
  intros H. unfold realtime_send, proc_bind, get. by rewrite H.
Qed.

Lemma sent_connected (now : Z) (f : API.Frame) (c : t) :
  is_connected (sent now f c) = is_connected c.
Proof. reflexivity. Qed.

Lemma sent_wire (now : Z) (f : API.Frame) (c : t) :
  wire (sent now f c) = wire c ++ [f].
Proof. reflexivity. Qed.

(** *** Disconnecting *)

(** C9.  Disconnecting the transport when no stream is open changes
    nothing, and so does disconnecting the client as far as the transport
    goes.  Disconnecting twice is disconnecting once: the stream that was
    open is closed by the first call and by it alone.  Neither method has
    a raise. *)
Theorem disconnect_is_idempotent (a : API.t) (c : t) :
  (API.ws a = None → API.disconnect a = a)
  ∧ API.disconnect (API.disconnect a) = API.disconnect a
  ∧ API.closed (API.disconnect (API.disconnect a))
    = API.closed a ++ option_list (API.ws a)
  ∧ API.ws (API.disconnect a) = None
  ∧ (is_connected c = false → realtime (disconnect c) = realtime c)
  ∧ disconnect (disconnect c) = disconnect c
  ∧ API.closed (realtime (disconnect (disconnect c)))
    = API.closed (realtime c) ++ option_list (API.ws (realtime c))
  ∧ is_connected (disconnect c) = false.
Proof.
  assert (disconnect (disconnect c) = disconnect c) as Hidem.
  { unfold disconnect, is_connected, API.is_connected, API.disconnect,
      Watchdog.stop_silence_detection.
    destruct c as [[[w|] tr cl] cv tl sc td buf [to [h|] la ac tg lp ts tm] task ns];
      reflexivity. }
  repeat split.
  - destruct a as [[w|] tr cl]; simpl; [discriminate | reflexivity].
  - by destruct a as [[w|] tr cl].
  - destruct a as [[w|] tr cl]; simpl; [done | by rewrite app_nil_r].
  - by destruct a as [[w|] tr cl].
  - destruct c as [[[w|] tr cl] cv tl sc td buf wd task ns];
      [discriminate | reflexivity].
  - exact Hidem.
  - rewrite Hidem.
    destruct c as [[[w|] tr cl] cv tl sc td buf wd task ns]; simpl;
      [done | by rewrite app_nil_r].
  - by destruct c as [[[w|] tr cl] cv tl sc td buf wd task ns].
Qed.

(** *** The tool registry *)

Lemma dict_get_del {V} (k : string) (d : list (string * V)) :
  dict_get k (dict_del k d) = None.
Proof.
  induction d as [|[k' v] d IH]; simpl; [done|].
  case_decide; [done|]. simpl. by rewrite decide_False.
Qed.

Lemma dict_get_set {V} (k : string) (v : V) (d : list (string * V)) :
  dict_get k (dict_set k v d) = Some v.
Proof.
  induction d as [|[k' v'] d IH]; simpl.
  - by rewrite decide_True.
  - case_decide; simpl; [by rewrite decide_True | by rewrite decide_False].
Qed.

Lemma update_session_tools (now : Z) (c : t) :
  ∃ c', update_session now c = (c', inr tt) ∧ tools c' = tools c.
Proof.
  unfold update_session, proc_bind, get.
  destruct (API.is_connected (realtime c)) eqn:E.
  - rewrite realtime_send_connected by done. by eexists.
  - by eexists.
Qed.

(** C8.  For a definition with a name: adding it while the name is
    registered fails with a state conflict and changes nothing; adding it
    with a handler that is not callable fails with a state conflict and
    changes nothing; and once the registered name has been removed, adding
    it again succeeds and registers the new definition and handler. *)
Theorem tool_registry_conflicts
    (c : t) (now : Z) (name : string) (d : ToolDefinition) :
  def_name d = Some name →
  name ≠ EmptyString →
  (∀ h, is_Some (dict_get name (tools c)) →
        add_tool now d h c = (c, inl (ToolAlreadyAdded name))
        ∧ classify (ToolAlreadyAdded name) = StateConflict)
  ∧ (dict_get name (tools c) = None →
     add_tool now d NotCallable c = (c, inl (HandlerNotCallable name)))
  ∧ (∃ e, add_tool now d NotCallable c = (c, inl e)
          ∧ classify e = StateConflict)
  ∧ (∀ f, is_Some (dict_get name (tools c)) →
        ∃ c1 c2,
          remove_tool name c = (c1, inr tt)
          ∧ dict_get name (tools c1) = None
          ∧ add_tool now d (Callable f) c1 = (c2, inr (mkToolConfig d f))
          ∧ dict_get name (tools c2) = Some (mkToolConfig d f)).
Proof.
  intros Hd Hne.
  assert (∀ h c0, add_tool now d h c0
            = match dict_get name (tools c0) with
              | Some _ => (c0, inl (ToolAlreadyAdded name))
              | None =>
                  match h with
                  | NotCallable => (c0, inl (HandlerNotCallable name))
                  | Callable f =>
                      (modify (set_tools (dict_set name (mkToolConfig d f))) >>
                       update_session now >>
                       proc_ret (mkToolConfig d f)) c0
                  end
              end) as Hadd.
  { intros h c0. unfold add_tool. rewrite Hd.
    destruct name as [|a name]; [done|].
    unfold proc_bind at 1. unfold get.
    destruct (dict_get _ _); [done|]. by destruct h. }
  split; [|split; [|split]].
  - intros h [tc Htc]. by rewrite Hadd, Htc.
  - intros Hnone. by rewrite Hadd, Hnone.
  - rewrite Hadd. destruct (dict_get name (tools c)); by eexists.
  - intros f [tc Htc].
    exists (set_tools (dict_del name) c).
    destruct (update_session_tools now
                (set_tools (dict_set name (mkToolConfig d f))
                   (set_tools (dict_del name) c))) as (c2 & Hup & Htools).
    exists c2. split; [|split; [|split]].
    + unfold remove_tool, proc_bind, get. by rewrite Htc.
    + apply dict_get_del.
    + rewrite Hadd. simpl. rewrite dict_get_del.
      unfold proc_bind at 1. unfold modify.
      unfold proc_bind. by rewrite Hup.
    + rewrite Htools. simpl. apply dict_get_set.
Qed.

(** *** Cancelling a response *)

Lemma audio_index_none (parts : list Conversation.Part) (i : Z) :
  Forall (λ p, Conversation.part_type p ≠ "audio") parts →
  audio_index parts i = -1.
Proof.
  intros H. revert i. induction H as [|p parts Hp _ IH]; intros i; simpl; [done|].
  by rewrite decide_False.
Qed.

Lemma audio_index_some (parts : list Conversation.Part) :
  ∀ i, Exists (λ p, Conversation.part_type p = "audio") parts →
       i ≤ audio_index parts i
       ∧ ∃ p, parts !! Z.to_nat (audio_index parts i - i) = Some p
              ∧ Conversation.part_type p = "audio".
Proof.
  induction parts as [|q parts IH]; intros i H; [by apply Exists_nil in H|].
  simpl. case_decide as Hq.
  - split; [lia|]. exists q. by rewrite Z.sub_diag.
  - apply Exists_cons in H as [H|H]; [done|].
    destruct (IH (i + 1) H) as (Hle & p & Hp & Ha). split; [lia|].
    exists p. split; [|done].
    replace (Z.to_nat (audio_index parts (i + 1) - i))
      with (S (Z.to_nat (audio_index parts (i + 1) - (i + 1)))) by lia.
    done.
Qed.

(** The frames of a cancellation.  Without an id, a connected client
    sends the bare cancel and nothing else.  With an id, the call fails with a state
    conflict, nothing sent, when the item is not in the store, is not a
    message or is not an assistant message.  For an assistant message the
    cancel goes out first: without an audio part the call then fails with
    a state conflict, the cancel frame on the wire and no truncation; with
    an audio part the truncation follows, for that item, at the index of
    the first audio part and at the milliseconds that the conversion of
    the sample count gives. *)
Theorem cancel_response_frames (c : t) (now : Z) (sample_count : Z) :
  (is_connected c = true →
   ∀ id, id = None ∨ id = Some EmptyString →
     ∃ c', cancel_response now id sample_count c = (c', inr None)
           ∧ wire c' = wire c ++ [cancel_frame])
  ∧ (∀ i, i ≠ EmptyString →
       Conversation.get_item (conversation c) i = None →
       ∃ c', cancel_response now (Some i) sample_count c
             = (c', inl (CancelItemNotFound i))
             ∧ classify (CancelItemNotFound i) = StateConflict
             ∧ wire c' = wire c)
  ∧ (∀ i item, i ≠ EmptyString →
       Conversation.get_item (conversation c) i = Some item →
       Conversation.type item ≠ "message" →
       ∃ c', cancel_response now (Some i) sample_count c
             = (c', inl CancelNotMessage)
             ∧ classify CancelNotMessage = StateConflict
             ∧ wire c' = wire c)
  ∧ (∀ i item role, i ≠ EmptyString →
       Conversation.get_item (conversation c) i = Some item →
       Conversation.type item = "message" →
       Conversation.role item = Some role →
       role ≠ "assistant" →
       ∃ c', cancel_response now (Some i) sample_count c
             = (c', inl CancelNotAssistant)
             ∧ classify CancelNotAssistant = StateConflict
             ∧ wire c' = wire c)
  ∧ (is_connected c = true →
     ∀ i item parts, i ≠ EmptyString →
       Conversation.get_item (conversation c) i = Some item →
       Conversation.type item = "message" →
       Conversation.role item = Some "assistant" →
       Conversation.content item = Some parts →
       Forall (λ p, Conversation.part_type p ≠ "audio") parts →
       ∃ c', cancel_response now (Some i) sample_count c
             = (c', inl CancelNoAudio)
             ∧ classify CancelNoAudio = StateConflict
             ∧ wire c' = wire c ++ [cancel_frame])
  ∧ (is_connected c = true →
     ∀ i item parts ms, i ≠ EmptyString →
       Conversation.get_item (conversation c) i = Some item →
       Conversation.type item = "message" →
       Conversation.role item = Some "assistant" →
       Conversation.content item = Some parts →
       Exists (λ p, Conversation.part_type p = "audio") parts →
       samples_to_ms sample_count = inr ms →
       ∃ c' k p,
         cancel_response now (Some i) sample_count c = (c', inr (Some item))
         ∧ wire c'
           = wire c
             ++ [cancel_frame;
                 API.mkFrame "conversation.item.truncate"
                   (API.TruncateData i (Z.of_nat k) ms)]
         ∧ parts !! k = Some p
         ∧ Conversation.part_type p = "audio").
Proof.
  set (c0 := set_watchdog (Watchdog.reset_silence_timer now) c).
  assert (∀ i, i ≠ EmptyString →
            cancel_response now (Some i) sample_count c
            = match Conversation.get_item (conversation c) i with
              | None => (c0, inl (CancelItemNotFound i))
              | Some item =>
                  if decide (Conversation.type item ≠ "message")
                  then (c0, inl CancelNotMessage)
                  else
                    (let* role := require "role" (Conversation.role item) in
                     if decide (role ≠ "assistant") then raise CancelNotAssistant
                     else
                       realtime_send now "response.cancel" API.NoData >>
                       let* parts := require "content" (Conversation.content item) in
                       let i' := audio_index parts 0 in
                       if decide (i' = -1) then raise CancelNoAudio
                       else
                         let* ms := lift (samples_to_ms sample_count) in
                         realtime_send now "conversation.item.truncate"
                           (API.TruncateData i i' ms) >>
                         proc_ret (Some item)) c0
              end) as Hsome.
  { intros i Hi. destruct i as [|a i]; [done|].
    unfold cancel_response, proc_bind at 1, reset_silence_timer, modify.
    fold c0. unfold proc_bind at 1. unfold get.
    change (conversation c0) with (conversation c).
    destruct (Conversation.get_item _ _) as [item|]; [|done].
    by case_decide. }
  split; [|split; [|split; [|split; [|split]]]].
  - intros Hc id Hid.
    exists (sent now cancel_frame c0). split; [|done].
    assert (cancel_response now id sample_count c
            = (realtime_send now "response.cancel" API.NoData >> proc_ret None) c0)
      as -> by (by destruct Hid as [-> | ->]).
    erewrite bind_ok by (by apply realtime_send_connected). done.
  - intros i Hi Hget. exists c0. by rewrite Hsome, Hget.
  - intros i item Hi Hget Hty. exists c0. rewrite Hsome, Hget by done.
    by rewrite decide_True.
  - intros i item role Hi Hget Hty Hrole Hne. exists c0.
    rewrite Hsome, Hget by done. rewrite decide_False by (by intros []).
    rewrite Hrole. unfold require, proc_bind, proc_ret.
    by rewrite decide_True.
  - intros Hc i item parts Hi Hget Hty Hrole Hparts Hnone.
    exists (sent now cancel_frame c0).
    rewrite Hsome, Hget by done. rewrite decide_False by (by intros []).
    rewrite Hrole. unfold require at 1. unfold proc_bind at 1, proc_ret at 1.
    rewrite decide_False by (by intros []).
    erewrite bind_ok by (by apply realtime_send_connected).
    rewrite Hparts. unfold require, proc_bind, proc_ret.
    rewrite audio_index_none by done. by rewrite decide_True.
  - intros Hc i item parts ms Hi Hget Hty Hrole Hparts Hsomeaudio Hms.
    destruct (audio_index_some parts 0 Hsomeaudio) as (Hk & p & Hp & Ha).
    rewrite Z.sub_0_r in Hp.
    exists (sent now
              (API.mkFrame "conversation.item.truncate"
                 (API.TruncateData i (audio_index parts 0) ms))
              (sent now cancel_frame c0)),
           (Z.to_nat (audio_index parts 0)), p.
    rewrite Z2Nat.id by done. split; [|split; [|done]].
    + rewrite Hsome, Hget by done. rewrite decide_False by (by intros []).
      rewrite Hrole. unfold require at 1. unfold proc_bind at 1, proc_ret at 1.
      rewrite decide_False by (by intros []).
      erewrite bind_ok by (by apply realtime_send_connected).
      rewrite Hparts. unfold require. unfold proc_bind at 1, proc_ret at 1.
      rewrite decide_False by lia. rewrite Hms. unfold lift.
      unfold proc_bind at 1, proc_ret at 1.
      erewrite bind_ok by (by apply realtime_send_connected). done.
    + rewrite !sent_wire, <- app_assoc. done.
Qed.

(** The conversion of sample counts: one second of samples is 1000 ms;
    16016 samples, 1001 ms exactly, come out as 1000 in binary64. *)
Lemma samples_to_ms_examples :
  samples_to_ms 0 = inr 0
  ∧ samples_to_ms 16000 = inr 1000
  ∧ samples_to_ms 8000 = inr 500
  ∧ samples_to_ms 16016 = inr 1000.
Proof. repeat split; vm_compute; reflexivity. Qed.

(** *** Answering a function call *)

Lemma create_response_connected (now : Z) (c : t) :
  is_connected c = true →
  ∃ c', create_response now c = (c', inr tt)
        ∧ wire c' = wire c ++ commit_frames c ++ [response_create_frame]
        ∧ is_connected c' = true.
Proof.
  intros H. destruct c as [[[w|] tr cl] cv tl sc [td|] [|b buf] wd task ns];
    try discriminate H;
    (eexists; split; [reflexivity|]; split; [|reflexivity]);
    unfold wire; simpl; by rewrite <- ?app_assoc.
Qed.

Lemma call_tool_connected (now : Z) (tool : Conversation.Tool) (c : t) :
  is_connected c = true →
  ∃ c', call_tool now tool c = (c', inr tt)
        ∧ wire c'
          = wire c
            ++ [output_frame (Conversation.tool_call_id tool) (answer c tool)]
            ++ commit_frames c ++ [response_create_frame]
        ∧ is_connected c' = true.
Proof.
  intros H. unfold call_tool.
  match goal with
  | |- ∃ c', proc_bind ?m _ _ = _ ∧ _ =>
      assert (m c = (sent now (output_frame (Conversation.tool_call_id tool)
                                 (answer c tool)) c, inr tt)) as Htry
  end.
  { unfold try_except, proc_bind, lift, get, raise, proc_ret, answer, tool_result,
      output_frame.
    destruct (loads _); [by rewrite realtime_send_connected|].
    destruct (dict_get _ _); [|by rewrite realtime_send_connected].
    destruct (handler _ _); [by rewrite realtime_send_connected|].
    destruct (dumps _); by rewrite realtime_send_connected. }
  destruct (create_response_connected now
              (sent now (output_frame (Conversation.tool_call_id tool)
                           (answer c tool)) c) H) as (c1 & Hcr & Hw & Hc1).
  exists (set_watchdog (Watchdog.reset_silence_timer now) c1).
  split; [|split; [|exact Hc1]].
  - erewrite bind_ok by exact Htry. erewrite bind_ok by exact Hcr. reflexivity.
  - change (wire (set_watchdog (Watchdog.reset_silence_timer now) c1))
      with (wire c1).
    rewrite Hw, sent_wire, <- app_assoc. reflexivity.
Qed.



End SessionController.

(** *** The properties on the sample client *)

Lemma disconnect_is_idempotent_witness :
  API.disconnect (API.mk None [] []) = API.mk None [] []
  ∧ Client.realtime (Client.disconnect Samples.offline_client) = Client.realtime Samples.offline_client.
Proof.
  destruct (disconnect_is_idempotent (API.mk None [] []) Samples.offline_client)
    as (Ha & _ & _ & _ & Hc & _).
  split; [apply Ha | apply Hc]; reflexivity.
Defined.

Lemma tool_registry_conflicts_witness :
  Client.add_tool 0 Samples.x_definition (Client.Callable Samples.failing_handler)
    (Samples.client Samples.ok_handler Conversation.clear)
  = (Samples.client Samples.ok_handler Conversation.clear,
     inl (ToolAlreadyAdded "x"))
  ∧ ∃ c1 c2,
      Client.remove_tool "x" (Samples.client Samples.ok_handler Conversation.clear)
        = (c1, inr tt)
      ∧ Client.add_tool 0 Samples.x_definition
          (Client.Callable Samples.failing_handler) c1
        = (c2, inr (Client.mkToolConfig Samples.x_definition Samples.failing_handler))
      ∧ dict_get "x" (Client.tools c2)
        = Some (Client.mkToolConfig Samples.x_definition Samples.failing_handler).
Proof.
  destruct (tool_registry_conflicts
              (Samples.client Samples.ok_handler Conversation.clear) 0 "x"
              Samples.x_definition eq_refl ltac:(discriminate))
    as (Hdup & _ & _ & Hre).
  split.
  - apply Hdup. by eexists.
  - destruct (Hre Samples.failing_handler ltac:(by eexists))
      as (c1 & c2 & H1 & _ & H2 & H3).
    by exists c1, c2.
Defined.


(** A failing cancellation that has sent a frame: the assistant message
    of this client has no audio part; the call fails, and the cancel frame
    is on the wire. *)
Lemma cancel_frame_sent_before_failure :
  (Client.cancel_response 0 (Some "a1") 0
     (Samples.client Samples.ok_handler Samples.text_only)).2
  = inl CancelNoAudio
  ∧ ClientNotions.wire (Samples.client Samples.ok_handler Samples.text_only) = []
  ∧ ClientNotions.wire
      (Client.cancel_response 0 (Some "a1") 0
         (Samples.client Samples.ok_handler Samples.text_only)).1
    = [ClientNotions.cancel_frame]
  ∧ ¬ (∀ e,
         (Client.cancel_response 0 (Some "a1") 0
            (Samples.client Samples.ok_handler Samples.text_only)).2 = inl e →
         ClientNotions.wire
           (Client.cancel_response 0 (Some "a1") 0
              (Samples.client Samples.ok_handler Samples.text_only)).1
         = ClientNotions.wire
             (Samples.client Samples.ok_handler Samples.text_only)).
Proof.
  assert ((Client.cancel_response 0 (Some "a1") 0
             (Samples.client Samples.ok_handler Samples.text_only)).2
          = inl CancelNoAudio) as H1 by (vm_compute; reflexivity).
  assert (ClientNotions.wire
            (Client.cancel_response 0 (Some "a1") 0
               (Samples.client Samples.ok_handler Samples.text_only)).1
          = [ClientNotions.cancel_frame]) as H2 by (vm_compute; reflexivity).
  split; [exact H1|]. split; [reflexivity|]. split; [exact H2|].
  intros H. specialize (H _ H1). rewrite H2 in H. discriminate H.
Qed.

Lemma cancel_response_frames_witness :
  ∃ c' k p,
    Client.cancel_response 0 (Some "a1") 16000
      (Samples.client Samples.ok_handler Samples.one_message)
    = (c', inr (Some Samples.stored_message))
    ∧ ClientNotions.wire c'
      = [ClientNotions.cancel_frame;
         API.mkFrame "conversation.item.truncate"
           (API.TruncateData "a1" (Z.of_nat k) 1000)]
    ∧ [Samples.text_part; Samples.audio_part] !! k = Some p
    ∧ Conversation.part_type p = "audio".
Proof.
  destruct (cancel_response_frames
              (Samples.client Samples.ok_handler Samples.one_message) 0 16000)
    as (_ & _ & _ & _ & _ & Hcut).
  apply (Hcut eq_refl "a1" Samples.stored_message
           [Samples.text_part; Samples.audio_part] 1000).
  - discriminate.
  - vm_compute; reflexivity.
  - reflexivity.
  - reflexivity.
  - reflexivity.
  - apply Exists_cons_tl, Exists_cons_hd. reflexivity.
  - vm_compute; reflexivity.
Defined.

(** C7, at the failing input.  The assistant message a1 of this client
    has its audio part at index 1, so the requirements of a cancellation
    hold.  Cancelling at 16016 samples sends the cancel and then the
    truncation with 1000 as its milliseconds, while the millisecond
    equivalent of 16016 samples at 16000 samples a second is 1001: the
    quotient 16016 / 16000 is rounded to the double just below 1.001, its
    product with 1000 stays below 1001, and the conversion to an integer
    drops the fraction.  At 16000 samples the code and the millisecond
    equivalent agree. *)
Theorem cancel_response_truncates_a_millisecond_short :
  Client.cancel_response 0 (Some "a1") 16016
    (Samples.client Samples.ok_handler Samples.one_message)
  = (ClientNotions.sent 0
       (API.mkFrame "conversation.item.truncate"
          (API.TruncateData "a1" 1 1000))
       (ClientNotions.sent 0 ClientNotions.cancel_frame
          (Client.set_watchdog (Watchdog.reset_silence_timer 0)
             (Samples.client Samples.ok_handler Samples.one_message))),
     inr (Some Samples.stored_message))
  ∧ ClientNotions.wire
      (Client.cancel_response 0 (Some "a1") 16016
         (Samples.client Samples.ok_handler Samples.one_message)).1
    = [ClientNotions.cancel_frame;
       API.mkFrame "conversation.item.truncate"
         (API.TruncateData "a1" 1 1000)]
  ∧ samples_to_ms 16016 = inr 1000
  ∧ millisecond_equivalent 16016 = 1001
  ∧ samples_to_ms 16000 = inr (millisecond_equivalent 16000).
Proof.
  split; [vm_compute; reflexivity|].
  split; [vm_compute; reflexivity|].
  split; [vm_compute; reflexivity|].
  split; reflexivity.
Qed.

(** ** More properties of the conversation store *)

Section StoreInvariants.

Import Conversation Notions StoreNotions.

(** *** Removal from a list *)

Lemma list_remove_Some (x : string) (l l' : list string) :
  list_remove x l = Some l' → l ≡ₚ x :: l'.
Proof.
  revert l'. induction l as [|y l IH]; intros l' H; simpl in H; [done|].
  case_decide as E.
  - by simplify_eq.
  - destruct (list_remove x l) as [l0|]; simplify_eq/=.
    rewrite (IH l0 eq_refl). apply Permutation_swap.
Qed.

Lemma list_remove_None (x : string) (l : list string) :
  list_remove x l = None → x ∉ l.
Proof.
  induction l as [|y l IH]; intros H; simpl in H; [apply not_elem_of_nil|].
  case_decide as E; [done|].
  destruct (list_remove x l); [done|].
  apply not_elem_of_cons. split; [done | by apply IH].
Qed.

Lemma list_remove_last (x : string) (l : list string) :
  x ∉ l → list_remove x (l ++ [x]) = Some l.
Proof.
  induction l as [|y l IH]; intros H; simpl.
  - by rewrite decide_True.
  - apply not_elem_of_cons in H as [Hne Hl].
    rewrite decide_False by done. by rewrite IH.
Qed.

(** *** What the steps of item creation keep *)

Lemma stable_ret {A} (R : Local → Local → Prop) `{!Reflexive R} (a : A) :
  stable R (proc_ret a).
Proof. intros s. simpl. reflexivity. Qed.

Lemma stable_raise {A} (R : Local → Local → Prop) `{!Reflexive R} (e : error) :
  stable R (@raise Local A e).
Proof. intros s. simpl. reflexivity. Qed.

Lemma stable_get (R : Local → Local → Prop) `{!Reflexive R} :
  stable R (@get Local).
Proof. intros s. simpl. reflexivity. Qed.

Lemma stable_require {A} (R : Local → Local → Prop) `{!Reflexive R}
    (k : string) (o : option A) :
  stable R (@require Local A k o).
Proof. destruct o; intros s; simpl; reflexivity. Qed.

Lemma stable_bind {A B} (R : Local → Local → Prop) `{!Transitive R}
    (m : Proc Local A) (k : A → Proc Local B) :
  stable R m → (∀ a, stable R (k a)) → stable R (proc_bind m k).
Proof.
  intros Hm Hk s. unfold proc_bind. specialize (Hm s).
  destruct (m s) as [s' [e|a]]; simpl in *; [done|].
  etrans; [exact Hm | apply Hk].
Qed.

Lemma stable_on_item (R : Local → Local → Prop) (f : Item → Item) :
  (∀ s, R s (f s.1, s.2)) → stable R (on_item f).
Proof. intros H s. apply H. Qed.

Lemma stable_on_store (R : Local → Local → Prop) (f : t → t) :
  (∀ s, R s (s.1, f s.2)) → stable R (on_store f).
Proof. intros H s. apply H. Qed.

#[local] Instance same_identity_refl : Reflexive same_identity.
Proof. by intros s. Qed.

#[local] Instance same_identity_trans : Transitive same_identity.
Proof. intros s1 s2 s3 [? ?] [? ?]. split; congruence. Qed.

Ltac stable_step :=
  repeat first
    [ apply stable_bind; [apply _ | | intros ?]
    | apply stable_get; apply _
    | apply stable_ret; apply _
    | apply stable_raise; apply _
    | apply stable_require; apply _
    | apply stable_on_item; intros ?; by split
    | apply stable_on_store; intros ?; by split ].

Lemma identity_append_texts (parts : list Part) :
  stable same_identity (append_texts parts).
Proof. induction parts as [|p parts IH]; simpl; stable_step. exact IH. Qed.

Lemma identity_created_steps :
  stable same_identity
    (merge_queued_speech >> merge_text_content >>
     merge_queued_transcript >> assign_status).
Proof.
  apply stable_bind; [apply _ | | intros _].
  { unfold merge_queued_speech. stable_step. destruct (_ !! _); stable_step. }
  apply stable_bind; [apply _ | | intros _].
  { unfold merge_text_content. stable_step.
    destruct (content _); [apply identity_append_texts | stable_step]. }
  apply stable_bind; [apply _ | | intros _].
  { unfold merge_queued_transcript. stable_step. destruct (_ !! _); stable_step. }
  unfold assign_status. stable_step.
  repeat case_decide; stable_step;
    try (destruct (queued_input_audio _) as [[|? ?]|]; stable_step).
  case_decide; stable_step.
  destruct (queued_input_audio _) as [[|? ?]|]; stable_step.
Qed.

(** *** Creation registers the item first *)

Lemma created_fresh (c : t) (raw : RawItem) :
  item_lookup c !! raw_id raw = None →
  ∃ it',
    item_lookup (process_item_created raw c).1
      = <[raw_id raw := it']> (item_lookup c)
    ∧ items (process_item_created raw c).1 = items c ++ [raw_id raw]
    ∧ id it' = raw_id raw ∧ type it' = raw_type raw.
Proof.
  intros H.
  pose proof (untouched_bind _ _ untouched_merge_queued_speech
    (λ _, untouched_bind _ _ untouched_merge_text_content
      (λ _, untouched_bind _ _ untouched_merge_queued_transcript
        (λ _, untouched_assign_status))) (copy_item raw, c)) as [Hl Hi].
  pose proof (identity_created_steps (copy_item raw, c)) as [Hid Hty].
  unfold process_item_created. simpl. rewrite H.
  rewrite bool_decide_eq_true_2 by done.
  simpl in *. destruct (proc_bind _ _ _) as [s r]. simpl in *.
  exists s.1. by rewrite Hl, Hi.
Qed.

Lemma created_registered (c : t) (raw : RawItem) (it : Item) :
  item_lookup c !! raw_id raw = Some it →
  item_lookup (process_item_created raw c).1 = item_lookup c
  ∧ items (process_item_created raw c).1 = items c.
Proof.
  intros H.
  pose proof (untouched_bind _ _ untouched_merge_queued_speech
    (λ _, untouched_bind _ _ untouched_merge_text_content
      (λ _, untouched_bind _ _ untouched_merge_queued_transcript
        (λ _, untouched_assign_status))) (copy_item raw, c)) as Hu.
  unfold process_item_created. simpl. rewrite H.
  rewrite bool_decide_eq_false_2 by done.
  simpl in Hu. destruct (proc_bind _ _ _) as [s r]. exact Hu.
Qed.

(** *** What an event can do to the items *)

Lemma update_part_keeps (ci : Z) (f : Part → error + Part) (item item1 : Item) :
  update_part ci f item = inr item1 →
  id item1 = id item ∧ type item1 = type item ∧ role item1 = role item
  ∧ status item1 = status item ∧ formatted item1 = formatted item.
Proof.
  unfold update_part. destruct (content item); [|done].
  destruct (_ ≫= _) as [[k p]|]; [|done].
  destruct (f p); [done|]. by intros [= <-].
Qed.

Lemma process_event_change (e : Event) (args : option bytes) (c : t) :
  Change e c (process_event e args c).1.
Proof.
  destruct e as [raw|i ms|i|i ci tr|i ms|i ms|r|r raw|[raw|]|i part|i ci d
                 |i ci d|i ci d|i d|ty], args as [buf|];
    simpl; try (by apply Unchanged).
  - destruct (item_lookup c !! raw_id raw) as [it|] eqn:E.
    + destruct (created_registered c raw it E). by apply Unchanged.
    + destruct (created_fresh c raw E) as (it' & ? & ? & ? & ?).
      by eapply Created.
  - unfold process_item_truncated.
    destruct (item_lookup c !! i) as [it|] eqn:E; [|by apply Unchanged].
    eapply Updated; eauto.
  - unfold process_item_deleted.
    destruct (item_lookup c !! i) as [it|] eqn:E; [|by apply Unchanged].
    eapply Deleted; eauto; simpl; by destruct (list_remove _ _).
  - unfold process_input_audio_transcription_completed.
    destruct (item_lookup c !! i) as [it|] eqn:E; [|by apply Unchanged].
    destruct (update_part _ _ _) as [err|it1] eqn:U; [by apply Unchanged|].
    apply update_part_keeps in U as (? & ? & ? & ? & ?).
    eapply Updated; eauto.
  - unfold process_speech_stopped.
    destruct (queued_speech_items c !! i); by apply Unchanged.
  - unfold process_response_created.
    destruct (response_lookup c !! _); by apply Unchanged.
  - unfold process_output_item_added.
    destruct (response_lookup c !! _); by apply Unchanged.
  - unfold process_output_item_done.
    destruct (item_lookup c !! raw_id raw) as [it|] eqn:E; [|by apply Unchanged].
    destruct (raw_status raw); [|by apply Unchanged].
    eapply Updated; eauto.
  - unfold process_content_part_added.
    destruct (item_lookup c !! i) as [it|] eqn:E; [|by apply Unchanged].
    destruct (content it); [|by apply Unchanged].
    eapply Updated; eauto.
  - unfold process_audio_transcript_delta.
    destruct (item_lookup c !! i) as [it|] eqn:E; [|by apply Unchanged].
    destruct (update_part _ _ _) as [err|it1] eqn:U; [by apply Unchanged|].
    apply update_part_keeps in U as (? & ? & ? & ? & ?).
    eapply Updated; eauto.
  - unfold process_audio_delta.
    destruct (item_lookup c !! i) as [it|] eqn:E; [|by apply Unchanged].
    destruct d as [v|]; [|by apply Unchanged].
    destruct (audio (formatted it)); [|by apply Unchanged].
    eapply Updated; eauto.
  - unfold process_text_delta.
    destruct (item_lookup c !! i) as [it|] eqn:E; [|by apply Unchanged].
    destruct (update_part _ _ _) as [err|it1] eqn:U; [by apply Unchanged|].
    apply update_part_keeps in U as (? & ? & ? & ? & ?).
    eapply Updated; eauto.
  - unfold process_function_call_arguments_delta.
    destruct (item_lookup c !! i) as [it|] eqn:E; [|by apply Unchanged].
    destruct (arguments it); [|by apply Unchanged].
    simpl. destruct (tool (formatted it)); eapply Updated; eauto.
Qed.

(** *** The store stays well formed *)

Lemma wf_clear : wf clear.
Proof.
  split; [apply NoDup_nil_2|]. split.
  - intros i. split; [by intros ?%elem_of_nil | by intros [? ?]].
  - intros i it H. done.
Qed.

Lemma change_keeps_well_formed (e : Event) (c c' : t) :
  Change e c c' → wf c → wf c'.
Proof.
  intros Hchange (Hnd & Hdom & Hid).
  destruct Hchange
    as [Hl Hi|i it it' _ Hit Hl Hi Hid' _ _ _|raw it' _ Hnone Hl Hi Hid' _
        |i it _ Hit Hl Hi]; unfold wf; rewrite Hl, Hi.
  - done.
  - split; [done|]. split.
    + intros j. rewrite Hdom. destruct (decide (i = j)) as [<-|Hne].
      * rewrite lookup_insert_eq, Hit. split; by eauto.
      * by rewrite lookup_insert_ne.
    + intros j x. destruct (decide (i = j)) as [<-|Hne].
      * rewrite lookup_insert_eq. intros [= <-]. rewrite Hid'. by apply Hid.
      * rewrite lookup_insert_ne by done. apply Hid.
  - assert (raw_id raw ∉ items c) as Hnotin.
    { rewrite Hdom, Hnone. by intros [? ?]. }
    split; [|split].
    + apply NoDup_app. split; [done|]. split; [|apply NoDup_singleton].
      intros j Hj ->%list_elem_of_singleton. done.
    + intros j. rewrite elem_of_app, list_elem_of_singleton, Hdom.
      destruct (decide (raw_id raw = j)) as [<-|Hne].
      * rewrite lookup_insert_eq. split; by eauto.
      * rewrite lookup_insert_ne by done. split; [|by eauto].
        by intros [?|?].
    + intros j x. destruct (decide (raw_id raw = j)) as [<-|Hne].
      * rewrite lookup_insert_eq. by intros [= <-].
      * rewrite lookup_insert_ne by done. apply Hid.
  - rewrite (Hid _ _ Hit).
    assert (i ∈ items c) as Hin by (apply Hdom; by eexists).
    destruct (list_remove i (items c)) as [l|] eqn:Hrm;
      [|by apply list_remove_None in Hrm].
    apply list_remove_Some in Hrm. simpl.
    rewrite Hrm in Hnd. apply NoDup_cons in Hnd as [Hil Hndl].
    split; [done|]. split.
    + intros j. destruct (decide (i = j)) as [<-|Hne].
      * rewrite lookup_delete_eq. split; [done | by intros [? ?]].
      * rewrite lookup_delete_ne by done. rewrite <- Hdom, Hrm.
        rewrite elem_of_cons. split; [by eauto | by intros [?|?]].
    + intros j x. destruct (decide (i = j)) as [<-|Hne].
      * by rewrite lookup_delete_eq.
      * rewrite lookup_delete_ne by done. apply Hid.
Qed.


(** Whatever event is processed, with whatever outcome, a well formed
    store stays well formed: the list of items has no duplicate, it names
    exactly the stored items, and each item is stored under its own id. *)
Theorem process_event_keeps_store_well_formed
    (e : Event) (args : option bytes) (c : t) :
  wf c → wf (process_event e args c).1.
Proof.
  intros H. eapply change_keeps_well_formed; [|exact H].
  apply process_event_change.
Qed.

Lemma wf_one_message : wf Samples.one_message.
Proof.
  change Samples.one_message
    with (process_event (ContentPartAdded "a1" Samples.audio_part) None
            (process_event (ContentPartAdded "a1" Samples.text_part) None
               (process_event (ItemCreated (Samples.assistant_message [])) None
                  clear).1).1).1.
  do 3 (eapply change_keeps_well_formed; [apply process_event_change|]).
  apply wf_clear.
Qed.

Lemma process_event_keeps_store_well_formed_witness :
  wf (process_event (ItemDeleted "a1") None Samples.one_message).1.
Proof.
  apply process_event_keeps_store_well_formed. apply wf_one_message.
Defined.

(** *** The frame of an event *)

(** In a well formed store, an event changes, adds or removes no item
    other than the one it is addressed to; an event that is addressed to
    no item changes none. *)
Theorem event_leaves_other_items
    (e : Event) (args : option bytes) (c : t) (j : string) :
  wf c →
  addressed e ≠ Some j →
  item_lookup (process_event e args c).1 !! j = item_lookup c !! j.
Proof.
  intros (_ & _ & Hid) Hj.
  destruct (process_event_change e args c)
    as [Hl _|i it it' Ha _ Hl _ _ _ _ _|raw it' -> _ Hl _ _ _|i it -> Hit Hl _];
    rewrite Hl.
  - done.
  - apply lookup_insert_ne. intros <-. by rewrite Ha in Hj.
  - apply lookup_insert_ne. by intros <-.
  - rewrite (Hid _ _ Hit). apply lookup_delete_ne. by intros <-.
Qed.

Lemma event_leaves_other_items_witness :
  item_lookup
    (process_event (TextDelta "a1" 0 "x") None Samples.one_message).1 !! "b2"
  = item_lookup Samples.one_message !! "b2".
Proof.
  apply event_leaves_other_items; [apply wf_one_message | discriminate].
Defined.

(** The id, the type, the role and the status of a stored item are
    changed by no event other than output_item.done; an item disappears
    only through item.deleted. *)
Theorem status_changes_only_when_output_item_done
    (e : Event) (args : option bytes) (c : t) (i : string) (it : Item) :
  item_lookup c !! i = Some it →
  (∀ r, e ≠ OutputItemDone r) →
  match item_lookup (process_event e args c).1 !! i with
  | Some it' =>
      id it' = id it ∧ type it' = type it ∧ role it' = role it
      ∧ status it' = status it
  | None => ∃ j, e = ItemDeleted j
  end.
Proof.
  intros Hit Hne.
  destruct (process_event_change e args c)
    as [Hl _|i0 it0 it' _ Hit0 Hl _ ? ? ? Hst|raw it' -> Hnone Hl _ _ _
        |i0 it0 -> _ Hl _]; rewrite Hl.
  - by rewrite Hit.
  - destruct (decide (i0 = i)) as [->|Hd].
    + rewrite lookup_insert_eq. rewrite Hit in Hit0. injection Hit0 as <-.
      destruct Hst as [?|[r ->]]; [done | by destruct (Hne r)].
    + rewrite lookup_insert_ne by done. by rewrite Hit.
  - rewrite lookup_insert_ne by (intros Heq; by rewrite Heq, Hit in Hnone).
    by rewrite Hit.
  - destruct (delete _ _ !! i) as [x|] eqn:E; [|by eexists].
    apply lookup_delete_Some in E as [_ E]. rewrite Hit in E. by injection E as <-.
Qed.

Lemma status_changes_only_when_output_item_done_witness :
  match item_lookup
          (process_event (ItemTruncated "a1" 0) None Samples.one_message).1 !! "a1"
  with
  | Some it' => status it' = Some "in_progress"
  | None => False
  end.
Proof.
  pose proof (status_changes_only_when_output_item_done
                (ItemTruncated "a1" 0) None Samples.one_message "a1"
                Samples.stored_message eq_refl ltac:(discriminate)) as H.
  destruct (item_lookup _ !! "a1") as [it'|].
  - destruct H as (_ & _ & _ & ->). reflexivity.
  - destruct H as [j H]. discriminate H.
Defined.

(** *** Creation and deletion *)

(** An item with a new id is registered whatever the outcome of its
    creation: it is in the index under its id and last in the list even
    when the processor raises, as it does for a message without role. *)
Theorem created_item_is_registered_even_on_error (c : t) (raw : RawItem) :
  item_lookup c !! raw_id raw = None →
  (∃ it',
     item_lookup (process_event (ItemCreated raw) None c).1 !! raw_id raw
       = Some it'
     ∧ id it' = raw_id raw ∧ type it' = raw_type raw
     ∧ items (process_event (ItemCreated raw) None c).1
       = items c ++ [raw_id raw])
  ∧ (raw_type raw = "message" → raw_role raw = None →
     raw_content raw = None →
     queued_speech_items c !! raw_id raw = None →
     (process_event (ItemCreated raw) None c).2 = inl (KeyError "role")).
Proof.
  intros H. split.
  - destruct (created_fresh c raw H) as (it' & Hl & Hi & ? & ?).
    exists it'. simpl. rewrite Hl, Hi. by rewrite lookup_insert_eq.
  - intros Hty Hrole Hcontent Hspeech. simpl.
    cbv [process_item_created proc_bind merge_queued_speech
         merge_text_content merge_queued_transcript assign_status get on_item
         on_store modify proc_ret require raise]. simpl.
    rewrite Hspeech. simpl. rewrite Hcontent. simpl.
    destruct (queued_transcript_items c !! raw_id raw); simpl;
      rewrite Hty; rewrite decide_True by done; by rewrite Hrole.
Qed.

Lemma created_item_is_registered_even_on_error_witness :
  (process_event
     (ItemCreated (mkRawItem "m1" "message" None None None None None None None))
     None clear).2 = inl (KeyError "role")
  ∧ items
      (process_event
         (ItemCreated (mkRawItem "m1" "message" None None None None None None None))
         None clear).1 = ["m1"].
Proof.
  destruct (created_item_is_registered_even_on_error clear
              (mkRawItem "m1" "message" None None None None None None None)
              eq_refl) as [(it' & _ & _ & _ & Hi) Hraise].
  split; [by apply Hraise | exact Hi].
Defined.

(** In a well formed store, deleting an item right after it was created
    under a new id succeeds and gives back the index and the list of items
    as they were before the creation. *)
Theorem delete_undoes_create (c : t) (raw : RawItem) :
  wf c →
  item_lookup c !! raw_id raw = None →
  ∃ it',
    (process_event (ItemDeleted (raw_id raw)) None
       (process_event (ItemCreated raw) None c).1).2 = inr (Some it', None)
    ∧ item_lookup
        (process_event (ItemDeleted (raw_id raw)) None
           (process_event (ItemCreated raw) None c).1).1 = item_lookup c
    ∧ items
        (process_event (ItemDeleted (raw_id raw)) None
           (process_event (ItemCreated raw) None c).1).1 = items c.
Proof.
  intros (_ & Hdom & _) H.
  destruct (created_fresh c raw H) as (it' & Hl & Hi & Hid & _).
  assert (raw_id raw ∉ items c) as Hnotin
    by (rewrite Hdom, H; by intros [? ?]).
  exists it'. simpl. set (c1 := (process_item_created raw c).1) in *.
  unfold process_item_deleted. rewrite Hl, lookup_insert_eq. simpl.
  rewrite Hi, Hid, (list_remove_last _ _ Hnotin). simpl.
  rewrite Hl, delete_insert_eq, delete_id by done. done.
Qed.

Lemma delete_undoes_create_witness :
  items
    (process_event (ItemDeleted "a1") None
       (process_event (ItemCreated (Samples.assistant_message [])) None clear).1).1
  = [].
Proof.
  destruct (delete_undoes_create clear (Samples.assistant_message [])
              wf_clear eq_refl) as (it' & _ & _ & Hi).
  exact Hi.
Defined.

End StoreInvariants.

(** ** Audio, speech segments and queues *)

Section StoreAudio.

Import Conversation Notions StoreNotions.

(** The end index of a span of milliseconds is sixteen samples per
    millisecond, without rounding. *)
Lemma end_index_exact (ms : Z) : (ms * default_frequency) `div` 1000 = 16 * ms.
Proof.
  unfold default_frequency. replace (ms * 16000) with (16 * ms * 1000) by lia.
  by rewrite Z.div_mul.
Qed.

Lemma py_slice_to_prefix {A} (l : list A) (stop : Z) :
  py_slice l None (Some stop) `prefix_of` l.
Proof.
  unfold py_slice. simpl. rewrite drop_0.
  eexists. symmetry. apply take_drop.
Qed.

Lemma py_slice_to_twice {A} (l : list A) (stop : Z) :
  0 ≤ stop →
  py_slice (py_slice l None (Some stop)) None (Some stop)
  = py_slice l None (Some stop).
Proof.
  intros H. unfold py_slice, py_clamp. simpl.
  rewrite !drop_0, length_take, take_take.
  destruct (decide (stop < 0)) as [?|_]; [lia|]. f_equal. lia.
Qed.

Lemma prefix_concat_length (x y : list bytes) :
  x `prefix_of` y → (length (concat x) ≤ length (concat y))%nat.
Proof. intros [k ->]. rewrite concat_app, length_app. lia. Qed.

(** Truncation, at any number of milliseconds, negative ones included,
    leaves an initial part of the audio that was there: nothing is added
    or reordered, and the audio does not grow.  At a number that is not
    negative it leaves the first [16 * ms] elements, or all of them if
    there are fewer, and truncating again at the same number changes
    nothing more. *)
Theorem truncation_keeps_a_prefix (c : t) (i : string) (it : Item) (ms : Z) :
  item_lookup c !! i = Some it →
  ∃ it',
    process_event (ItemTruncated i ms) None c
      = (set_item_lookup <[i := it']> c, inr (Some it', None))
    ∧ audio_prefix (audio (formatted it')) (audio (formatted it))
    ∧ (audio_bytes (audio (formatted it')) ≤ audio_bytes (audio (formatted it)))%nat
    ∧ text (formatted it') = text (formatted it)
    ∧ (0 ≤ ms →
       audio_len (audio (formatted it'))
         = Z.to_nat (Z.min (Z.of_nat (audio_len (audio (formatted it)))) (16 * ms))
       ∧ (process_event (ItemTruncated i ms) None
            (set_item_lookup <[i := it']> c)).2 = inr (Some it', None)).
Proof.
  intros H. simpl. unfold process_item_truncated. rewrite H.
  eexists. split; [reflexivity|]. simpl. rewrite end_index_exact.
  split; [|split; [|split; [done|]]].
  - destruct (audio (formatted it)); simpl; apply py_slice_to_prefix.
  - destruct (audio (formatted it)); simpl.
    + apply prefix_concat_length, py_slice_to_prefix.
    + apply prefix_length, py_slice_to_prefix.
  - intros Hms. split.
    + destruct (audio (formatted it)); simpl; apply py_slice_to_length; lia.
    + rewrite lookup_insert_eq.
      destruct it as [? ? ? ? ? ? ? ? ? [[l|b] tx tr tl o]];
        unfold set_formatted, set_audio, set_transcript, audio_slice_to;
        cbn -[py_slice]; by rewrite py_slice_to_twice by lia.
Qed.

Lemma truncation_keeps_a_prefix_witness :
  ∃ it',
    (process_event (ItemTruncated "a1" (-5)) None Samples.one_chunk).2
      = inr (Some it', None)
    ∧ (audio_bytes (audio (formatted it')) ≤ 32)%nat.
Proof.
  assert (∃ it, item_lookup Samples.one_chunk !! "a1" = Some it
                ∧ audio_bytes (audio (formatted it)) = 32%nat) as (it & Hit & Hb)
    by (eexists; split; vm_compute; reflexivity).
  destruct (truncation_keeps_a_prefix Samples.one_chunk "a1" it (-5) Hit)
    as (it' & Hrun & _ & Hle & _).
  exists it'. rewrite Hrun. split; [reflexivity|]. by rewrite <- Hb.
Defined.

(** A speech segment that is started and then stopped against a buffer
    that is long enough holds the samples of the buffer from index
    [16 * start] up to index [16 * end], and no item is touched; stopping
    a segment that was not started raises a key error. *)
Theorem speech_segment_is_cut_from_the_buffer
    (c : t) (i : string) (s e : Z) (buf : bytes) :
  0 ≤ s ≤ e →
  16 * e ≤ Z.of_nat (length buf) →
  buf ≠ [] →
  (process_event (SpeechStopped i e) (Some buf)
     (process_event (SpeechStarted i s) None c).1).2 = inr (None, None)
  ∧ queued_speech_items
      (process_event (SpeechStopped i e) (Some buf)
         (process_event (SpeechStarted i s) None c).1).1 !! i
    = Some (mkSpeech s (Some e)
              (Some (drop (Z.to_nat (16 * s)) (take (Z.to_nat (16 * e)) buf))))
  ∧ length (drop (Z.to_nat (16 * s)) (take (Z.to_nat (16 * e)) buf))
    = Z.to_nat (16 * (e - s))
  ∧ item_lookup
      (process_event (SpeechStopped i e) (Some buf)
         (process_event (SpeechStarted i s) None c).1).1 = item_lookup c
  ∧ (queued_speech_items c !! i = None →
     process_event (SpeechStopped i e) (Some buf) c = (c, inl (KeyError i))).
Proof.
  intros Hse Hlen Hbuf. simpl.
  unfold process_speech_stopped, process_speech_started. simpl.
  rewrite lookup_insert_eq.
  assert (py_slice buf (Some (16 * s)) (Some (16 * e))
          = drop (Z.to_nat (16 * s)) (take (Z.to_nat (16 * e)) buf)) as Hslice.
  { unfold py_slice, py_clamp. cbn [from_option].
    rewrite !decide_False by lia. by rewrite !Z.min_l by lia. }
  cbn [audio_start_ms]. rewrite !end_index_exact, Hslice.
  split; [done|]. split.
  { destruct buf; [done|]. cbn [fst]. unfold set_queued_speech_items at 1.
    cbn [queued_speech_items]. by rewrite lookup_insert_eq. }
  split; [|split; [done|]].
  - rewrite length_drop, length_take. lia.
  - by intros ->.
Qed.

Lemma speech_segment_is_cut_from_the_buffer_witness :
  length (drop (Z.to_nat (16 * 1)) (take (Z.to_nat (16 * 3)) (replicate 64 Byte.x00)))
  = 32%nat.
Proof.
  destruct (speech_segment_is_cut_from_the_buffer clear "u1" 1 3
              (replicate 64 Byte.x00) ltac:(lia)
              ltac:(vm_compute; discriminate) ltac:(discriminate))
    as (_ & _ & Hlen & _).
  exact Hlen.
Defined.

(** *** Audio deltas *)

Lemma audio_deltas_fold (ds : list bytes) :
  ∀ (c : t) (i : string) (it : Item) (chunks : list bytes),
    item_lookup c !! i = Some it →
    audio (formatted it) = AudioList chunks →
    ∃ c' outs it',
      process_events (audio_deltas i ds) c = (c', inr outs)
      ∧ item_lookup c' !! i = Some it'
      ∧ audio (formatted it') = AudioList (chunks ++ ds)
      ∧ text (formatted it') = text (formatted it)
      ∧ transcript (formatted it') = transcript (formatted it).
Proof.
  induction ds as [|d ds IH]; intros c i it chunks Hit Ha.
  - exists c, [], it. rewrite app_nil_r. by repeat split.
  - set (it1 := set_formatted (set_audio (AudioList (chunks ++ [d]))) it).
    assert (process_event (AudioDelta i 0 (Some d)) None c
            = (set_item_lookup <[i := it1]> c, inr (Some it1, Some (DeltaAudio d))))
      as Hstep.
    { simpl. unfold process_audio_delta. by rewrite Hit, Ha. }
    destruct (IH (set_item_lookup <[i := it1]> c) i it1 (chunks ++ [d]))
      as (c' & outs & it' & Hrun & Hl & Haudio & Ht & Htr).
    { simpl. apply lookup_insert_eq. }
    { done. }
    exists c', ((Some it1, Some (DeltaAudio d)) :: outs), it'.
    split; [|split; [done|split; [|done]]].
    + simpl audio_deltas. eapply process_events_cons; [exact Hstep | exact Hrun].
    + by rewrite Haudio, <- app_assoc.
Qed.

(** Audio deltas to an item whose audio is the list of chunks are all
    processed, and append their chunks in order, so that the audio grows
    by the bytes of the deltas; the text and the transcript are left
    alone.  On an item whose audio is a byte buffer, as a user message
    that took the queued input audio, an audio delta raises a type error
    and changes nothing; so does, with a value error, a delta that does
    not decode. *)
Theorem audio_deltas_append_in_order
    (c : t) (i : string) (it : Item) (ds : list bytes) :
  item_lookup c !! i = Some it →
  (∀ chunks, audio (formatted it) = AudioList chunks →
     ∃ c' outs it',
       process_events (audio_deltas i ds) c = (c', inr outs)
       ∧ item_lookup c' !! i = Some it'
       ∧ audio (formatted it') = AudioList (chunks ++ ds)
       ∧ audio_bytes (audio (formatted it'))
         = (audio_bytes (audio (formatted it)) + length (concat ds))%nat
       ∧ text (formatted it') = text (formatted it)
       ∧ transcript (formatted it') = transcript (formatted it))
  ∧ (∀ b ci d, audio (formatted it) = AudioBuffer b →
       process_event (AudioDelta i ci (Some d)) None c = (c, inl TypeError))
  ∧ (∀ ci, process_event (AudioDelta i ci None) None c = (c, inl ValueError)).
Proof.
  intros Hit. split; [|split].
  - intros chunks Ha.
    destruct (audio_deltas_fold ds c i it chunks Hit Ha)
      as (c' & outs & it' & Hrun & Hl & Haudio & Ht & Htr).
    exists c', outs, it'. repeat split; try done.
    rewrite Haudio, Ha. simpl. by rewrite concat_app, length_app.
  - intros b ci d Ha. simpl. unfold process_audio_delta. by rewrite Hit, Ha.
  - intros ci. simpl. unfold process_audio_delta. by rewrite Hit.
Qed.

Lemma audio_deltas_append_in_order_witness :
  ∃ c' outs it',
    process_events (audio_deltas "a1" [Samples.chunk32; Samples.chunk32])
      Samples.one_message = (c', inr outs)
    ∧ item_lookup c' !! "a1" = Some it'
    ∧ audio_bytes (audio (formatted it')) = 64%nat.
Proof.
  destruct (audio_deltas_append_in_order Samples.one_message "a1"
              Samples.stored_message [Samples.chunk32; Samples.chunk32] eq_refl)
    as [H _].
  destruct (H [] eq_refl) as (c' & outs & it' & Hrun & Hl & _ & Hb & _).
  exists c', outs, it'. split; [exact Hrun|]. split; [exact Hl|]. exact Hb.
Defined.

(** *** Deltas of function call arguments *)

Lemma arguments_deltas_fold (ds : list string) :
  ∀ (c : t) (i : string) (it : Item) (a : string) (tl : Tool),
    item_lookup c !! i = Some it →
    arguments it = Some a →
    tool (formatted it) = Some tl →
    ∃ c' outs it',
      process_events (arguments_deltas i ds) c = (c', inr outs)
      ∧ item_lookup c' !! i = Some it'
      ∧ arguments it' = Some (a +:+ concat_strings ds)
      ∧ tool (formatted it')
        = Some (mkTool (tool_type tl) (tool_name tl) (tool_call_id tl)
                  (tool_arguments tl +:+ concat_strings ds)).
Proof.
  induction ds as [|d ds IH]; intros c i it a tl Hit Ha Htl.
  - exists c, [], it. simpl. rewrite !append_empty_r.
    repeat split; [done|done|]. rewrite Htl. by destruct tl.
  - set (tl1 := mkTool (tool_type tl) (tool_name tl) (tool_call_id tl)
                  (tool_arguments tl +:+ d)).
    set (it1 := set_formatted (set_tool tl1) (set_arguments (a +:+ d) it)).
    assert (process_event (FunctionCallArgumentsDelta i d) None c
            = (set_item_lookup <[i := it1]> c,
               inr (Some it1, Some (DeltaArguments d)))) as Hstep.
    { simpl. unfold process_function_call_arguments_delta.
      rewrite Hit, Ha. simpl. by rewrite Htl. }
    destruct (IH (set_item_lookup <[i := it1]> c) i it1 (a +:+ d) tl1)
      as (c' & outs & it' & Hrun & Hl & Hargs & Htool).
    { simpl. apply lookup_insert_eq. }
    { done. }
    { done. }
    exists c', ((Some it1, Some (DeltaArguments d)) :: outs), it'.
    split; [|split; [done|split]].
    + simpl arguments_deltas.
      eapply process_events_cons; [exact Hstep | exact Hrun].
    + rewrite Hargs. simpl. by rewrite append_assoc.
    + rewrite Htool. simpl. by rewrite append_assoc.
Qed.

(** For a function call item, with its arguments and its tool descriptor
    as creation made them, the deltas of the arguments are all processed
    and are appended in order both to the arguments of the item and to the
    arguments of the descriptor, whose name and call id stay; the status
    stays too.  An item that has no arguments raises a key error and is
    left as it was. *)
Theorem arguments_deltas_reach_the_tool_descriptor
    (c : t) (i : string) (it : Item) (ds : list string) :
  item_lookup c !! i = Some it →
  (∀ a tl, arguments it = Some a → tool (formatted it) = Some tl →
     ∃ c' outs it',
       process_events (arguments_deltas i ds) c = (c', inr outs)
       ∧ item_lookup c' !! i = Some it'
       ∧ arguments it' = Some (a +:+ concat_strings ds)
       ∧ tool (formatted it')
         = Some (mkTool (tool_type tl) (tool_name tl) (tool_call_id tl)
                   (tool_arguments tl +:+ concat_strings ds)))
  ∧ (arguments it = None →
     ∀ d, process_event (FunctionCallArgumentsDelta i d) None c
          = (c, inl (KeyError "arguments"))).
Proof.
  intros Hit. split.
  - intros a tl Ha Htl. exact (arguments_deltas_fold ds c i it a tl Hit Ha Htl).
  - intros Ha d. simpl. unfold process_function_call_arguments_delta.
    by rewrite Hit, Ha.
Qed.

Lemma arguments_deltas_reach_the_tool_descriptor_witness :
  ∃ c' outs it',
    process_events (arguments_deltas "f1" ["{"; "}"])
      (process_events [ItemCreated Samples.function_call] clear).1
    = (c', inr outs)
    ∧ item_lookup c' !! "f1" = Some it'
    ∧ tool (formatted it') = Some (mkTool "function" "x" "call_1" "{}").
Proof.
  assert (∃ it, item_lookup (process_events [ItemCreated Samples.function_call]
                               clear).1 !! "f1" = Some it
                ∧ arguments it = Some EmptyString
                ∧ tool (formatted it)
                  = Some (mkTool "function" "x" "call_1" EmptyString))
    as (it & Hit & Ha & Htl) by (eexists; repeat split; vm_compute; reflexivity).
  destruct (arguments_deltas_reach_the_tool_descriptor _ "f1" it ["{"; "}"] Hit)
    as [H _].
  destruct (H _ _ Ha Htl) as (c' & outs & it' & Hrun & Hl & _ & Htool).
  exists c', outs, it'. split; [exact Hrun|]. split; [exact Hl|]. exact Htool.
Defined.

(** *** Responses *)

Lemma output_items_added_fold (raws : list RawItem) :
  ∀ (c : t) (r : string) (resp : Response),
    response_lookup c !! r = Some resp →
    ∃ c' outs,
      process_events (output_items_added r raws) c = (c', inr outs)
      ∧ response_lookup c' !! r
        = Some (mkResponse (response_id resp)
                  (response_output resp ++ map raw_id raws))
      ∧ item_lookup c' = item_lookup c
      ∧ items c' = items c
      ∧ responses c' = responses c.
Proof.
  induction raws as [|raw raws IH]; intros c r resp Hr.
  - exists c, []. simpl. rewrite app_nil_r. split; [done|]. split; [|done].
    rewrite Hr. by destruct resp.
  - set (resp1 := mkResponse (response_id resp) (response_output resp ++ [raw_id raw])).
    assert (process_event (OutputItemAdded r raw) None c
            = (set_response_lookup <[r := resp1]> c, inr (None, None))) as Hstep.
    { simpl. unfold process_output_item_added. by rewrite Hr. }
    destruct (IH (set_response_lookup <[r := resp1]> c) r resp1)
      as (c' & outs & Hrun & Hl & Hil & Hi & Hrs).
    { simpl. apply lookup_insert_eq. }
    exists c', ((None, None) :: outs).
    split; [|split; [|done]].
    + simpl output_items_added.
      eapply process_events_cons; [exact Hstep | exact Hrun].
    + rewrite Hl. simpl. by rewrite <- app_assoc.
Qed.

(** For a response that is registered, the item ids of the
    output_item.added events are appended to its output in order of
    arrival, and nothing else of the store is touched; a second
    response.created with the same id changes nothing, the response first
    registered stays; for a response that is not registered
    output_item.added fails with a not-found error. *)
Theorem response_output_lists_items_in_order
    (c : t) (r : string) (raws : list RawItem) :
  (∀ resp, response_lookup c !! r = Some resp →
     (∃ c' outs,
        process_events (output_items_added r raws) c = (c', inr outs)
        ∧ response_lookup c' !! r
          = Some (mkResponse (response_id resp)
                    (response_output resp ++ map raw_id raws))
        ∧ item_lookup c' = item_lookup c
        ∧ items c' = items c
        ∧ responses c' = responses c)
     ∧ ∀ out, process_event (ResponseCreated (mkResponse r out)) None c
              = (c, inr (None, None)))
  ∧ (response_lookup c !! r = None →
     (∀ raw, process_event (OutputItemAdded r raw) None c
             = (c, inl (ResponseNotFound r))
             ∧ classify (ResponseNotFound r) = NotFound)
     ∧ ∀ out,
         response_lookup
           (process_event (ResponseCreated (mkResponse r out)) None c).1 !! r
         = Some (mkResponse r out)
         ∧ responses (process_event (ResponseCreated (mkResponse r out)) None c).1
           = responses c ++ [r]).
Proof.
  split.
  - intros resp Hr. split; [by apply output_items_added_fold|].
    intros out. simpl. unfold process_response_created. simpl. by rewrite Hr.
  - intros Hr. split.
    + intros raw. simpl. unfold process_output_item_added. by rewrite Hr.
    + intros out. simpl. unfold process_response_created. simpl. rewrite Hr.
      simpl. by rewrite lookup_insert_eq.
Qed.

Lemma response_output_lists_items_in_order_witness :
  ∃ c' outs,
    process_events
      (output_items_added "r1" [Samples.assistant_message []; Samples.function_call])
      (process_events [ResponseCreated (mkResponse "r1" [])] clear).1
    = (c', inr outs)
    ∧ response_lookup c' !! "r1" = Some (mkResponse "r1" ["a1"; "f1"]).
Proof.
  destruct (response_output_lists_items_in_order
              (process_events [ResponseCreated (mkResponse "r1" [])] clear).1 "r1"
              [Samples.assistant_message []; Samples.function_call]) as [H _].
  destruct (H (mkResponse "r1" []) eq_refl) as [(c' & outs & Hrun & Hl & _) _].
  exists c', outs. split; [exact Hrun | exact Hl].
Defined.

(** *** What creation takes from the queues *)

Lemma no_text_filter (parts : list Part) :
  no_text_part parts →
  filter (λ c, part_type c ∈ ["text"; "input_text"]) parts = [].
Proof.
  induction 1 as [|p parts Hp _ IH]; [done|]. by rewrite filter_cons_False.
Qed.

Lemma speech_merged (s : Local) (sp : Speech) (a : bytes) :
  queued_speech_items s.2 !! id s.1 = Some sp →
  speech_audio sp = Some a →
  merge_queued_speech s
  = ((set_formatted (set_audio (AudioBuffer a)) s.1,
      set_queued_speech_items (delete (id s.1)) s.2), inr tt).
Proof.
  intros H Ha. unfold merge_queued_speech, proc_bind at 1, get. rewrite H.
  unfold proc_bind at 1, require. by rewrite Ha.
Qed.

Lemma speech_not_merged (s : Local) :
  queued_speech_items s.2 !! id s.1 = None →
  merge_queued_speech s = (s, inr tt).
Proof.
  intros H. unfold merge_queued_speech, proc_bind, get. by rewrite H.
Qed.

Lemma speech_without_audio (s : Local) (sp : Speech) :
  queued_speech_items s.2 !! id s.1 = Some sp →
  speech_audio sp = None →
  merge_queued_speech s = (s, inl (KeyError "audio")).
Proof.
  intros H Ha. unfold merge_queued_speech, proc_bind at 1, get. rewrite H.
  unfold proc_bind at 1, require. by rewrite Ha.
Qed.

Lemma no_text_merged (s : Local) (parts : list Part) :
  content s.1 = Some parts → no_text_part parts →
  merge_text_content s = (s, inr tt).
Proof.
  intros H Hp. unfold merge_text_content, proc_bind, get. rewrite H.
  by rewrite (no_text_filter parts Hp).
Qed.

Lemma transcript_merged (s : Local) (tr : string) :
  queued_transcript_items s.2 !! id s.1 = Some tr →
  merge_queued_transcript s
  = ((set_formatted (set_transcript tr) s.1,
      set_queued_transcript_items (delete (id s.1)) s.2), inr tt).
Proof.
  intros H. unfold merge_queued_transcript, proc_bind at 1, get. by rewrite H.
Qed.

Lemma transcript_not_merged (s : Local) :
  queued_transcript_items s.2 !! id s.1 = None →
  merge_queued_transcript s = (s, inr tt).
Proof.
  intros H. unfold merge_queued_transcript, proc_bind, get. by rewrite H.
Qed.

Lemma user_status_assigned (s : Local) :
  type s.1 = "message" → role s.1 = Some "user" →
  queued_input_audio s.2 = None →
  assign_status s = ((set_status "completed" s.1, s.2), inr tt).
Proof.
  intros Hty Hrole Hq. unfold assign_status, proc_bind at 1, get.
  rewrite decide_True by done. rewrite Hrole.
  unfold require, proc_bind at 1, proc_ret at 1. rewrite decide_True by done.
  unfold proc_bind at 1, on_item, modify, merge_queued_input_audio, proc_bind, get.
  simpl. by rewrite Hq.
Qed.

Lemma user_message_created (c : t) (raw : RawItem) (parts : list Part) :
  item_lookup c !! raw_id raw = None →
  raw_type raw = "message" →
  raw_role raw = Some "user" →
  raw_content raw = Some parts →
  no_text_part parts →
  queued_input_audio c = None →
  (∀ sp, queued_speech_items c !! raw_id raw = Some sp →
         is_Some (speech_audio sp)) →
  ∃ it c',
    process_item_created raw c = (c', inr (Some it, None))
    ∧ item_lookup c' !! raw_id raw = Some it
    ∧ audio (formatted it)
      = from_option AudioBuffer (AudioList [])
          (queued_speech_items c !! raw_id raw ≫= speech_audio)
    ∧ transcript (formatted it)
      = default EmptyString (queued_transcript_items c !! raw_id raw)
    ∧ status it = Some "completed"
    ∧ queued_speech_items c' !! raw_id raw = None
    ∧ queued_transcript_items c' !! raw_id raw = None.
Proof.
  intros Hfresh Hty Hrole Hcontent Hparts Hq Hsp.
  unfold process_item_created.
  rewrite bool_decide_eq_true_2 by done.
  destruct (queued_speech_items c !! raw_id raw) as [sp|] eqn:Hs;
    [destruct (Hsp sp eq_refl) as [a Ha];
     erewrite bind_ok by (by eapply speech_merged)
    |erewrite bind_ok by (by apply speech_not_merged)];
    (erewrite bind_ok by (by eapply no_text_merged));
    (destruct (queued_transcript_items c !! raw_id raw) as [tr|] eqn:Ht;
     [erewrite bind_ok by (by eapply transcript_merged)
     |erewrite bind_ok by (by apply transcript_not_merged)]);
    rewrite user_status_assigned by done;
    do 2 eexists; (split; [reflexivity|]); simpl;
    rewrite ?lookup_insert_eq, ?lookup_delete_eq, ?Hs, ?Ht, ?Ha; done.
Qed.

(** A user message that is created under a new id, with no text part and
    no queued input audio, takes what is queued for its id: the audio of
    the speech segment and the transcript.  It is returned completed, it
    is stored, and the two queue entries are gone, so that nothing is
    merged twice.  A queued segment that has no audio, because it was
    never stopped or was stopped against an empty buffer, makes the
    creation raise a key error instead, and stays queued. *)
Theorem creation_takes_what_is_queued
    (c : t) (raw : RawItem) (parts : list Part) :
  item_lookup c !! raw_id raw = None →
  raw_type raw = "message" →
  raw_role raw = Some "user" →
  raw_content raw = Some parts →
  no_text_part parts →
  queued_input_audio c = None →
  (∀ sp a tr,
     queued_speech_items c !! raw_id raw = Some sp →
     speech_audio sp = Some a →
     queued_transcript_items c !! raw_id raw = Some tr →
     ∃ it c',
       process_event (ItemCreated raw) None c = (c', inr (Some it, None))
       ∧ item_lookup c' !! raw_id raw = Some it
       ∧ audio (formatted it) = AudioBuffer a
       ∧ transcript (formatted it) = tr
       ∧ status it = Some "completed"
       ∧ queued_speech_items c' !! raw_id raw = None
       ∧ queued_transcript_items c' !! raw_id raw = None)
  ∧ (∀ sp,
       queued_speech_items c !! raw_id raw = Some sp →
       speech_audio sp = None →
       (process_event (ItemCreated raw) None c).2 = inl (KeyError "audio")
       ∧ queued_speech_items (process_event (ItemCreated raw) None c).1
           !! raw_id raw = Some sp).
Proof.
  intros Hfresh Hty Hrole Hcontent Hparts Hq. split.
  - intros sp a tr Hs Ha Ht.
    destruct (user_message_created c raw parts Hfresh Hty Hrole Hcontent Hparts Hq)
      as (it & c' & Hrun & Hl & Haudio & Htr & Hst & Hqs & Hqt).
    { intros sp' Hs'. rewrite Hs in Hs'. injection Hs' as <-. by eexists. }
    exists it, c'. rewrite Hs in Haudio. simpl in Haudio.
    rewrite Ha in Haudio. rewrite Ht in Htr. by repeat split.
  - intros sp Hs Ha. simpl. unfold process_item_created.
    rewrite bool_decide_eq_true_2 by done.
    erewrite bind_err by (by eapply speech_without_audio). by split.
Qed.

Lemma creation_takes_what_is_queued_witness :
  ∃ it c',
    process_event (ItemCreated Samples.spoken_message) None Samples.queued_for_u1
    = (c', inr (Some it, None))
    ∧ audio (formatted it) = AudioBuffer Samples.chunk32
    ∧ transcript (formatted it) = "hello".
Proof.
  destruct (creation_takes_what_is_queued Samples.queued_for_u1
              Samples.spoken_message []
              ltac:(vm_compute; reflexivity) eq_refl eq_refl eq_refl
              ltac:(constructor) eq_refl)
    as [H _].
  destruct (H Samples.heard_segment Samples.chunk32 "hello"
              ltac:(vm_compute; reflexivity) eq_refl
              ltac:(vm_compute; reflexivity))
    as (it & c' & Hrun & _ & Ha & Ht & _).
  by exists it, c'.
Defined.

(** A transcript that arrives for an item that is not yet in the store is
    queued, an empty one as a single space; the user message later created
    under that id has it as formatted transcript, and the queue entry is
    gone. *)
Theorem early_transcript_waits_for_its_item
    (c : t) (raw : RawItem) (parts : list Part) (ci : Z) (tr : string) :
  item_lookup c !! raw_id raw = None →
  raw_type raw = "message" →
  raw_role raw = Some "user" →
  raw_content raw = Some parts →
  no_text_part parts →
  queued_input_audio c = None →
  queued_speech_items c !! raw_id raw = None →
  ∃ c1 it c2,
    process_event (InputAudioTranscriptionCompleted (raw_id raw) ci tr) None c
      = (c1, inr (None, None))
    ∧ item_lookup c1 = item_lookup c
    ∧ process_event (ItemCreated raw) None c1 = (c2, inr (Some it, None))
    ∧ item_lookup c2 !! raw_id raw = Some it
    ∧ transcript (formatted it) = str_or tr " "
    ∧ queued_transcript_items c2 !! raw_id raw = None.
Proof.
  intros Hfresh Hty Hrole Hcontent Hparts Hq Hs.
  set (c1 := set_queued_transcript_items <[raw_id raw := str_or tr " "]> c).
  destruct (user_message_created c1 raw parts Hfresh Hty Hrole Hcontent Hparts Hq)
    as (it & c2 & Hrun & Hl & _ & Htr & _ & _ & Hqt).
  { intros sp Hsp. simpl in Hsp. by rewrite Hs in Hsp. }
  exists c1, it, c2. split; [|split; [done|split; [exact Hrun|]]].
  - simpl. unfold process_input_audio_transcription_completed. by rewrite Hfresh.
  - split; [done|]. split; [|done].
    rewrite Htr. simpl. by rewrite lookup_insert_eq.
Qed.

Lemma early_transcript_waits_for_its_item_witness :
  ∃ c1 it c2,
    process_event (InputAudioTranscriptionCompleted "u1" 0 EmptyString) None clear
      = (c1, inr (None, None))
    ∧ process_event (ItemCreated Samples.spoken_message) None c1
      = (c2, inr (Some it, None))
    ∧ transcript (formatted it) = " ".
Proof.
  destruct (early_transcript_waits_for_its_item clear Samples.spoken_message
              [] 0 EmptyString
              ltac:(vm_compute; reflexivity) eq_refl eq_refl eq_refl
              ltac:(constructor) eq_refl ltac:(vm_compute; reflexivity))
    as (c1 & it & c2 & H1 & _ & H2 & _ & Ht & _).
  by exists c1, it, c2.
Defined.

End StoreAudio.

(** ** More properties of the silence watchdog *)

Section WatchdogTimers.

Import Watchdog SessionNotions.

Lemma timer_cancel_lookup (h k : nat) (ts : list Timer) (t : Timer) :
  timer_cancel h ts !! k = Some t →
  (k = h ∧ cancelled t = true)
  ∨ (k ≠ h ∧ ts !! k = Some t).
Proof.
  unfold timer_cancel. destruct (decide (k = h)) as [->|Hne].
  - rewrite list_lookup_alter_eq. destruct (ts !! h); [|done].
    intros [= <-]. by left.
  - rewrite list_lookup_alter_ne by done. by right.
Qed.

(** Once the timer held is cancelled, no timer of a tidy watchdog is
    left running. *)
Lemma tidy_all_cancelled (w : t) (k : nat) (x : Timer) :
  tidy w →
  match silence_timer w with
  | Some h => timer_cancel h (timers w)
  | None => timers w
  end !! k = Some x →
  cancelled x = true.
Proof.
  intros [Hlive _] Hk. destruct (silence_timer w) as [h|] eqn:Hh.
  - apply timer_cancel_lookup in Hk as [[_ ?]|[Hne Hk]]; [done|].
    destruct (cancelled x) eqn:E; [done|].
    specialize (Hlive k x Hk E). congruence.
  - destruct (cancelled x) eqn:E; [done|].
    specialize (Hlive k x Hk E). congruence.
Qed.

Lemma tidy_started (to la : Z) (ac tg : bool) (lp : option Loop)
    (ts : list Timer) (tm : list Termination) (i now : Z) :
  (∀ k x, ts !! k = Some x → cancelled x = true) →
  ac = true →
  tidy (mk to (Some (length ts)) la ac tg lp (ts ++ [mkTimer i now false]) tm).
Proof.
  intros Hall Hac. split; simpl; [|by rewrite Hac].
  intros k x Hk Hx.
  apply lookup_app_Some in Hk as [Hk|[Hge Hk]].
  - rewrite (Hall k x Hk) in Hx. done.
  - destruct (k - length ts)%nat eqn:E; [|done]. f_equal. lia.
Qed.

Lemma tidy_stopped (to la : Z) (tg : bool) (lp : option Loop)
    (ts : list Timer) (tm : list Termination) :
  (∀ k x, ts !! k = Some x → cancelled x = true) →
  tidy (mk to None la false tg lp ts tm).
Proof.
  intros Hall. split; simpl; [|done].
  intros k x Hk Hx. rewrite (Hall k x Hk) in Hx. done.
Qed.

Lemma call_keeps_tidy (k : Call) (w : t) : tidy w → tidy (call k w).
Proof.
  intros Hw. pose proof (tidy_all_cancelled w) as Hall.
  pose proof Hw as [Hlive Hoff].
  destruct k as [now l| |now|now|]; simpl.
  - unfold start_silence_detection.
    destruct (silence_detection_active w) eqn:Ha; [exact Hw|].
    destruct l as [l|]; [|exact Hw].
    unfold schedule_silence_timer, timer_start. simpl.
    apply tidy_started; [|done]. intros k x Hk.
    apply (Hall k x); [exact Hw|]. by rewrite (Hoff eq_refl).
  - unfold stop_silence_detection.
    destruct (silence_timer w) as [h|] eqn:Hh; apply tidy_stopped;
      intros k x Hk; apply (Hall k x); try exact Hw; by rewrite ?Hh.
  - unfold reset_silence_timer.
    destruct (silence_detection_active w) eqn:Ha; simpl; [|exact Hw].
    destruct (timeout_triggered w) eqn:Ht; simpl; [exact Hw|].
    unfold schedule_silence_timer, timer_start. simpl. rewrite ?Ha, ?Ht. simpl.
    apply tidy_started; [|done]. intros k x Hk. by apply (Hall k x).
  - unfold handle_silence_timeout.
    destruct (negb _ || _); [exact Hw|]. case_decide; [|exact Hw].
    apply tidy_stopped. intros k x Hk. by apply (Hall k x).
  - unfold clear_latch. split; simpl; [exact Hlive | exact Hoff].
Qed.

(** Whatever the client and the timer threads call on the watchdog, in
    whatever order, from its initial state on: at most one of the timers
    it started is not cancelled, and that one is the timer it holds; in
    particular a reset replaces the deadline, it does not add one. *)
Theorem watchdog_holds_its_only_running_timer (ks : list Call) (w : t) :
  tidy w →
  tidy (run_calls ks w)
  ∧ ∀ k1 k2 t1 t2,
      timers (run_calls ks w) !! k1 = Some t1 →
      timers (run_calls ks w) !! k2 = Some t2 →
      cancelled t1 = false → cancelled t2 = false → k1 = k2.
Proof.
  intros Hw.
  assert (tidy (run_calls ks w)) as Ht.
  { revert w Hw. induction ks as [|k ks IH]; intros w Hw; [done|].
    apply (IH (call k w)). by apply call_keeps_tidy. }
  split; [done|]. intros k1 k2 t1 t2 H1 H2 Hc1 Hc2.
  destruct Ht as [Hlive _].
  pose proof (Hlive _ _ H1 Hc1). pose proof (Hlive _ _ H2 Hc2). congruence.
Qed.

Lemma watchdog_holds_its_only_running_timer_witness :
  tidy (run_calls
          [CallStart 0 (Some (mkLoop true false)); CallReset 10; CallReset 20;
           CallTimer 60; CallClearLatch; CallStart 70 (Some (mkLoop true false))]
          (init 30 0)).
Proof.
  apply watchdog_holds_its_only_running_timer.
  split; [intros k t H; by destruct k | done].
Defined.

(** *** A reset replaces the deadline *)

(** After a reset at [t0] of a watchdog that is watching, an expiry at
    [now] fires exactly when the timeout has elapsed since [t0], whatever
    the activity stamp was before the reset.  When it fires it latches and
    turns detection off; it hands the termination over exactly once if
    the stored loop is running (posted to the loop, or run on a new loop
    when the posting fails), and hands over nothing if no loop is stored
    or the stored loop is not running.  When it does not fire it changes
    nothing. *)
Theorem expiry_counts_from_the_last_reset (w : t) (t0 now : Z) :
  watching w →
  armed_at t0 (reset_silence_timer t0 w)
  ∧ (silence_timeout w ≤ now - t0 →
     timeout_triggered (handle_silence_timeout now (reset_silence_timer t0 w))
       = true
     ∧ silence_detection_active
         (handle_silence_timeout now (reset_silence_timer t0 w)) = false
     ∧ (∀ lp, loop w = Some lp → is_running lp = true →
          terminations (handle_silence_timeout now (reset_silence_timer t0 w))
          = terminations w
            ++ [if call_soon_fails lp then RanOnNewLoop else PostedToLoop])
     ∧ (loop w = None ∨ (∃ lp, loop w = Some lp ∧ is_running lp = false) →
        terminations (handle_silence_timeout now (reset_silence_timer t0 w))
        = terminations w))
  ∧ (now - t0 < silence_timeout w →
     handle_silence_timeout now (reset_silence_timer t0 w)
       = reset_silence_timer t0 w
     ∧ terminations (reset_silence_timer t0 w) = terminations w).
Proof.
  intros [Ha Ht].
  assert (reset_silence_timer t0 w
          = mk (silence_timeout w)
               (Some (length (match silence_timer w with
                              | Some h => timer_cancel h (timers w)
                              | None => timers w
                              end)))
               t0 true false (loop w)
               (match silence_timer w with
                | Some h => timer_cancel h (timers w)
                | None => timers w
                end ++ [mkTimer (silence_timeout w) t0 false])
               (terminations w)) as Hreset.
  { unfold reset_silence_timer, schedule_silence_timer, timer_start.
    rewrite Ha, Ht. simpl. by rewrite ?Ha, ?Ht. }
  split; [|split].
  - rewrite Hreset. repeat split. eexists. split; [reflexivity|]. simpl.
    by rewrite lookup_app_r, Nat.sub_diag.
  - intros He. rewrite Hreset. unfold handle_silence_timeout. simpl.
    rewrite decide_True by done. simpl.
    split; [done|]. split; [done|]. split.
    + intros lp -> Hrun. simpl. rewrite Hrun. by destruct (call_soon_fails lp).
    + intros [->|(lp & -> & Hrun)]; simpl.
      * by rewrite app_nil_r.
      * rewrite Hrun. by rewrite app_nil_r.
  - intros He. rewrite Hreset. unfold handle_silence_timeout. simpl.
    by rewrite decide_False by lia.
Qed.

Lemma expiry_counts_from_the_last_reset_witness :
  handle_silence_timeout 45 (reset_silence_timer 20 Samples.raced_watchdog)
    = reset_silence_timer 20 Samples.raced_watchdog
  ∧ terminations
      (handle_silence_timeout 51 (reset_silence_timer 20 Samples.raced_watchdog))
    = [PostedToLoop]
  ∧ terminations
      (handle_silence_timeout 51
         (reset_silence_timer 20 (set_loop None Samples.raced_watchdog)))
    = [].
Proof.
  destruct (expiry_counts_from_the_last_reset Samples.raced_watchdog 20 45)
    as (_ & _ & Hearly); [by split|].
  destruct (expiry_counts_from_the_last_reset Samples.raced_watchdog 20 51)
    as (_ & Hlate & _); [by split|].
  destruct (expiry_counts_from_the_last_reset
              (set_loop None Samples.raced_watchdog) 20 51)
    as (_ & Hnone & _); [by split|].
  split; [|split].
  - apply Hearly. simpl. lia.
  - destruct Hlate as (_ & _ & Hfire & _); [simpl; lia|].
    exact (Hfire _ eq_refl eq_refl).
  - destruct Hnone as (_ & _ & _ & Hquiet); [simpl; lia|].
    apply Hquiet. by left.
Defined.

(** *** The stand-alone detector has no latch *)

(** While the stand-alone detector is active, every timer callback that
    runs with the timeout elapsed calls the timeout callback again: as
    many expiries, as many calls, and the detector stays active. *)
Theorem detector_fires_on_every_expiry
    (d : SilenceDetector.t) (times : list Z) :
  SilenceDetector.is_active d = true →
  SilenceDetector.on_timeout_callback d = true →
  Forall (λ now, SilenceDetector.timeout_seconds d
                 ≤ now - SilenceDetector.last_activity_time d) times →
  SilenceDetector.callbacks_run
    (foldl (λ d now, SilenceDetector.handle_timeout now d) d times)
  = (SilenceDetector.callbacks_run d + length times)%nat
  ∧ SilenceDetector.is_active
      (foldl (λ d now, SilenceDetector.handle_timeout now d) d times) = true.
Proof.
  intros Ha Hc Hall. revert d Ha Hc Hall.
  induction times as [|now times IH]; intros d Ha Hc Hall; simpl.
  - split; [lia | done].
  - apply Forall_cons in Hall as [Hnow Hall].
    assert (SilenceDetector.handle_timeout now d
            = SilenceDetector.mk (SilenceDetector.timeout_seconds d) true
                (SilenceDetector.on_timeout_coroutine d) (SilenceDetector.loop d)
                (SilenceDetector.silence_timer d)
                (SilenceDetector.last_activity_time d) true
                (SilenceDetector.timers d)
                (S (SilenceDetector.callbacks_run d))
                (if SilenceDetector.on_timeout_coroutine d && SilenceDetector.loop d
                 then S (SilenceDetector.coroutines_scheduled d)
                 else SilenceDetector.coroutines_scheduled d)) as ->.
    { unfold SilenceDetector.handle_timeout.
      rewrite bool_decide_eq_true_2 by done. rewrite Ha, Hc. done. }
    match goal with
    | |- context [foldl _ ?d' times] =>
        destruct (IH d' eq_refl eq_refl Hall) as [Hn Hact]
    end.
    simpl in *. split; [lia | done].
Qed.

Lemma detector_fires_on_every_expiry_witness :
  SilenceDetector.callbacks_run
    (foldl (λ d now, SilenceDetector.handle_timeout now d)
       Samples.raced_detector [50; 51; 80]) = 3%nat.
Proof.
  destruct (detector_fires_on_every_expiry Samples.raced_detector [50; 51; 80]
              eq_refl eq_refl) as [H _].
  - repeat constructor; simpl; lia.
  - exact H.
Defined.

End WatchdogTimers.

(** ** More properties of the session controller *)

Section SessionLifecycle.

Context {J : Json}.

Import Client ClientNotions SessionNotions.

(** *** Sending while disconnected *)

Lemma call_tool_disconnected (now : Z) (tool : Conversation.Tool) (c : t) :
  is_connected c = false →
  call_tool now tool c = (c, inl NotConnected).
Proof.
  intros H. unfold call_tool.
  match goal with
  | |- proc_bind ?m _ _ = _ => assert (m c = (c, inl NotConnected)) as Htry
  end.
  { unfold try_except, proc_bind, lift, get, raise, proc_ret.
    destruct (loads _); [by rewrite realtime_send_disconnected|].
    destruct (dict_get _ _); [|by rewrite realtime_send_disconnected].
    destruct (handler _ _); [by rewrite realtime_send_disconnected|].
    destruct (dumps _); by rewrite !realtime_send_disconnected. }
  by erewrite bind_err by exact Htry.
Qed.

(** On a client that is not connected nothing goes out: creating a
    response, cancelling without an id and calling a tool all raise the
    not-connected exception and write no frame.  The call of a tool raises
    it whatever the arguments, the registry and the handler do, and leaves
    the client as it was; a buffered input audio is neither committed nor
    dropped. *)
Theorem disconnected_client_sends_nothing
    (c : t) (now : Z) (sample_count : Z) (tool : Conversation.Tool) :
  is_connected c = false →
  ((create_response now c).2 = inl NotConnected
   ∧ wire (create_response now c).1 = wire c
   ∧ input_audio_buffer (create_response now c).1 = input_audio_buffer c
   ∧ conversation (create_response now c).1 = conversation c)
  ∧ (∀ id, id = None ∨ id = Some EmptyString →
       (cancel_response now id sample_count c).2 = inl NotConnected
       ∧ wire (cancel_response now id sample_count c).1 = wire c)
  ∧ call_tool now tool c = (c, inl NotConnected)
  ∧ classify NotConnected = StateConflict.
Proof.
  intros H. split; [|split; [|split; [by apply call_tool_disconnected|done]]].
  - destruct c as [[[w|] tr cl] cv tl sc [td|] [|b buf] wd task ns];
      try discriminate H; by repeat split.
  - intros id [-> | ->];
      destruct c as [[[w|] tr cl] cv tl sc td buf wd task ns];
      try discriminate H; by split.
Qed.

(** *** Who takes the turn *)

Lemma user_status_takes_input_audio (s : Conversation.Local) (b : Byte.byte) (q : bytes) :
  Conversation.type s.1 = "message" →
  Conversation.role s.1 = Some "user" →
  Conversation.queued_input_audio s.2 = Some (b :: q) →
  Conversation.assign_status s
  = ((Conversation.set_formatted
        (Conversation.set_audio (Conversation.AudioBuffer (b :: q)))
        (Conversation.set_status "completed" s.1),
      Conversation.set_queued_input_audio None s.2), inr tt).
Proof.
  intros Hty Hrole Hq. unfold Conversation.assign_status, proc_bind at 1, get.
  rewrite decide_True by done. rewrite Hrole.
  unfold require, proc_bind at 1, proc_ret at 1. rewrite decide_True by done.
  unfold proc_bind at 1, Conversation.on_item, modify,
    Conversation.merge_queued_input_audio, proc_bind at 1, get.
  simpl. by rewrite Hq.
Qed.

(** When turn taking is up to the caller (no turn detection configured)
    and input audio is buffered, creating a response first commits the
    buffer, hands it to the conversation and empties it, then asks for the
    response; the user message created next under a new id takes that
    audio as its formatted audio, and the conversation does not keep it.
    With turn detection configured, only the request for a response goes
    out and the buffer stays. *)
Theorem caller_turn_commits_the_buffer (c : t) (now : Z) :
  is_connected c = true →
  (∀ b buf,
     turn_detection_type c = None →
     input_audio_buffer c = b :: buf →
     ∃ c',
       create_response now c = (c', inr tt)
       ∧ wire c'
         = wire c ++ [API.mkFrame "input_audio_buffer.commit" API.NoData;
                      response_create_frame]
       ∧ input_audio_buffer c' = []
       ∧ Conversation.queued_input_audio (conversation c') = Some (b :: buf)
       ∧ ∀ raw parts,
           Conversation.item_lookup (conversation c) !! Conversation.raw_id raw
             = None →
           Conversation.raw_type raw = "message" →
           Conversation.raw_role raw = Some "user" →
           Conversation.raw_content raw = Some parts →
           StoreNotions.no_text_part parts →
           Conversation.queued_speech_items (conversation c)
             !! Conversation.raw_id raw = None →
           Conversation.queued_transcript_items (conversation c)
             !! Conversation.raw_id raw = None →
           ∃ it cv,
             Conversation.process_event (Conversation.ItemCreated raw) None
               (conversation c') = (cv, inr (Some it, None))
             ∧ Conversation.audio (Conversation.formatted it)
               = Conversation.AudioBuffer (b :: buf)
             ∧ Conversation.queued_input_audio cv = None)
  ∧ (∀ td, turn_detection_type c = Some td →
       ∃ c',
         create_response now c = (c', inr tt)
         ∧ wire c' = wire c ++ [response_create_frame]
         ∧ input_audio_buffer c' = input_audio_buffer c
         ∧ conversation c' = conversation c).
Proof.
  intros H. split.
  - intros b buf Htd Hbuf.
    destruct c as [[[w|] tr cl] cv tl sc td ib wd task ns];
      try discriminate H. simpl in Htd, Hbuf. subst td ib.
    eexists. split; [reflexivity|]. split.
    { unfold wire. simpl. by rewrite <- app_assoc. }
    split; [reflexivity|]. split; [reflexivity|].
    intros raw parts Hfresh Hty Hrole Hcontent Hparts Hs Ht. simpl in *.
    unfold Conversation.process_item_created.
    rewrite bool_decide_eq_true_2 by done.
    erewrite bind_ok by (by apply speech_not_merged).
    erewrite bind_ok by (by eapply no_text_merged).
    erewrite bind_ok by (by apply transcript_not_merged).
    erewrite user_status_takes_input_audio by done.
    by do 2 eexists.
  - intros td Htd.
    destruct c as [[[w|] tr cl] cv tl sc td' [|b ib] wd task ns];
      try discriminate H; simpl in Htd; subst td';
      (eexists; split; [reflexivity|]); by repeat split.
Qed.

(** *** The registry and the server *)

Lemma dict_set_fresh {V} (k : string) (v : V) (d : list (string * V)) :
  dict_get k d = None → dict_set k v d = d ++ [(k, v)].
Proof.
  induction d as [|[k' v'] d IH]; simpl; [done|].
  case_decide as E; [done|]. intros Hd. by rewrite IH.
Qed.

Lemma dict_get_set_ne {V} (k k' : string) (v : V) (d : list (string * V)) :
  k' ≠ k → dict_get k' (dict_set k v d) = dict_get k' d.
Proof.
  intros Hne. induction d as [|[k0 v0] d IH]; simpl.
  - by rewrite decide_False.
  - destruct (decide (k = k0)) as [<-|?]; simpl.
    + by rewrite !decide_False.
    + by rewrite IH.
Qed.

Lemma dict_get_del_ne {V} (k k' : string) (d : list (string * V)) :
  k' ≠ k → dict_get k' (dict_del k d) = dict_get k' d.
Proof.
  intros Hne. induction d as [|[k0 v0] d IH]; simpl; [done|].
  destruct (decide (k = k0)) as [<-|?]; simpl.
  - by rewrite decide_False.
  - by rewrite IH.
Qed.

(** Adding a tool under a new name puts it last in the registry and
    leaves the entries of the other names alone.  On a connected client
    it sends one session.update that lists the definitions of all the
    registered tools in the order they were added, the new one last; on a
    client that is not connected it sends nothing, and the tool is
    registered all the same. *)
Theorem add_tool_announces_the_registry
    (c : t) (now : Z) (name : string) (d : ToolDefinition) (f : Handler) :
  def_name d = Some name →
  name ≠ EmptyString →
  dict_get name (tools c) = None →
  ∃ c',
    add_tool now d (Callable f) c = (c', inr (mkToolConfig d f))
    ∧ tools c' = tools c ++ [(name, mkToolConfig d f)]
    ∧ (∀ k, k ≠ name → dict_get k (tools c') = dict_get k (tools c))
    ∧ wire c'
      = wire c
        ++ (if is_connected c
            then [API.mkFrame "session.update"
                    (API.SessionData
                       (map (λ kv, definition kv.2) (tools c) ++ [d]))]
            else []).
Proof.
  intros Hd Hne Hnone.
  assert (add_tool now d (Callable f) c
          = (modify (set_tools (dict_set name (mkToolConfig d f))) >>
             update_session now >> proc_ret (mkToolConfig d f)) c) as ->.
  { unfold add_tool. rewrite Hd. destruct name as [|a name]; [done|].
    unfold proc_bind at 1. unfold get. by rewrite Hnone. }
  destruct c as [[[w|] tr cl] cv tl sc td buf wd task ns]; simpl in *.
  - eexists. split; [reflexivity|]. simpl.
    split; [by apply dict_set_fresh|].
    split; [intros k Hk; by apply dict_get_set_ne|].
    unfold wire. simpl. rewrite dict_set_fresh by done. by rewrite map_app.
  - eexists. split; [reflexivity|]. simpl.
    split; [by apply dict_set_fresh|].
    split; [intros k Hk; by apply dict_get_set_ne|].
    unfold wire. simpl. by rewrite app_nil_r.
Qed.

(** Removing a tool unregisters that name and no other, and tells the
    server nothing: no frame is written, so the session the server holds
    still lists the tool.  Removing a name that is not registered raises
    and leaves the client as it was. *)
Theorem remove_tool_is_local (c : t) (name : string) :
  (∀ tc, dict_get name (tools c) = Some tc →
     ∃ c',
       remove_tool name c = (c', inr tt)
       ∧ dict_get name (tools c') = None
       ∧ (∀ k, k ≠ name → dict_get k (tools c') = dict_get k (tools c))
       ∧ wire c' = wire c
       ∧ watchdog c' = watchdog c)
  ∧ (dict_get name (tools c) = None →
     remove_tool name c = (c, inl (ToolDoesNotExist name))).
Proof.
  split.
  - intros tc Htc. exists (set_tools (dict_del name) c).
    split; [|split; [|split; [|done]]].
    + unfold remove_tool, proc_bind, get. by rewrite Htc.
    + apply dict_get_del.
    + intros k Hk. by apply dict_get_del_ne.
  - intros Hnone. unfold remove_tool, proc_bind, get. by rewrite Hnone.
Qed.

(** *** Ending a session *)

(** After a disconnect the conversation is empty, the session counts as
    not created, detection is off and the timer that was held is
    cancelled and forgotten; from then on no timer callback, reset,
    scheduling or stop triggers a termination. *)
Theorem disconnect_silences_the_watchdog (c : t) (ops : list Watchdog.Op) :
  conversation (disconnect c) = Conversation.clear
  ∧ session_created (disconnect c) = false
  ∧ Watchdog.silence_detection_active (watchdog (disconnect c)) = false
  ∧ Watchdog.silence_timer (watchdog (disconnect c)) = None
  ∧ (∀ h, Watchdog.silence_timer (watchdog c) = Some h →
          Watchdog.timers (watchdog (disconnect c))
          = timer_cancel h (Watchdog.timers (watchdog c)))
  ∧ Watchdog.terminations (Watchdog.run ops (watchdog (disconnect c)))
    = Watchdog.terminations (watchdog c).
Proof.
  assert (watchdog (disconnect c) = Watchdog.stop_silence_detection (watchdog c))
    as Hw by (by destruct c as [[[w|] tr cl] cv tl sc td buf wd task ns]).
  assert (Watchdog.silence_detection_active
            (Watchdog.stop_silence_detection (watchdog c)) = false) as Hoff
    by (unfold Watchdog.stop_silence_detection;
        by destruct (Watchdog.silence_timer (watchdog c))).
  split; [by destruct c as [[[w|] tr cl] cv tl sc td buf wd task ns]|].
  split; [by destruct c as [[[w|] tr cl] cv tl sc td buf wd task ns]|].
  rewrite Hw. split; [done|]. split; [|split].
  - unfold Watchdog.stop_silence_detection.
    by destruct (Watchdog.silence_timer (watchdog c)).
  - intros h Hh. unfold Watchdog.stop_silence_detection. by rewrite Hh.
  - destruct (inactive_run ops _ Hoff) as [_ ->].
    unfold Watchdog.stop_silence_detection.
    by destruct (Watchdog.silence_timer (watchdog c)).
Qed.

Lemma terminate_realtime (p : Termination) (c : t) :
  realtime (terminate p c) = API.disconnect (realtime c)
  ∧ (is_connected c = true
     ∨ Watchdog.silence_detection_active (watchdog c) = false →
     Watchdog.silence_detection_active (watchdog (terminate p c)) = false)
  ∧ (is_connected c = true ∨ conversation c = Conversation.clear →
     conversation (terminate p c) = Conversation.clear).
Proof.
  destruct c as [[[w|] tr cl] cv tl sc td buf [to [h|] la ac tg lp ts tm] task ns];
    destruct p; simpl; repeat split; try done; try (by intros [?|?]).
Qed.

(** However many of the three ways of ending a session are taken one
    after the other, and in whatever order (the disconnect, the
    disconnect after a silence timeout, the disconnect after the end-of-call
    flag), the stream that was open is closed exactly once, no frame is
    written, and for a client that was connected detection ends up off
    and the conversation empty. *)
Theorem every_way_out_releases_the_stream_once
    (ps : list Termination) (c : t) :
  ps ≠ [] →
  API.ws (realtime (foldl (λ c p, terminate p c) c ps)) = None
  ∧ API.closed (realtime (foldl (λ c p, terminate p c) c ps))
    = API.closed (realtime c) ++ option_list (API.ws (realtime c))
  ∧ wire (foldl (λ c p, terminate p c) c ps) = wire c
  ∧ (is_connected c = true →
     Watchdog.silence_detection_active
       (watchdog (foldl (λ c p, terminate p c) c ps)) = false
     ∧ conversation (foldl (λ c p, terminate p c) c ps) = Conversation.clear).
Proof.
  intros Hps.
  assert (∀ ps c0,
            realtime (foldl (λ c p, terminate p c) c0 ps)
            = (if ps is [] then realtime c0 else API.disconnect (realtime c0))
            ∧ (conversation c0 = Conversation.clear →
               conversation (foldl (λ c p, terminate p c) c0 ps)
               = Conversation.clear)
            ∧ (Watchdog.silence_detection_active (watchdog c0) = false →
               Watchdog.silence_detection_active
                 (watchdog (foldl (λ c p, terminate p c) c0 ps)) = false))
    as Hfold.
  { clear. induction ps as [|p ps IH]; intros c0; [done|]. simpl.
    destruct (terminate_realtime p c0) as (Hr & Hoff & Hcv).
    destruct (IH (terminate p c0)) as (IHr & IHcv & IHoff).
    split; [|split].
    - rewrite IHr, Hr. destruct ps; [done|].
      by destruct (realtime c0) as [[w|] tr cl].
    - intros Hclear. apply IHcv, Hcv. by right.
    - intros Hoff0. apply IHoff, Hoff. by right. }
  destruct ps as [|p ps]; [done|]. simpl.
  destruct (terminate_realtime p c) as (Hr & Hoff & Hcv).
  destruct (Hfold ps (terminate p c)) as (Hfr & Hfcv & Hfoff).
  assert (realtime (foldl (λ c p, terminate p c) (terminate p c) ps)
          = API.disconnect (realtime c)) as Hreal.
  { rewrite Hfr, Hr. destruct ps; [done|].
    by destruct (realtime c) as [[w|] tr cl]. }
  unfold wire. rewrite Hreal.
  split; [by destruct (realtime c) as [[w|] tr cl]|].
  split; [destruct (realtime c) as [[w|] tr cl]; simpl;
          [done | by rewrite app_nil_r]|].
  split; [by destruct (realtime c) as [[w|] tr cl]|].
  intros Hc. split; [apply Hfoff, Hoff | apply Hfcv, Hcv]; by left.
Qed.

(** *** Reset and connect *)

(** A reset empties the registry and the input buffer and stops the
    watchdog, but it closes nothing and clears nothing: the coroutine of
    the disconnect is made and never awaited.  So the stream stays open,
    the items stay in the conversation, a connect after the reset of a
    connected client is refused, and a function call answered after the
    reset gets the error payload of a tool that has not been added. *)
Theorem reset_keeps_the_stream_and_the_items (c : t) :
  realtime (reset c) = realtime c
  ∧ conversation (reset c) = conversation c
  ∧ tools (reset c) = []
  ∧ input_audio_buffer (reset c) = []
  ∧ Watchdog.silence_detection_active (watchdog (reset c)) = false
  ∧ (is_connected c = true →
     (∀ now current_loop opened,
        connect now current_loop opened (reset c)
        = (reset c, inl (Raised "Already connected, use .disconnect() first")))
     ∧ ∀ now tool j,
         loads (Conversation.tool_arguments tool) = inr j →
         ∃ c',
           call_tool now tool (reset c) = (c', inr tt)
           ∧ wire c'
             = wire c
               ++ [output_frame (Conversation.tool_call_id tool)
                     (dumps_error
                        (error_message
                           (ToolNotAdded (Conversation.tool_name tool))));
                   response_create_frame]).
Proof.
  split; [done|]. split; [done|]. split; [done|]. split; [done|].
  split.
  { simpl. unfold Watchdog.stop_silence_detection.
    by destruct (Watchdog.silence_timer (watchdog c)). }
  intros H. split.
  - intros now current_loop opened.
    unfold connect, proc_bind, get.
    change (is_connected (reset c)) with (is_connected c). by rewrite H.
  - intros now tool j Hj.
    destruct (call_tool_connected now tool (reset c) H) as (c' & Hrun & Hw & _).
    exists c'. split; [exact Hrun|]. rewrite Hw.
    unfold answer, tool_result. rewrite Hj. simpl.
    unfold commit_frames. simpl. done.
Qed.

(** Connecting a client that is not connected opens the stream, sends
    one session.update that lists the definitions of the registered tools,
    and clears the latch of the watchdog; the disconnect that follows
    closes that stream.  When the stream cannot be opened the exception
    comes out, no frame is written and the client stays disconnected.
    Connecting a client that is connected is refused and changes
    nothing. *)
Theorem connect_opens_and_announces
    (c : t) (now : Z) (current_loop : option Watchdog.Loop) :
  (is_connected c = false →
   (∀ w, ∃ c',
      connect now current_loop (inr w) c = (c', inr tt)
      ∧ API.ws (realtime c') = Some w
      ∧ wire c'
        = wire c
          ++ [API.mkFrame "session.update"
                (API.SessionData (map (λ kv, definition kv.2) (tools c)))]
      ∧ Watchdog.timeout_triggered (watchdog c') = false
      ∧ tools c' = tools c
      ∧ conversation c' = conversation c
      ∧ API.closed (realtime (disconnect c')) = API.closed (realtime c) ++ [w])
   ∧ ∀ e, ∃ c',
       connect now current_loop (inl e) c = (c', inl e)
       ∧ is_connected c' = false
       ∧ wire c' = wire c)
  ∧ (is_connected c = true →
     ∀ opened,
       connect now current_loop opened c
       = (c, inl (Raised "Already connected, use .disconnect() first"))).
Proof.
  split.
  - intros H. split.
    + intros w. destruct c as [[[w0|] tr cl] cv tl sc td buf wd task ns];
        try discriminate H.
      eexists. split; [reflexivity|]. by repeat split.
    + intros e. destruct c as [[[w0|] tr cl] cv tl sc td buf wd task ns];
        try discriminate H.
      eexists. split; [reflexivity|]. by repeat split.
  - intros H opened. unfold connect, proc_bind, get. by rewrite H.
Qed.

End SessionLifecycle.

(** *** The properties of the session controller on the sample clients *)

Lemma disconnected_client_sends_nothing_witness :
  Client.call_tool 0 (Conversation.mkTool "function" "x" "call_1" "{}")
    Samples.offline_client
  = (Samples.offline_client, inl NotConnected).
Proof.
  destruct (disconnected_client_sends_nothing Samples.offline_client 0 0
              (Conversation.mkTool "function" "x" "call_1" "{}") eq_refl)
    as (_ & _ & H & _).
  exact H.
Defined.

Lemma caller_turn_commits_the_buffer_witness :
  ∃ c',
    Client.create_response 0 Samples.manual_client = (c', inr tt)
    ∧ ClientNotions.wire c'
      = [API.mkFrame "input_audio_buffer.commit" API.NoData;
         ClientNotions.response_create_frame]
    ∧ Client.input_audio_buffer c' = [].
Proof.
  destruct (caller_turn_commits_the_buffer Samples.manual_client 0 eq_refl)
    as [H _].
  destruct (H Byte.x00 (replicate 31 Byte.x00) eq_refl eq_refl)
    as (c' & Hrun & Hw & Hb & _).
  by exists c'.
Defined.

Lemma add_tool_announces_the_registry_witness :
  ∃ c',
    Client.add_tool 0 (mkToolDefinition (Some "y") "schema")
      (Client.Callable Samples.ok_handler)
      (Samples.client Samples.ok_handler Conversation.clear)
    = (c', inr (Client.mkToolConfig (mkToolDefinition (Some "y") "schema")
                  Samples.ok_handler))
    ∧ ClientNotions.wire c'
      = [API.mkFrame "session.update"
           (API.SessionData
              [Samples.x_definition; mkToolDefinition (Some "y") "schema"])].
Proof.
  destruct (add_tool_announces_the_registry
              (Samples.client Samples.ok_handler Conversation.clear) 0 "y"
              (mkToolDefinition (Some "y") "schema") Samples.ok_handler
              eq_refl ltac:(discriminate) eq_refl)
    as (c' & Hrun & _ & _ & Hw).
  by exists c'.
Defined.

Lemma remove_tool_is_local_witness :
  ∃ c',
    Client.remove_tool "x" (Samples.client Samples.ok_handler Conversation.clear)
    = (c', inr tt)
    ∧ ClientNotions.wire c' = [].
Proof.
  destruct (remove_tool_is_local
              (Samples.client Samples.ok_handler Conversation.clear) "x")
    as [H _].
  destruct (H _ eq_refl) as (c' & Hrun & _ & _ & Hw & _).
  by exists c'.
Defined.

Lemma disconnect_silences_the_watchdog_witness :
  Watchdog.silence_timer
    (Client.watchdog (Samples.client Samples.ok_handler Conversation.clear))
  = Some 0%nat
  ∧ Watchdog.timers
      (Client.watchdog
         (Client.disconnect
            (Samples.client Samples.ok_handler Conversation.clear)))
    = timer_cancel 0
        (Watchdog.timers
           (Client.watchdog
              (Samples.client Samples.ok_handler Conversation.clear))).
Proof.
  split; [reflexivity|].
  destruct (disconnect_silences_the_watchdog
              (Samples.client Samples.ok_handler Conversation.clear) [])
    as (_ & _ & _ & _ & H & _).
  exact (H 0%nat eq_refl).
Defined.

Lemma every_way_out_releases_the_stream_once_witness :
  API.closed
    (Client.realtime
       (foldl (λ c p, Client.terminate p c) Samples.manual_client
          [Client.BySilence; Client.ByDisconnect; Client.ByEndCall]))
  = [1%nat].
Proof.
  destruct (every_way_out_releases_the_stream_once
              [Client.BySilence; Client.ByDisconnect; Client.ByEndCall]
              Samples.manual_client ltac:(discriminate))
    as (_ & H & _).
  exact H.
Defined.

Lemma reset_keeps_the_stream_and_the_items_witness :
  Client.connect 0 None (inr 2%nat)
    (Client.reset (Samples.client Samples.ok_handler Samples.one_message))
  = (Client.reset (Samples.client Samples.ok_handler Samples.one_message),
     inl (Raised "Already connected, use .disconnect() first")).
Proof.
  destruct (reset_keeps_the_stream_and_the_items
              (Samples.client Samples.ok_handler Samples.one_message))
    as (_ & _ & _ & _ & _ & H).
  destruct (H eq_refl) as [Hc _]. apply Hc.
Defined.

Lemma connect_opens_and_announces_witness :
  ∃ c',
    Client.connect 0 None (inr 7%nat) Samples.offline_client = (c', inr tt)
    ∧ API.closed (Client.realtime (Client.disconnect c')) = [7%nat].
Proof.
  destruct (connect_opens_and_announces Samples.offline_client 0 None)
    as [H _].
  destruct (H eq_refl) as [Hopen _].
  destruct (Hopen 7%nat) as (c' & Hrun & _ & _ & _ & _ & _ & Hclosed).
  by exists c'.
Defined.

(** ** Activity and the watchdog *)

Section Activity.

Context {J : Json}.

Import Client ClientNotions SessionNotions ReceiveNotions.

Lemma armed_is_watching (now : Z) (w : Watchdog.t) :
  armed_at now w → watching w.
Proof. intros (? & ? & _). by split. Qed.

Lemma reset_arms_watchdog (now : Z) (w : Watchdog.t) :
  watching w → armed_at now (Watchdog.reset_silence_timer now w).
Proof.
  intros [Ha Ht].
  unfold Watchdog.reset_silence_timer, Watchdog.schedule_silence_timer,
    timer_start. rewrite Ha, Ht. simpl. rewrite ?Ha, ?Ht. simpl.
  repeat split. eexists. split; [reflexivity|]. simpl.
  by rewrite lookup_app_r, Nat.sub_diag.
Qed.

Lemma arms_keeps {A} (now : Z) (m : Proc t A) : arms now m → keeps_armed now m.
Proof. intros H c Hc. by eapply H, armed_is_watching. Qed.

Lemma reset_arms (now : Z) : arms now (reset_silence_timer now).
Proof. intros c Hc. by apply reset_arms_watchdog. Qed.

Lemma keeps_inert {A} (now : Z) (m : Proc t A) : inert m → keeps_armed now m.
Proof. intros H c Hc. by rewrite (proj1 (H c)). Qed.

Lemma inert_ret {A} (a : A) : inert (@proc_ret t A a).
Proof. intros c. split; [done | by eexists]. Qed.

Lemma inert_get : inert (@get t).
Proof. intros c. split; [done | by eexists]. Qed.

Lemma inert_modify (f : t → t) :
  (∀ c, watchdog (f c) = watchdog c) → inert (modify f).
Proof. intros H c. split; [apply H | by eexists]. Qed.

Lemma keeps_raise {A} (now : Z) (e : error) : keeps_armed now (@raise t A e).
Proof. by intros c Hc. Qed.

Lemma keeps_require {A} (now : Z) (k : string) (o : option A) :
  keeps_armed now (@require t A k o).
Proof. by destruct o; intros c Hc. Qed.

Lemma keeps_lift {A} (now : Z) (r : error + A) : keeps_armed now (@lift t A r).
Proof. by destruct r; intros c Hc. Qed.

Lemma keeps_on_conversation {A} (now : Z) (m : Proc Conversation.t A) :
  keeps_armed now (on_conversation m).
Proof.
  intros c Hc. unfold on_conversation. by destruct (m (conversation c)).
Qed.

Lemma keeps_bind {A B} (now : Z) (m : Proc t A) (k : A → Proc t B) :
  keeps_armed now m → (∀ a, keeps_armed now (k a)) →
  keeps_armed now (proc_bind m k).
Proof.
  intros Hm Hk c Hc. unfold proc_bind. specialize (Hm c Hc).
  destruct (m c) as [c' [e|a]]; [done|]. by apply Hk.
Qed.

Lemma arms_bind {A B} (now : Z) (m : Proc t A) (k : A → Proc t B) :
  arms now m → (∀ a, keeps_armed now (k a)) → arms now (proc_bind m k).
Proof.
  intros Hm Hk c Hc. unfold proc_bind. specialize (Hm c Hc).
  destruct (m c) as [c' [e|a]]; [done|]. by apply Hk.
Qed.

Lemma arms_after_inert {A B} (now : Z) (m : Proc t A) (k : A → Proc t B) :
  inert m → (∀ a, arms now (k a)) → arms now (proc_bind m k).
Proof.
  intros Hm Hk c Hc. unfold proc_bind. destruct (Hm c) as [Hw [a Ha]].
  destruct (m c) as [c' r]. simpl in *. subst r. apply Hk. by rewrite Hw.
Qed.

Lemma keeps_try_except {A} (now : Z) (m : Proc t A) (h : error → Proc t A) :
  keeps_armed now m → (∀ e, keeps_armed now (h e)) →
  keeps_armed now (try_except m h).
Proof.
  intros Hm Hh c Hc. unfold try_except. specialize (Hm c Hc).
  destruct (m c) as [c' [e|a]]; [by apply Hh | done].
Qed.

Ltac keeps :=
  repeat lazymatch goal with
  | |- keeps_armed _ (proc_bind _ _) => apply keeps_bind; [|intros ?]
  | |- keeps_armed _ (try_except _ _) => apply keeps_try_except; [|intros ?]
  | |- keeps_armed _ (reset_silence_timer _) => apply arms_keeps, reset_arms
  | |- keeps_armed _ (raise _) => apply keeps_raise
  | |- keeps_armed _ (require _ _) => apply keeps_require
  | |- keeps_armed _ (lift _) => apply keeps_lift
  | |- keeps_armed _ (on_conversation _) => apply keeps_on_conversation
  | |- keeps_armed _ (proc_ret _) => apply keeps_inert, inert_ret
  | |- keeps_armed _ get => apply keeps_inert, inert_get
  | |- keeps_armed _ (modify _) =>
      apply keeps_inert, inert_modify; intros ?; reflexivity
  end.

Lemma log_event_arms (now : Z) : arms now (log_event now).
Proof.
  apply arms_after_inert; [by apply inert_modify|]. intros _. apply reset_arms.
Qed.

Lemma keeps_realtime_send (now : Z) (n : string) (d : API.Data) :
  keeps_armed now (realtime_send now n d).
Proof.
  unfold realtime_send. keeps. destruct (is_connected _); keeps.
  apply arms_keeps, log_event_arms.
Qed.

Lemma keeps_create_response (now : Z) : keeps_armed now (create_response now).
Proof.
  unfold create_response. keeps.
  - match goal with
    | |- context [turn_detection_type ?c] =>
        destruct (turn_detection_type c), (input_audio_buffer c)
    end; keeps; apply keeps_realtime_send.
  - apply keeps_realtime_send.
Qed.

Lemma keeps_call_tool (now : Z) (tool : Conversation.Tool) :
  keeps_armed now (call_tool now tool).
Proof.
  unfold call_tool. keeps; try apply keeps_realtime_send;
    try apply keeps_create_response.
  destruct (dict_get _ _); keeps.
Qed.

Lemma process_event_arms (now : Z) (e : Conversation.Event) (args : option bytes) :
  arms now (process_event now e args).
Proof.
  unfold process_event. apply arms_bind; [apply reset_arms|]. intros _.
  keeps. destruct (_.1); keeps.
Qed.

Ltac arms :=
  repeat lazymatch goal with
  | |- arms _ (proc_bind get _) =>
      apply arms_after_inert; [apply inert_get|intros ?]
  | |- arms _ (proc_bind (proc_ret _) _) =>
      apply arms_after_inert; [apply inert_ret|intros ?]
  | |- arms _ (proc_bind (process_event _ _ _) _) =>
      apply arms_bind; [apply process_event_arms|intros ?]
  | |- arms _ (proc_bind _ _) => apply arms_bind; [|intros ?]
  | |- arms _ (log_event _) => apply log_event_arms
  end.

Lemma on_output_item_done_arms (now : Z) (e : Conversation.Event) :
  arms now (on_output_item_done now e).
Proof.
  unfold on_output_item_done. arms. keeps.
  - match goal with |- context [?r.1] => destruct (r.1) as [item|] end; keeps.
    + case_decide; keeps.
    + destruct (Conversation.tool _); keeps. apply keeps_call_tool.
Qed.

(** Every frame that arrives counts as activity: whatever the event is,
    of a known type or not, and whether its processor returns or raises,
    a turn of the receive loop at [now] leaves a watchdog that was
    watching armed at [now]: detection is on, the last activity is
    stamped [now], and the timer held is a fresh one, started at [now] for
    the whole timeout.  The task made for output_item.done does the same
    at the time it runs, whether the tool call in it succeeds or not. *)
Theorem every_server_event_rearms_the_deadline
    (c : t) (now : Z) (current_loop : option Watchdog.Loop)
    (event : Conversation.Event) :
  watching (watchdog c) →
  armed_at now (watchdog (receive now current_loop event c).1)
  ∧ ∀ later, armed_at later (watchdog (on_output_item_done later event c).1).
Proof.
  intros Hc. split; [|intros later; by apply on_output_item_done_arms].
  revert c Hc.
  change (arms now (receive now current_loop event)).
  unfold receive.
  destruct event;
    unfold on_item_created, on_speech_started, on_speech_stopped;
    try (arms; keeps; try apply arms_keeps, log_event_arms;
         try (match goal with |- context [?r.1] => destruct (r.1) end; keeps;
              case_decide; keeps); fail).
  intros c Hc.
  assert (arms now (log_event now)) as Hlog by apply log_event_arms.
  case_decide.
  - unfold proc_bind at 1. unfold modify. apply Hlog.
    unfold on_session_created. destruct Hc as [Ha Ht].
    assert (Watchdog.start_silence_detection now current_loop (watchdog c)
            = watchdog c) as Hstart
      by (unfold Watchdog.start_silence_detection; by rewrite Ha).
    destruct c as [rt cv tl sc td buf w task ns].
    unfold set_end_call_check_task, set_watchdog, set_session_created.
    cbn in *. rewrite !Hstart. destruct (Watchdog.loop w); by split.
  - unfold proc_bind at 1. unfold proc_ret at 1. by apply Hlog.
Qed.

End Activity.

Lemma every_server_event_rearms_the_deadline_witness :
  Watchdog.last_activity_time
    (Client.watchdog
       (Client.receive 33 None (Conversation.TextDelta "ghost" 0 "x")
          (Samples.client Samples.ok_handler Conversation.clear)).1) = 33.
Proof.
  destruct (every_server_event_rearms_the_deadline
              (Samples.client Samples.ok_handler Conversation.clear) 33 None
              (Conversation.TextDelta "ghost" 0 "x"))
    as [(_ & _ & H & _) _]; [by split|].
  exact H.
Defined.
